(** * readable: a port of Arc90's readability content extraction rules

    Shallow embedding of [readable/core.py] and the properties of its
    extraction engine.

    - The code is Python 2: [math.floor] returns a float and the iterator
      protocol is [next].  Byte strings are [string]s; [len] is the
      number of characters.
    - The regular expressions of the module are terms of a small pattern
      type (literals, sequence, alternation, option, end anchor) with a
      backtracking matcher; [re.I] lowers the subject.
    - A parsed document is a [node] tree carrying lxml's [text]/[tail]
      fields.  The passes that depend on object identity (the live node
      list, the score annotation, XPath snapshots that are mutated while
      they are walked) run on a store of elements addressed by reference.
    - Python floats are modelled by the rationals they denote ([Q]); every
      quantity a property below depends on is a small integer, a half of
      one, or a quotient of two lengths.
    - Exceptions are the [Raise] outcomes of an error monad.

    Part I is the program, Part II the vocabulary of the statements and
    the sample documents, Part III the properties of the specification,
    Part IV further properties of the program: the text functions, the
    preparation of the document, the traversal and the copy of nodes, the
    scoring loop and the choice of the top candidate, the cleaning passes
    and the controller. *)

From Stdlib Require Import ZArith QArith Qround String Ascii List Bool Lia.
From stdpp Require Import base option list strings.

Open Scope string_scope.
Open Scope Z_scope.
Open Scope list_scope.

Set Warnings "-register-all".

(** * Part I: the program *)

(** ** Strings *)

Module Str.

(** [str.isspace] for one byte: space, \t, \n, \v, \f, \r. *)
Definition is_space (c : ascii) : bool :=
  let n := nat_of_ascii c in
  (Nat.eqb n 32 || (Nat.leb 9 n && Nat.leb n 13))%bool.

Definition lower_ascii (c : ascii) : ascii :=
  let n := nat_of_ascii c in
  if (Nat.leb 65 n && Nat.leb n 90)%bool then ascii_of_nat (n + 32) else c.

Fixpoint lower (s : string) : string :=
  match s with
  | EmptyString => EmptyString
  | String c s' => String (lower_ascii c) (lower s')
  end.

(** [len(s)] *)
Definition len (s : string) : Z := Z.of_nat (String.length s).

(** Truth value of a Python string: non-empty. *)
Definition truthy (s : string) : bool :=
  match s with EmptyString => false | _ => true end.

(** Truth value of an optional string ([None] and [''] are false). *)
Definition otruthy (o : option string) : bool :=
  match o with Some s => truthy s | None => false end.

Definition oget (o : option string) : string :=
  match o with Some s => s | None => EmptyString end.

(** [bool(s.strip())]: some character is not whitespace. *)
Fixpoint strip_truthy (s : string) : bool :=
  match s with
  | EmptyString => false
  | String c s' => (negb (is_space c) || strip_truthy s')%bool
  end.

(** [o and o.strip()] as a condition. *)
Definition nonblank (o : option string) : bool :=
  match o with Some s => strip_truthy s | None => false end.

(** [len(s.split(c))] is computed from [s.split(c)]. *)
Fixpoint split_aux (c : ascii) (cur : string) (s : string) : list string :=
  match s with
  | EmptyString => [String.rev cur]
  | String a s' =>
      if Ascii.eqb a c then String.rev cur :: split_aux c EmptyString s'
      else split_aux c (String a cur) s'
  end.

Definition split (c : ascii) (s : string) : list string :=
  split_aux c EmptyString s.

Fixpoint count (c : ascii) (s : string) : nat :=
  match s with
  | EmptyString => O
  | String a s' => ((if Ascii.eqb a c then 1 else 0) + count c s')%nat
  end.

(** [sep.join(l)] *)
Fixpoint join (sep : string) (l : list string) : string :=
  match l with
  | [] => EmptyString
  | [x] => x
  | x :: l' => (x ++ sep ++ join sep l')%string
  end.

(** [RE_NORMALIZE.sub(' ', s)] with [RE_NORMALIZE = '\s{2,}']: every
    maximal run of two or more whitespace characters becomes one space;
    a lone whitespace character is kept as it is.  [run] is the first
    character of the whitespace run being read and [many] tells whether
    the run already has two characters. *)
Definition flush (run : option ascii) (many : bool) : string :=
  match run with
  | None => EmptyString
  | Some c => String (if many then " "%char else c) EmptyString
  end.

Fixpoint normalize_aux (run : option ascii) (many : bool) (s : string)
  : string :=
  match s with
  | EmptyString => flush run many
  | String c s' =>
      if is_space c then
        match run with
        | None => normalize_aux (Some c) false s'
        | Some _ => normalize_aux run true s'
        end
      else (flush run many ++ String c (normalize_aux None false s'))%string
  end.

Definition normalize (s : string) : string := normalize_aux None false s.

End Str.

(** ** Regular expressions

    The patterns of the module use literals, alternation, one optional
    group and one end anchor.  All are compiled with [re.I] except
    [RE_SENT] and [RE_NORMALIZE]. *)

Module Re.

Inductive regex :=
| Lit (s : string)
| Seq (r1 r2 : regex)
| Or (r1 r2 : regex)
| Opt (r : regex)
| Eos.

Fixpoint drop (n : nat) (s : string) : string :=
  match n, s with
  | O, _ => s
  | S n', String _ s' => drop n' s'
  | S _, EmptyString => EmptyString
  end.

(** The remainders of [s] after each way [r] matches at its start. *)
Fixpoint rests (r : regex) (s : string) : list string :=
  match r with
  | Lit p => if String.prefix p s then [drop (String.length p) s] else []
  | Seq r1 r2 => flat_map (rests r2) (rests r1 s)
  | Or r1 r2 => rests r1 s ++ rests r2 s
  | Opt r1 => rests r1 s ++ [s]
  | Eos =>
      (* [$]: at the end, or before a newline that ends the string *)
      if (String.eqb s EmptyString ||
          String.eqb s (String "010"%char EmptyString))%bool
      then [s] else []
  end.

Definition matches_at (r : regex) (s : string) : bool :=
  match rests r s with [] => false | _ => true end.

Fixpoint search_from (r : regex) (s : string) : bool :=
  (matches_at r s ||
   match s with
   | EmptyString => false
   | String _ s' => search_from r s'
   end)%bool.

(** [r.search(s)] for a pattern compiled without flags. *)
Definition search (r : regex) (s : string) : bool := search_from r s.

(** [r.search(s)] for a lower-case pattern compiled with [re.I]. *)
Definition search_i (r : regex) (s : string) : bool :=
  search_from r (Str.lower s).

(** [x|y|...] *)
Fixpoint alts (x : string) (l : list string) : regex :=
  match l with
  | [] => Lit x
  | y :: l' => Or (Lit x) (alts y l')
  end.

End Re.

Definition RE_UNLIKELY : Re.regex :=
  Re.alts "combx" ["comment"; "community"; "disqus"; "extra"; "foot";
    "header"; "menu"; "remark"; "rss"; "shoutbox"; "sidebar"; "sponsor";
    "ad-break"; "agegate"; "pagination"; "pager"; "popup"; "tweet";
    "twitter"].
Definition RE_MAYBE : Re.regex :=
  Re.alts "and" ["article"; "body"; "column"; "main"; "shadow"].
Definition RE_POSITIVE : Re.regex :=
  Re.alts "article" ["body"; "content"; "entry"; "hentry"; "main"; "page";
    "pagination"; "post"; "text"; "blog"; "story"].
Definition RE_NEGATIVE : Re.regex :=
  Re.alts "combx" ["comment"; "com-"; "contact"; "foot"; "footer";
    "footnote"; "masthead"; "media"; "meta"; "outbrain"; "promo"; "related";
    "scroll"; "shoutbox"; "sidebar"; "sponsor"; "shopping"; "tags"; "tool";
    "widget"].

Definition _REPL_PARAS : list string :=
  ["a"; "blockquote"; "dl"; "div"; "img"; "ol"; "p"; "pre"; "table"; "ul"].
(** [RE_SENT = '\.( |$)'] *)
Definition RE_SENT : Re.regex :=
  Re.Seq (Re.Lit ".") (Re.Or (Re.Lit " ") Re.Eos).
(** [RE_VIDEOS = 'http:\/\/(www\.)?(youtube|vimeo)\.com'] *)
Definition RE_VIDEOS : Re.regex :=
  Re.Seq (Re.Lit "http://")
    (Re.Seq (Re.Opt (Re.Lit "www."))
       (Re.Seq (Re.Or (Re.Lit "youtube") (Re.Lit "vimeo")) (Re.Lit ".com"))).

(** ** Exceptions *)

Inductive exn :=
| AttributeError   (* an attribute of [None] was read *)
| IndexError       (* [pop] from an empty list *)
| DomError         (* raised inside the DOM library *)
| OutOfBudget.     (* not a Python exception: a bounded loop of this
                      development used up its budget *)

Inductive result (A : Type) :=
| Ok (a : A)
| Raise (e : exn).
Arguments Ok {A} a.
Arguments Raise {A} e.

#[global] Instance result_ret : MRet result := fun _ a => Ok a.
#[global] Instance result_bind : MBind result := fun _ _ k r =>
  match r with Ok a => k a | Raise e => Raise e end.

(** [let* x := m in k]: run [m], then [k] on its value; an exception of
    [m] ends the computation. *)
Definition bind_of {M : Type -> Type} `{MBind M} {A B : Type}
  (m : M A) (k : A -> M B) : M B := mbind k m.

Notation "'let*' x := m 'in' k" := (bind_of m (fun x => k))
  (at level 10, x name, m at level 100, k at level 200, only parsing).
Notation "'let*' ' p := m 'in' k" := (bind_of m (fun p => k))
  (at level 10, p pattern, m at level 100, k at level 200, only parsing).
Notation "m ;; k" := (bind_of m (fun _ => k))
  (at level 100, k at level 200, right associativity, only parsing).

(** ** Documents *)

(** An lxml element: [text] is the text before the first child, [tail] the
    text between the element and its next sibling. *)
Inductive node := Node {
  tag : string;
  attrib : list (string * string);
  text : option string;
  tail : option string;
  children : list node
}.

(** [d.get(key, default)] on an attribute list in document order. *)
Fixpoint attr_get (key : string) (d : list (string * string)) (default : string)
  : string :=
  match d with
  | [] => default
  | (k, v) :: d' => if String.eqb k key then v else attr_get key d' default
  end.

Definition attr_has (key : string) (d : list (string * string)) : bool :=
  existsb (fun kv => String.eqb (fst kv) key) d.

(** [d[key] = v]: update in place, or append a new attribute. *)
Fixpoint attr_set (key v : string) (d : list (string * string))
  : list (string * string) :=
  match d with
  | [] => [(key, v)]
  | (k, w) :: d' =>
      if String.eqb k key then (k, v) :: d' else (k, w) :: attr_set key v d'
  end.

(** [del d[key]] *)
Definition attr_del (key : string) (d : list (string * string))
  : list (string * string) :=
  List.filter (fun kv => negb (String.eqb (fst kv) key)) d.

Definition attr_values (d : list (string * string)) : list string :=
  map snd d.

(** [lxml.html.Element(tag, attrib)] *)
Definition Element (t : string) (a : list (string * string)) : node :=
  Node t a None None [].

(** ** Flags *)

Definition FLAG_NONE : Z := 0x0.
Definition FLAG_STRIP_UNLIKELY : Z := 0x01.
Definition FLAG_CLASS_WEIGHT : Z := 0x02.
Definition FLAG_CLEAN_CONDITIONALLY : Z := 0x04.

Definition FLAGS : list Z :=
  [FLAG_NONE; FLAG_STRIP_UNLIKELY; FLAG_CLASS_WEIGHT; FLAG_CLEAN_CONDITIONALLY].

(** [Readable.__init__]: [self.flags = 0xFFFF] *)
Definition init_flags : Z := 0xFFFF.

(** [self.flags & flag] as a condition *)
Definition flag_on (flags flag : Z) : bool := negb (Z.land flags flag =? 0).

(** [self.flags &= ~flag] *)
Definition clear_flag (flags flag : Z) : Z := Z.land flags (Z.lnot flag).

(** ** Text and attribute utilities *)

Section Utilities.

(** [self.flags] *)
Variable flags : Z.

(** [get_clsid] *)
Definition get_clsid (n : node) : string * string :=
  (attr_get "class" (attrib n) "", attr_get "id" (attrib n) "").

(** [is_unlikely] *)
Definition is_unlikely (n : node) : bool :=
  if negb (flag_on flags FLAG_STRIP_UNLIKELY) then false
  else if String.eqb (tag n) "body" then false
  else
    let ms := (fst (get_clsid n) ++ snd (get_clsid n))%string in
    (Re.search_i RE_UNLIKELY ms && negb (Re.search_i RE_MAYBE ms))%bool.

(** [get_class_weight] *)
Definition get_class_weight (n : node) : Z :=
  if negb (flag_on flags FLAG_CLASS_WEIGHT) then 0
  else
    let weight := 0 in
    let '(ncls, nid) := get_clsid n in
    let weight :=
      if Str.truthy ncls then
        let weight :=
          if Re.search_i RE_NEGATIVE ncls then weight - 25 else weight in
        if Re.search_i RE_POSITIVE ncls then weight + 25 else weight
      else weight in
    let weight :=
      if Str.truthy nid then
        let weight :=
          if Re.search_i RE_NEGATIVE nid then weight - 25 else weight in
        if Re.search_i RE_POSITIVE nid then weight + 25 else weight
      else weight in
    weight.

End Utilities.

(** [get_inner_text]: the text of the node, of its children and its tail,
    each chunk preceded by one space; normalized once, at depth 0. *)
Fixpoint get_inner_text_at (depth : nat) (normalize_spaces : bool) (n : node)
  : string :=
  let text0 :=
    if Str.otruthy (text n) then (" " ++ Str.oget (text n))%string else "" in
  let text1 :=
    fold_left
      (fun acc c =>
         (acc ++ get_inner_text_at (S depth) normalize_spaces c)%string)
      (children n) text0 in
  let text2 :=
    if Str.otruthy (tail n) then (text1 ++ " " ++ Str.oget (tail n))%string
    else text1 in
  if (normalize_spaces && Nat.eqb depth 0)%bool then Str.normalize text2
  else text2.

Definition get_inner_text (n : node) (normalize_spaces : bool) : string :=
  get_inner_text_at 0 normalize_spaces n.

(** [get_char_count] *)
Definition get_char_count (n : node) (c : ascii) : Z :=
  Z.of_nat (length (Str.split c (get_inner_text n true))) - 1.

(** [node.iterdescendants()]: the descendants in document order. *)
Fixpoint iterdescendants (n : node) : list node :=
  flat_map (fun c => c :: iterdescendants c) (children n).

(** [node.xpath('.//t')] *)
Definition xpath (n : node) (t : string) : list node :=
  List.filter (fun d => String.eqb (tag d) t) (iterdescendants n).

(** [get_link_density]; the quotient is Python's [linklen / float(textlen)]. *)
Definition get_link_density (n : node) : Q :=
  let links := xpath n "a" in
  let textlen := Str.len (get_inner_text n true) in
  if textlen =? 0 then 0%Q
  else
    let linklen :=
      fold_left (fun acc link => acc + Str.len (get_inner_text link true))
        links 0 in
    (inject_Z linklen / inject_Z textlen)%Q.


(** ** Tree rewriter: [convert_brs] *)

Definition set_tail (n : node) (t : option string) : node :=
  Node (tag n) (attrib n) (text n) t (children n).

Definition set_children (n : node) (cs : list node) : node :=
  Node (tag n) (attrib n) (text n) (tail n) cs.

(** [c = lxml.html.Element('p'); c.text = t] *)
Definition wrap_p (t : option string) : node := Node "p" [] t None [].

(** ['br' in [n.tag for n in children]] *)
Definition has_br (n : node) : bool :=
  existsb (fun c => String.eqb (tag c) "br") (children n).

(** What the loop over [children] appends to [newn] for one child: nothing
    but its wrapped tail for a [<br>], the child itself (its tail cleared
    once wrapped) for any other element. *)
Definition rebuild_child (c : node) : list node :=
  if String.eqb (tag c) "br" then
    if Str.nonblank (tail c) then [wrap_p (tail c)] else []
  else
    if Str.nonblank (tail c) then [set_tail c (Some ""); wrap_p (tail c)]
    else [c].

(** The body of [if has_br:]: the element [newn] that replaces [node] in
    its parent.  [newn] has no text and no tail of its own. *)
Definition rebuild (n : node) : node :=
  Node (tag n) (attrib n) None None
    ((if Str.nonblank (text n) then [wrap_p (text n)] else []) ++
     flat_map rebuild_child (children n) ++
     (if Str.nonblank (tail n) then [wrap_p (tail n)] else [])).

(** One level of [convert_brs]: the node the final loop iterates over. *)
Definition convert_brs_step (n : node) : node :=
  if has_br n then rebuild n else n.

(** [convert_brs] for a node that has a parent (every node below the root,
    and [body] in [prep_document]); the result takes the node's place in
    the parent.  Python rebuilds one level and then recurses into the
    children of the rebuilt node; the recursion here is on the original
    children, the tail of a child being passed on as the rebuild left it
    ([convert_brs_unfold] below states the source's two phases). *)
Fixpoint convert_brs_at (n : node) (tl : option string) : node :=
  match n with
  | Node t a tx _ cs =>
      if existsb (fun c => String.eqb (tag c) "br") cs then
        Node t a None None
          ((if Str.nonblank tx then [wrap_p tx] else []) ++
           flat_map
             (fun c =>
                if String.eqb (tag c) "br" then
                  if Str.nonblank (tail c) then [wrap_p (tail c)] else []
                else
                  if Str.nonblank (tail c)
                  then [convert_brs_at c (Some ""); wrap_p (tail c)]
                  else [convert_brs_at c (tail c)])
             cs ++
           (if Str.nonblank tl then [wrap_p tl] else []))
      else
        Node t a tx tl (map (fun c => convert_brs_at c (tail c)) cs)
  end.

Definition convert_brs (n : node) : node := convert_brs_at n (tail n).

(** ** Document preparation *)

Section DomLibrary.

(** [lxml.html.fromstring]: the parser of the DOM library.  Its result is
    the root element of the parsed document, as it is when the input is a
    full document; the element that lxml returns for a fragment lies below
    the root of a document built around it, a case left out here. *)
Variable fromstring : string -> result node.
(** The [lxml.html.clean.Cleaner] built by [make_cleaner]. *)
Variable cleaner : node -> node.

Definition is_body (n : node) : bool := String.eqb (tag n) "body".

(** [body.attrib['id'] = 'readableBody'] followed by [convert_brs(body)],
    applied to the first [<body>] child, which is what [tree.find('body')]
    returns. *)
Fixpoint prep_first_body (cs : list node) : list node :=
  match cs with
  | [] => []
  | c :: cs' =>
      if is_body c
      then convert_brs
             (Node (tag c) (attr_set "id" "readableBody" (attrib c))
                (text c) (tail c) (children c)) :: cs'
      else c :: prep_first_body cs'
  end.

(** [prep_document]: returns the document root; the prepared body is its
    first child. *)
Definition prep_document (data : string) : result node :=
  let* tree := fromstring data in
  let tree := cleaner tree in
  let tree :=
    if existsb is_body (children tree) then tree
    else
      (* no body: the children of the root move into a new one *)
      set_children tree [set_children (Element "body" []) (children tree)] in
  (* kill all non-body siblings *)
  let siblings := List.filter (fun n => is_body n) (children tree) in
  mret (set_children tree (prep_first_body siblings)).

End DomLibrary.

(** ** The element store

    The passes after [prep_document] hold references to elements while the
    tree is rewritten: the node list of [NodeIter], the list [to_score],
    the candidates, the results of XPath queries.  An element is a record
    in a [store]; a reference is its index.  An element removed from the
    tree stays in the store, with its own subtree, without a parent. *)

Abbreviation ref := nat.

Record elem := Elem {
  e_tag : string;
  e_attrib : list (string * string);
  e_text : option string;
  e_tail : option string;
  e_children : list ref;
  e_parent : option ref;
  (** [node.readable.score], when the attribute [readable] is set *)
  e_readable : option Q
}.

Abbreviation store := (list elem).

Definition void : elem := Elem "" [] None None [] None None.

Definition rd (s : store) (r : ref) : elem := default void (s !! r).

Definition with_tag (t : string) (e : elem) : elem :=
  Elem t (e_attrib e) (e_text e) (e_tail e) (e_children e) (e_parent e)
    (e_readable e).
Definition with_attrib (a : list (string * string)) (e : elem) : elem :=
  Elem (e_tag e) a (e_text e) (e_tail e) (e_children e) (e_parent e)
    (e_readable e).
Definition with_text (t : option string) (e : elem) : elem :=
  Elem (e_tag e) (e_attrib e) t (e_tail e) (e_children e) (e_parent e)
    (e_readable e).
Definition with_tail (t : option string) (e : elem) : elem :=
  Elem (e_tag e) (e_attrib e) (e_text e) t (e_children e) (e_parent e)
    (e_readable e).
Definition with_children (cs : list ref) (e : elem) : elem :=
  Elem (e_tag e) (e_attrib e) (e_text e) (e_tail e) cs (e_parent e)
    (e_readable e).
Definition with_parent (p : option ref) (e : elem) : elem :=
  Elem (e_tag e) (e_attrib e) (e_text e) (e_tail e) (e_children e) p
    (e_readable e).
Definition with_readable (q : option Q) (e : elem) : elem :=
  Elem (e_tag e) (e_attrib e) (e_text e) (e_tail e) (e_children e)
    (e_parent e) q.

(** [upd r f s]: the store where element [r] is replaced by its image. *)
Definition upd (r : ref) (f : elem -> elem) (s : store) : store :=
  alter f r s.

(** [n.getparent()], [n.getchildren()] *)
Definition getparent (s : store) (r : ref) : option ref := e_parent (rd s r).
Definition getchildren (s : store) (r : ref) : list ref := e_children (rd s r).

(** Unlink [c] from its parent, if it has one; its tail goes with it. *)
Definition detach (c : ref) (s : store) : store :=
  match getparent s c with
  | None => s
  | Some p =>
      upd c (with_parent None)
        (upd p
           (fun e =>
              with_children
                (List.filter (fun x => negb (Nat.eqb x c)) (e_children e)) e)
           s)
  end.

(** [p.append(c)]: [c] leaves its former parent and becomes the last
    child of [p]. *)
Definition append_child (p c : ref) (s : store) : store :=
  let s := detach c s in
  upd c (with_parent (Some p))
    (upd p (fun e => with_children (e_children e ++ [c]) e) s).

(** [p.replace(old, new)] for a child [old] of [p]: [new] takes the place
    of [old], which leaves the tree with its subtree and its tail. *)
Definition replace (p old new : ref) (s : store) : store :=
  let s := detach new s in
  upd new (with_parent (Some p))
    (upd old (with_parent None)
       (upd p (fun e => with_children
                          (map (fun x => if Nat.eqb x old then new else x)
                             (e_children e)) e)
          s)).

(** The descendants of [r] in document order.  The recursion follows the
    child references and is bounded by [fuel]; the size of the store is
    enough for a tree, whose depth is less than the number of elements. *)
Fixpoint desc_fuel (fuel : nat) (s : store) (r : ref) : list ref :=
  match fuel with
  | O => []
  | S f => flat_map (fun c => c :: desc_fuel f s c) (getchildren s r)
  end.

(** [list(r.iterdescendants())] *)
Definition iterdescendants_s (s : store) (r : ref) : list ref :=
  desc_fuel (length s) s r.

(** [r.xpath('.//t')] *)
Definition xpath_s (s : store) (r : ref) (t : string) : list ref :=
  List.filter (fun d => String.eqb (e_tag (rd s d)) t) (iterdescendants_s s r).

(** [r.xpath('.//t1|.//t2|...')]: the union, in document order. *)
Definition xpath_any (s : store) (r : ref) (ts : list string) : list ref :=
  List.filter (fun d => existsb (String.eqb (e_tag (rd s d))) ts)
    (iterdescendants_s s r).

(** The subtree at [r], as a document value. *)
Fixpoint extract_fuel (fuel : nat) (s : store) (r : ref) : node :=
  let e := rd s r in
  Node (e_tag e) (e_attrib e) (e_text e) (e_tail e)
    match fuel with
    | O => []
    | S f => map (extract_fuel f s) (e_children e)
    end.

Definition extract (s : store) (r : ref) : node :=
  extract_fuel (length s) s r.

(** Allocation of the elements of a document, in document order. *)
Fixpoint load (parent : option ref) (n : node) (s : store) : ref * store :=
  let r := length s in
  let s := s ++ [Elem (tag n) (attrib n) (text n) (tail n) [] parent None] in
  let '(cs, s) :=
    fold_left
      (fun '(cs, s) c => let '(rc, s) := load (Some r) c s in (cs ++ [rc], s))
      (children n) ([], s) in
  (r, upd r (with_children cs) s).

(** ** Stateful computations over the store, with exceptions *)

Definition M (A : Type) : Type := store -> result (A * store).

#[global] Instance M_ret : MRet M := fun _ a s => Ok (a, s).
#[global] Instance M_bind : MBind M := fun _ _ k m s =>
  match m s with
  | Ok (a, s') => k a s'
  | Raise e => Raise e
  end.

Definition gets {A} (f : store -> A) : M A := fun s => Ok (f s, s).
Definition modify (f : store -> store) : M unit := fun s => Ok (tt, f s).
Definition raise {A} (e : exn) : M A := fun _ => Raise e.

(** [for x in l: body(x)] over a list that was built before the loop. *)
Fixpoint for_each {A} (l : list A) (body : A -> M unit) : M unit :=
  match l with
  | [] => mret tt
  | x :: l' => body x;; for_each l' body
  end.

(** A loop that carries a value from one round to the next. *)
Fixpoint fold_m {A B} (body : B -> A -> M B) (b : B) (l : list A) : M B :=
  match l with
  | [] => mret b
  | x :: l' => let* b' := body b x in fold_m body b' l'
  end.

(** [lxml.html.Element(t, a)]: a new element outside the tree. *)
Definition new_element (t : string) (a : list (string * string)) : M ref :=
  fun s => Ok (length s, s ++ [Elem t a None None [] None None]).

(** [n.getparent().remove(n)] *)
Definition remove_from_parent (n : ref) : M unit :=
  let* p := gets (fun s => getparent s n) in
  match p with
  | None => raise AttributeError
  | Some _ => modify (detach n)
  end.

(** [n.getparent().replace(n, newn)] *)
Definition replace_in_parent (n newn : ref) : M unit :=
  let* p := gets (fun s => getparent s n) in
  match p with
  | None => raise AttributeError
  | Some p => modify (replace p n newn)
  end.

(** The element [r] alone, for the functions that read its tag and its
    attributes only. *)
Definition shallow (s : store) (r : ref) : node :=
  let e := rd s r in Node (e_tag e) (e_attrib e) (e_text e) (e_tail e) [].

(** [l[i]] with Python's negative indices. *)
Definition py_index {A} (l : list A) (i : Z) : option A :=
  if i <? 0 then
    if Z.of_nat (length l) + i <? 0 then None
    else l !! Z.to_nat (Z.of_nat (length l) + i)
  else l !! Z.to_nat i.

(** [l.pop()]: the last item and the list without it. *)
Definition py_pop {A} (l : list A) : option (A * list A) :=
  match rev l with
  | [] => None
  | x :: r => Some (x, rev r)
  end.

(** ** [NodeIter]: the live node list *)

Record NodeIter := MkNodeIter {
  it_root : ref;
  it_nodes : list ref;
  it_idx : Z;
  it_current : option ref
}.

(** [NodeIter.__init__] *)
Definition NodeIter_init (root : ref) : M NodeIter :=
  let* nodes := gets (fun s => iterdescendants_s s root) in
  mret (MkNodeIter root nodes 0 None).

(** [NodeIter.next]: [None] stands for [StopIteration]. *)
Definition NodeIter_next (it : NodeIter)
  : M (option (NodeIter * (Z * ref))) :=
  if Z.of_nat (length (it_nodes it)) <=? it_idx it then mret None
  else
    match py_index (it_nodes it) (it_idx it) with
    | None => raise IndexError
    | Some node =>
        let it :=
          MkNodeIter (it_root it) (it_nodes it) (it_idx it + 1) (Some node) in
        mret (Some (it, (it_idx it, node)))
    end.

(** [NodeIter.remove] *)
Definition NodeIter_remove (it : NodeIter) : M NodeIter :=
  match it_current it with
  | None => mret it
  | Some curr =>
      remove_from_parent curr;;
      let* nodes := gets (fun s => iterdescendants_s s (it_root it)) in
      mret (MkNodeIter (it_root it) nodes (it_idx it - 1) (it_current it))
  end.

(** ** Node selection *)

(** [node_copy]: a copy of the element and, recursively, of its children;
    the [readable] attribute is not copied. *)
Fixpoint node_copy_fuel (fuel : nat) (n : ref) : M ref :=
  let* e := gets (fun s => rd s n) in
  let* newn := new_element (e_tag e) (e_attrib e) in
  modify (upd newn (fun x => with_tail (e_tail e) (with_text (e_text e) x)));;
  match fuel with
  | O => match e_children e with [] => mret tt | _ => raise OutOfBudget end
  | S f =>
      for_each (e_children e) (fun c =>
        let* newc := node_copy_fuel f c in
        modify (append_child newn newc))
  end;;
  mret newn.

Definition node_copy (n : ref) : M ref :=
  fun s => node_copy_fuel (length s) n s.

(** [el = lxml.html.Element('p'); el.text = t] *)
Definition new_p (t : option string) : M ref :=
  let* el := new_element "p" [] in
  modify (upd el (with_text t));;
  mret el.

(** [_paragraphize_text] *)
Definition _paragraphize_text (node : ref) : M (list ref) :=
  let* e := gets (fun s => rd s node) in
  let* newn := new_element (e_tag e) (e_attrib e) in
  let* to_score :=
    (if Str.otruthy (e_text e) then
       let* el := new_p (e_text e) in
       modify (upd node (with_text (Some "")));;
       modify (append_child newn el);;
       mret [el]
     else mret []) in
  let* to_score :=
    fold_m (fun to_score c =>
        modify (append_child newn c);;
        let* ctail := gets (fun s => e_tail (rd s c)) in
        if Str.otruthy ctail then
          let* el := new_p ctail in
          modify (upd c (with_tail (Some "")));;
          modify (append_child newn el);;
          mret (to_score ++ [el])
        else mret to_score)
      to_score (e_children e) in
  let* ntail := gets (fun s => e_tail (rd s node)) in
  let* to_score :=
    (if Str.otruthy ntail then
       let* el := new_p ntail in
       modify (upd node (with_tail (Some "")));;
       modify (append_child newn el);;
       mret (to_score ++ [el])
     else mret to_score) in
  replace_in_parent node newn;;
  mret to_score.

(** Comparisons of Python numbers. *)
Definition Qltb (a b : Q) : bool := negb (Qle_bool b a).
Definition Qleb (a b : Q) : bool := Qle_bool a b.
(** [max(a, b)] *)
Definition Qmax2 (a b : Q) : Q := if Qltb a b then b else a.

Definition in_tags (t : string) (ts : list string) : bool :=
  existsb (String.eqb t) ts.

Section Passes.

(** [self.flags] during one pass *)
Variable flags : Z.

(** The rounds of the loop of [select_scorable]; [budget] bounds their
    number.  Besides [to_score] the loop here keeps [visited], the nodes
    the iterator has yielded so far: the code does not have this list, the
    statements about the traversal do. *)
Fixpoint select_loop (budget : nat) (it : NodeIter)
  (to_score visited : list ref) : M (list ref * list ref) :=
  match budget with
  | O => raise OutOfBudget
  | S budget =>
      let* nx := NodeIter_next it in
      match nx with
      | None => mret (to_score, visited)
      | Some (it, (_, n)) =>
          let visited := visited ++ [n] in
          let* unlikely := gets (fun s => is_unlikely flags (shallow s n)) in
          if unlikely then
            let* it := NodeIter_remove it in
            select_loop budget it to_score visited
          else
            let* t := gets (fun s => e_tag (rd s n)) in
            (* line 733 *)
            let to_score :=
              if in_tags t ["p"; "td"; "pre"] then to_score ++ [n]
              else to_score in
            (* line 738 *)
            if String.eqb t "div" then
              let* hits := gets (fun s => xpath_any s n _REPL_PARAS) in
              match hits with
              | [] =>
                  let* newn := node_copy n in
                  modify (upd newn (with_tag "p"));;
                  replace_in_parent n newn;;
                  select_loop budget it (to_score ++ [n; newn]) visited
              | _ =>
                  let* ps := _paragraphize_text n in
                  select_loop budget it (to_score ++ ps) visited
              end
            else select_loop budget it to_score visited
      end
  end.

Definition select_budget (s : store) : nat :=
  (4 * S (length s) * S (length s))%nat.

(** [select_scorable], with the list of the visited nodes *)
Definition select_traversal (node : ref) : M (list ref * list ref) :=
  let* nodeiter := NodeIter_init node in
  let* budget := gets select_budget in
  select_loop budget nodeiter [] [].

(** [select_scorable] *)
Definition select_scorable (node : ref) : M (list ref) :=
  let* '(to_score, _) := select_traversal node in
  mret to_score.

(** ** Scoring *)

(** The initial score of [initialize_node], by tag. *)
Definition tag_score (t : string) : Z :=
  if String.eqb t "div" then 5
  else if in_tags t ["pre"; "td"; "blockquote"] then 3
  else if in_tags t ["address"; "ol"; "ul"; "dl"; "dd"; "dt"; "li"; "form"]
  then -3
  else if in_tags t ["h1"; "h2"; "h3"; "h4"; "h5"; "h6"; "th"] then -5
  else 0.

Definition initial_score (s : store) (n : ref) : Z :=
  tag_score (e_tag (rd s n)) + get_class_weight flags (shallow s n).

(** [initialize_node] *)
Definition initialize_node (n : ref) : M unit :=
  modify (fun s =>
    upd n (with_readable (Some (inject_Z (initial_score s n)))) s).

(** [is_readable] *)
Definition is_readable (s : store) (n : ref) : bool :=
  match e_readable (rd s n) with Some _ => true | None => false end.

(** [n.readable.score] *)
Definition score_of (s : store) (n : ref) : Q :=
  match e_readable (rd s n) with Some q => q | None => 0%Q end.

(** [n.readable.score += q] *)
Definition add_score (n : ref) (q : Q) : M unit :=
  modify (fun s => upd n (with_readable (Some (score_of s n + q)%Q)) s).

Definition s_inner_text (s : store) (n : ref) (normalize_spaces : bool)
  : string :=
  get_inner_text (extract s n) normalize_spaces.

Definition s_link_density (s : store) (n : ref) : Q :=
  get_link_density (extract s n).

(** Lines 809-812 of the original: the score of one paragraph,
    [1 + len(text.split(',')) + min(math.floor(len(text) / 100.0), 3)]. *)
Definition para_score (text : string) : Z :=
  let score := 0 in
  let score := score + 1 in
  let score := score + Z.of_nat (length (Str.split ","%char text)) in
  score + Z.min (Qfloor (inject_Z (Str.len text) / 100)) 3.

(** One round of the loop of [score_paras]. *)
Definition score_para (candidates : list ref) (n : ref) : M (list ref) :=
  let* parent := gets (fun s => getparent s n) in
  match parent with
  | None => mret candidates
  | Some parent =>
      let* gparent := gets (fun s => getparent s parent) in
      let* text := gets (fun s => s_inner_text s n true) in
      if Str.len text <? 25 then mret candidates
      else
        let* preadable := gets (fun s => is_readable s parent) in
        let* candidates :=
          (if negb preadable then
             initialize_node parent;; mret (candidates ++ [parent])
           else mret candidates) in
        let* candidates :=
          match gparent with
          | Some gparent =>
              let* greadable := gets (fun s => is_readable s gparent) in
              if negb greadable then
                initialize_node gparent;; mret (candidates ++ [gparent])
              else mret candidates
          | None => mret candidates
          end in
        (* line 809 *)
        let score := para_score text in
        add_score parent (inject_Z score);;
        match gparent with
        | Some gparent => add_score gparent (inject_Z score / 2)%Q
        | None => mret tt
        end;;
        mret candidates
  end.

(** [score_paras] hands the candidates to [_select_top]. *)
Definition score_all (nodes : list ref) : M (list ref) :=
  fold_m score_para [] nodes.

(** ** Cleaning *)

(** [clean_styles] *)
Fixpoint clean_styles_fuel (fuel : nat) (n : ref) : M unit :=
  modify (upd n (fun e =>
    if attr_has "style" (e_attrib e)
    then with_attrib (attr_del "style" (e_attrib e)) e else e));;
  let* cs := gets (fun s => getchildren s n) in
  match fuel with
  | O => match cs with [] => mret tt | _ => raise OutOfBudget end
  | S f => for_each cs (clean_styles_fuel f)
  end.

Definition clean_styles (n : ref) : M unit :=
  fun s => clean_styles_fuel (length s) n s.

(** [RE_VIDEOS.search('|'.join(n.attrib.values()))] *)
Definition is_video (s : store) (n : ref) : bool :=
  Re.search_i RE_VIDEOS (Str.join "|" (attr_values (e_attrib (rd s n)))).

(** [clean] *)
Definition clean (node : ref) (t : string) : M unit :=
  let* targets := gets (fun s => xpath_s s node t) in
  let is_embed := in_tags t ["object"; "embed"] in
  for_each targets (fun n =>
    let* video := gets (fun s => is_video s n) in
    if (is_embed && video)%bool then mret tt
    else remove_from_parent n).

(** [get_char_count] on the store *)
Definition s_char_count (s : store) (n : ref) (c : ascii) : Z :=
  get_char_count (extract s n) c.

(** Lines 1649-1663: the chain that sets [to_remove]. *)
Definition conditionally_removed (t : string) (weight : Z)
  (num_p num_img num_li num_input num_embeds len_content : Z)
  (link_density : Q) : bool :=
  if num_p <? num_img then true
  else if ((num_p <? num_li) && negb (in_tags t ["ul"; "ol"]))%bool then true
  else if Qfloor (inject_Z num_p / 3) <? num_input then true
  else if ((len_content <? 25) && ((num_img =? 0) || (2 <? num_img)))%bool
  then true
  else if ((weight <? 25) && Qltb (2 # 10) link_density)%bool then true
  else if ((25 <=? weight) && Qltb (5 # 10) link_density)%bool then true
  else if (((num_embeds =? 1) && (len_content <? 75)) || (1 <? num_embeds))%bool
  then true
  else false.

(** [clean_conditionally] *)
Definition clean_conditionally (node : ref) (t : string) : M unit :=
  if negb (flag_on flags FLAG_CLEAN_CONDITIONALLY) then mret tt
  else
    let* nodes := gets (fun s => xpath_s s node t) in
    for_each nodes (fun n =>
      if Nat.eqb n node then mret tt
      else
        let* weight := gets (fun s => get_class_weight flags (shallow s n)) in
        let* score :=
          gets (fun s => if is_readable s n then score_of s n else 0%Q) in
        if Qltb (inject_Z weight + score) 0 then remove_from_parent n
        else
          let* commas := gets (fun s => s_char_count s n ","%char) in
          if commas <? 10 then
            let* to_remove := gets (fun s =>
              let num_p := Z.of_nat (length (xpath_s s n "p")) in
              let num_img := Z.of_nat (length (xpath_s s n "img")) in
              let num_li := Z.of_nat (length (xpath_s s n "li")) - 100 in
              let num_input := Z.of_nat (length (xpath_s s n "input")) in
              let num_embeds :=
                Z.of_nat (length (List.filter
                  (fun em => Re.search_i RE_VIDEOS
                               (attr_get "src" (e_attrib (rd s em)) ""))
                  (xpath_s s n "embed"))) in
              let link_density := s_link_density s n in
              let len_content := Str.len (s_inner_text s n true) in
              conditionally_removed t weight num_p num_img num_li num_input
                num_embeds len_content link_density) in
            if to_remove then remove_from_parent n else mret tt
          else mret tt).

(** [clean_headers]: the tags are ['h%d' % i] for [i] in [range(0, 3)]. *)
Definition clean_headers (node : ref) : M unit :=
  for_each ["h0"; "h1"; "h2"] (fun t =>
    let* hs := gets (fun s => xpath_s s node t) in
    for_each hs (fun n =>
      let* cw := gets (fun s => get_class_weight flags (shallow s n)) in
      let* ld := gets (fun s => s_link_density s n) in
      if ((cw <? 0) || Qltb (33 # 100) ld)%bool then remove_from_parent n
      else mret tt)).

(** A Python value of the two kinds that meet in the last loop of
    [prep_article]: the list an XPath query returns, and an integer. *)
Inductive pyval :=
| PyInt (z : Z)
| PyList (l : list ref).

(** [a == b]: a list and an integer are never equal. *)
Definition py_eq (a b : pyval) : bool :=
  match a, b with
  | PyInt x, PyInt y => x =? y
  | PyList l, PyList l' => bool_decide (l = l')
  | _, _ => false
  end.

(** Line 626, "remove extra paragraphs" *)
Definition remove_extra_paragraphs (content : ref) : M unit :=
  let* ps := gets (fun s => xpath_s s content "p") in
  for_each ps (fun n =>
    let* num_img := gets (fun s => PyList (xpath_s s n "img")) in
    let* num_embed := gets (fun s => PyList (xpath_s s n "embed")) in
    let* num_object := gets (fun s => PyList (xpath_s s n "object")) in
    if (py_eq num_img (PyInt 0) && py_eq num_embed (PyInt 0) &&
        py_eq num_object (PyInt 0))%bool then
      let* t := gets (fun s => s_inner_text s n false) in
      if Str.truthy t then remove_from_parent n else mret tt
    else mret tt).

(** [prep_article] *)
Definition prep_article (content : ref) : M unit :=
  clean_styles content;;
  clean_conditionally content "form";;
  clean content "object";;
  clean content "h1";;
  let* h2s := gets (fun s => xpath_s s content "h2") in
  (if Nat.eqb (length h2s) 1 then clean content "h2" else mret tt);;
  clean content "iframe";;
  clean_headers content;;
  clean_conditionally content "table";;
  clean_conditionally content "ul";;
  clean_conditionally content "div";;
  remove_extra_paragraphs content.

(** ** Selection of the top candidate *)

(** The first loop of [_select_top]: each candidate's score is scaled by
    [1 - link_density]; [top] is the first candidate of greatest score. *)
Definition rank_candidate (top : option ref) (n : ref) : M (option ref) :=
  let* ld := gets (fun s => s_link_density s n) in
  modify (fun s => upd n (with_readable (Some (score_of s n * (1 - ld))%Q)) s);;
  let* better := gets (fun s =>
    match top with
    | None => true
    | Some top => Qltb (score_of s top) (score_of s n)
    end) in
  mret (if better then Some n else top).

(** Lines 859-906: one sibling of [top]. *)
Definition harvest_sibling (top content : ref) (sib_thresh : Q) (n : ref)
  : M unit :=
  let append := false in
  let append := if Nat.eqb n top then true else append in
  (* line 881 *)
  let* append := gets (fun s =>
    let bonus := 0%Q in
    let tclass := attr_get "class" (e_attrib (rd s top)) "" in
    let nclass := attr_get "class" (e_attrib (rd s n)) "" in
    let bonus :=
      if (String.eqb nclass tclass && Str.truthy tclass)%bool
      then (bonus + score_of s top * (2 # 10))%Q else bonus in
    if (is_readable s n && Qleb sib_thresh (score_of s n + bonus))%bool
    then true else append) in
  (* line 891 *)
  let* append := gets (fun s =>
    if String.eqb (e_tag (rd s n)) "p" then
      let link_density := s_link_density s n in
      let text := s_inner_text s n true in
      let text_len := Str.len text in
      if ((80 <? text_len) && Qltb link_density (25 # 100))%bool then true
      else if ((text_len <? 80) && Qeq_bool link_density 0 &&
               Re.search RE_SENT text)%bool then true
      else append
    else append) in
  (* line 904 *)
  if append then
    let* t := gets (fun s => e_tag (rd s n)) in
    (if negb (in_tags t ["div"; "p"]) then modify (upd n (with_tag "div"))
     else mret tt);;
    modify (append_child content n)
  else mret tt.

(** [_select_top] *)
Definition _select_top (candidates : list ref) (body : ref) : M ref :=
  (* line 824 *)
  let* top := fold_m rank_candidate None candidates in
  (* line 843 *)
  let* content := new_element "div" [] in
  let* top_is_body := gets (fun s =>
    match top with
    | None => true
    | Some top => String.eqb (e_tag (rd s top)) "body"
    end) in
  let* top :=
    match top, top_is_body with
    | Some top, false => mret top
    | _, _ =>
        let* top := new_element "div" [] in
        let* cs := gets (fun s => getchildren s body) in
        for_each cs (fun n => modify (append_child top n));;
        modify (append_child body top);;
        initialize_node top;;
        initialize_node body;;
        mret top
    end in
  (* line 859 *)
  let* sib_thresh := gets (fun s => Qmax2 10 (score_of s top * (2 # 10))) in
  let* parent := gets (fun s => getparent s top) in
  match parent with
  | None => raise AttributeError
  | Some parent =>
      let* siblings := gets (fun s => getchildren s parent) in
      for_each siblings (harvest_sibling top content sib_thresh);;
      prep_article content;;
      mret content
  end.

(** [score_paras] *)
Definition score_paras (nodes : list ref) (body : ref) : M ref :=
  let* candidates := score_all nodes in
  _select_top candidates body.

End Passes.

(** ** The extraction controller *)

Section Controller.

Variable fromstring : string -> result node.
Variable cleaner : node -> node.

(** [_grab_article]: one pass under the flags [flags]; the content is
    returned as a document value. *)
Definition _grab_article (flags : Z) (data : string) : result node :=
  let* tree := prep_document fromstring cleaner data in
  let '(root, s) := load None tree [] in
  (* the body that [prep_document] returns is the first child of the root *)
  match getchildren s root with
  | [] => Raise DomError
  | body :: _ =>
      let* '(content, s) :=
        (let* to_score := select_scorable flags body in
         score_paras flags to_score body) s in
      mret (extract s content)
  end.

(** The loop of [grab_article]; it returns the content and [self.flags]. *)
Fixpoint grab_loop (budget : nat) (data : string) (queue : list Z)
  (self_flags : Z) (content : option node) (text : string)
  : result (option node) * Z :=
  if Str.len text <? 250 then
    match budget with
    | O => (Raise OutOfBudget, self_flags)
    | S budget =>
        match py_pop queue with
        | None => (Raise IndexError, self_flags)
        | Some (flag, queue) =>
            let self_flags := clear_flag self_flags flag in
            match _grab_article self_flags data with
            | Raise e => (Raise e, self_flags)
            | Ok content =>
                (* if no more flags can be cleared, take what we can get *)
                match queue with
                | [] => (Ok (Some content), self_flags)
                | _ =>
                    grab_loop budget data queue self_flags (Some content)
                      (get_inner_text content false)
                end
            end
        end
    end
  else (Ok content, self_flags).

(** [grab_article] on an instance whose flags are [self_flags]. *)
Definition grab_article (self_flags : Z) (data : string)
  : result (option node) * Z :=
  let flags := rev FLAGS in
  grab_loop (S (length flags)) data flags self_flags None "".

End Controller.

(** * Part II: the words of the specification, and sample documents *)

(** ** The class weight *)

(** The contribution of one attribute value to the class weight, as the
    specification words it: -25 if NEGATIVE matches, +25 if POSITIVE
    matches, both possible. *)
Definition attr_contribution (s : string) : Z :=
  (if Re.search_i RE_NEGATIVE s then -25 else 0) +
  (if Re.search_i RE_POSITIVE s then 25 else 0).

(** ** The relaxation schedule

    The controller clears the values of the queue one by one; after each
    pass but the last it returns the content when its text has 250
    characters or more. *)

Definition long_enough (content : node) : bool :=
  250 <=? Str.len (get_inner_text content false).

Fixpoint relax (pass : Z -> result node) (flags : Z) (queue : list Z)
  : result (option node) * Z :=
  match queue with
  | [] => (Raise IndexError, flags)
  | flag :: queue' =>
      let flags := clear_flag flags flag in
      match pass flags with
      | Raise e => (Raise e, flags)
      | Ok content =>
          match queue' with
          | [] => (Ok (Some content), flags)
          | _ =>
              if long_enough content then (Ok (Some content), flags)
              else relax pass flags queue'
          end
      end
  end.


(** The flags of the four passes of an invocation that starts from
    [flags]. *)
Definition pass_flags (flags : Z) : list Z :=
  let g1 := clear_flag flags FLAG_NONE in
  let g2 := clear_flag g1 FLAG_STRIP_UNLIKELY in
  let g3 := clear_flag g2 FLAG_CLASS_WEIGHT in
  let g4 := clear_flag g3 FLAG_CLEAN_CONDITIONALLY in
  [g1; g2; g3; g4].

Section Invocations.

Variable fromstring : string -> result node.
Variable cleaner : node -> node.



End Invocations.

(** ** Documents without [<br>] *)

Definition is_br (n : node) : bool := String.eqb (tag n) "br".

(** No descendant of [n] is a [<br>]. *)
Definition br_free (n : node) : bool :=
  forallb (fun d => negb (is_br d)) (iterdescendants n).

(** ** Link density *)

(** The sum of the lengths of the normalized inner texts of the links. *)
Definition links_length (n : node) : Z :=
  fold_right Z.add 0
    (map (fun a => Str.len (get_inner_text a true)) (xpath n "a")).

(** ** Scores *)

(** The score a node has when the loop adds to it: its score if it is
    annotated, the score [initialize_node] gives it otherwise. *)
Definition base_score (flags : Z) (s : store) (x : ref) : Q :=
  if is_readable s x then score_of s x
  else inject_Z (initial_score flags s x).

(** [initialize_node] when the node has no annotation yet. *)
Definition ensure_initialized (flags : Z) (x : ref) (s : store) : store :=
  if is_readable s x then s
  else upd x (with_readable (Some (inject_Z (initial_score flags s x)))) s.

(** The store after a round of [score_paras] that scores its node. *)
Definition scored (flags : Z) (p : ref) (g : option ref) (a : Z) (s : store)
  : store :=
  let s1 := ensure_initialized flags p s in
  let s2 :=
    match g with Some x => ensure_initialized flags x s1 | None => s1 end in
  let s3 := upd p (with_readable (Some (score_of s2 p + inject_Z a)%Q)) s2 in
  match g with
  | Some x => upd x (with_readable (Some (score_of s3 x + inject_Z a / 2)%Q)) s3
  | None => s3
  end.

(** ** Well-formed stores *)

(** Every child records its parent. *)
Definition parents_ok (s : store) : bool :=
  forallb
    (fun p =>
       forallb
         (fun c =>
            match getparent s c with
            | Some q => Nat.eqb q p
            | None => false
            end)
         (getchildren s p))
    (seq 0 (length s)).

Definition parents_agree (s : store) : Prop :=
  forall p c, In c (getchildren s p) -> getparent s c = Some p.

(** [rises n s r]: the chain of parents that starts at [r] ends within [n]
    steps. *)
Fixpoint rises (n : nat) (s : store) (r : ref) : bool :=
  match n with
  | O => false
  | S n' =>
      match getparent s r with
      | None => true
      | Some p => rises n' s p
      end
  end.

(** No chain of parents is longer than the store: there is no cycle. *)
Definition acyclic (s : store) : bool :=
  forallb (rises (length s) s) (seq 0 (length s)).

(** [descendant s r d]: [d] is below [r] in the tree. *)
Inductive descendant (s : store) (r : ref) : ref -> Prop :=
| descendant_child d :
    In d (getchildren s r) -> descendant s r d
| descendant_step c d :
    In c (getchildren s r) -> descendant s c d -> descendant s r d.

(** [x] is [d] or below [d]. *)
Definition in_subtree (s : store) (d x : ref) : bool :=
  (Nat.eqb x d || existsb (Nat.eqb x) (iterdescendants_s s d))%bool.

(** ** The video exemption of [clean] *)

(** The test that lets an element through [clean(node, t)]. *)
Definition exempt (t : string) (s : store) (n : ref) : bool :=
  (in_tags t ["object"; "embed"] && is_video s n)%bool.


(** ** Sample documents *)

(** The value of a computation on the store. *)
Definition run {A} (m : M A) (s : store) : result A :=
  match m s with
  | Ok (a, _) => Ok a
  | Raise e => Raise e
  end.

(** A parser that knows the trees lxml builds for the sample inputs. *)
Definition parser_of (samples : list (string * node)) (data : string)
  : result node :=
  match find (fun kv => String.eqb (fst kv) data) samples with
  | Some (_, tree) => Ok tree
  | None => Raise DomError
  end.

(** A cleaner that finds nothing to remove. *)
Definition no_cleaning (n : node) : node := n.

Definition text30 : string := "AAAAAAAAAAAAAAAAAAAAAAAAAAAAAA".

Definition src_scored_root : string :=
  "<html class='article' id='content'><body><p>" ++ text30 ++
  "</p></body></html>".
Definition doc_scored_root : node :=
  Node "html" [("class", "article"); ("id", "content")] None None
    [Node "body" [] None None [Node "p" [] (Some text30) None []]].

Definition src_short : string :=
  "<html><body><p>" ++ text30 ++ "</p></body></html>".
Definition doc_short : node :=
  Node "html" [] None None
    [Node "body" [] None None [Node "p" [] (Some text30) None []]].

Definition src_revisit : string :=
  "<html><body><div>aa<img>bb<span class='comment'>c</span></div>" ++
  "</body></html>".
Definition doc_revisit : node :=
  Node "html" [] None None
    [Node "body" [] None None
       [Node "div" [] (Some "aa") None
          [Node "img" [] None (Some "bb") [];
           Node "span" [("class", "comment")] (Some "c") None []]]].

Definition samples : list (string * node) :=
  [(src_scored_root, doc_scored_root); (src_short, doc_short);
   (src_revisit, doc_revisit)].

(** The store [_grab_article] starts from: the prepared document. *)
Definition prepared (data : string) : result store :=
  let* tree := prep_document (parser_of samples) no_cleaning data in
  mret (snd (load None tree [])).

(** The store of the prepared document of [src_short]: the root, the body
    and the paragraph. *)
Definition store_short : store :=
  snd (load None
    (Node "html" [] None None
       [Node "body" [("id", "readableBody")] None None
          [Node "p" [] (Some text30) None []]]) []).

(** A content made of one paragraph of plain text. *)
Definition doc_paragraph : node :=
  Node "div" [] None None [Node "p" [] (Some "hello") None []].

(** [<div><a>x </a><a> y</a></div>] *)
Definition doc_two_links : node :=
  Node "div" [] None None
    [Node "a" [] (Some "x ") None []; Node "a" [] (Some " y") None []].


(** Scenario 4 of the specification: a video embed next to another one. *)
Definition doc_embeds : node :=
  Node "div" [] None None
    [Node "embed" [("src", "http://youtube.com/v/x")] None None [];
     Node "embed" [("src", "http://ads.example.com/x")] None None []].

(** ** Text *)

(** No two whitespace characters follow each other in [s]. *)
Fixpoint squeezed (s : string) : bool :=
  match s with
  | EmptyString => true
  | String a s' =>
      match s' with
      | EmptyString => true
      | String b _ =>
          (negb (Str.is_space a && Str.is_space b) && squeezed s')%bool
      end
  end.

(** [s] is empty or starts with a character that is not whitespace. *)
Definition starts_solid (s : string) : bool :=
  match s with
  | EmptyString => true
  | String a _ => negb (Str.is_space a)
  end.








(** ** Passes that remove elements *)

(** [x.getparent()] is an element. *)
Definition has_parent (s : store) (x : ref) : bool :=
  match getparent s x with Some _ => true | None => false end.

(** [e'] is [e] but for its place in the tree. *)
Definition same_data (e e' : elem) : Prop :=
  e_tag e' = e_tag e /\ e_attrib e' = e_attrib e /\ e_text e' = e_text e
  /\ e_tail e' = e_tail e /\ e_readable e' = e_readable e.

(** [pruned s s']: [s'] is [s] after some elements have been removed from
    their parents.  No element is new, none has another tag, other
    attributes, another text or score; an element has the parent it had,
    or none; the children of an element are the children it had, in the
    same order, less those that were removed. *)
Definition pruned (s s' : store) : Prop :=
  length s' = length s
  /\ (forall x, same_data (rd s x) (rd s' x))
  /\ (forall x, getparent s' x = getparent s x \/ getparent s' x = None)
  /\ (forall x, getchildren s' x
                = List.filter (has_parent s') (getchildren s x)).

(** The store is made of trees at and below [node]: a child records its
    parent, and no element is listed twice below [node]. *)
Definition forest_at (s : store) (node : ref) : Prop :=
  parents_agree s /\ List.NoDup (iterdescendants_s s node).

(** [<div><h1 class='comment'>a</h1><h3 class='comment'>b</h3></div>] *)
Definition doc_headers : node :=
  Node "div" [] None None
    [Node "h1" [("class", "comment")] (Some "a") None [];
     Node "h3" [("class", "comment")] (Some "b") None []].

(** [<div><form class='comment'>a</form><form>AAA...</form></div>] *)
Definition doc_forms : node :=
  Node "div" [] None None
    [Node "form" [("class", "comment")] (Some "a") None [];
     Node "form" [] (Some text30) None []].

(** [prunes tags node m]: on a store made of trees below [node], the
    computation [m] raises no exception and only removes elements from
    their parents, all of them found by [node.xpath] for one of [tags]. *)
Definition prunes (tags : list string) (node : ref) (m : M unit) : Prop :=
  forall s, forest_at s node ->
    exists s',
      m s = Ok (tt, s')
      /\ pruned s s'
      /\ forest_at s' node
      /\ (forall x, getparent s' x <> getparent s x ->
            exists t, In t tags /\ In x (xpath_s s node t)).

(** The element without its [style] attribute. *)
Definition unstyled (e : elem) : elem :=
  with_attrib (attr_del "style" (e_attrib e)) e.

(** [<div style='a'><p style='b' class='c'>x</p></div><span style='d'>]:
    a styled element below another one, and one outside. *)
Definition store_styled : store :=
  snd (load None
    (Node "div" [("style", "a")] None None
       [Node "p" [("style", "b"); ("class", "c")] (Some "x") None []])
    []) ++ [Elem "span" [("style", "d")] None None [] None None].

(** The store where the elements of [l] have lost their [style]
    attribute. *)
Definition unstyled_all (l : list ref) (s : store) : store :=
  fold_left (fun s x => upd x unstyled s) l s.

(** The tags that [prep_article] asks for when it removes elements. *)
Definition prep_article_tags : list string :=
  ["form"; "object"; "h1"; "h2"; "iframe"; "h0"; "table"; "ul"; "div"].

(** [<div><p style='x'>hello</p><h1>T</h1></div>] *)
Definition doc_article : node :=
  Node "div" [] None None
    [Node "p" [("style", "x")] (Some "hello") None [];
     Node "h1" [] (Some "T") None []].

(** ** The scoring loop *)

(** The parent of an element is an element of the store. *)
Definition parents_in_store (s : store) : bool :=
  forallb
    (fun x =>
       match getparent s x with
       | Some y => Nat.ltb y (length s)
       | None => true
       end)
    (seq 0 (length s)).

(** [s'] is [s] but for the scores. *)
Definition same_tree (s s' : store) : Prop :=
  length s' = length s
  /\ forall x,
       e_tag (rd s' x) = e_tag (rd s x)
       /\ e_attrib (rd s' x) = e_attrib (rd s x)
       /\ e_text (rd s' x) = e_text (rd s x)
       /\ e_tail (rd s' x) = e_tail (rd s x)
       /\ e_children (rd s' x) = e_children (rd s x)
       /\ e_parent (rd s' x) = e_parent (rd s x).

(** The elements that the node [n] gives a score to in [score_paras]: its
    parent and its grandparent, when its normalized text has 25
    characters or more. *)
Definition receivers (s : store) (n : ref) : list ref :=
  match getparent s n with
  | None => []
  | Some p =>
      if Str.len (s_inner_text s n true) <? 25 then []
      else p :: match getparent s p with Some g => [g] | None => [] end
  end.

Definition receives (s : store) (x n : ref) : bool :=
  existsb (Nat.eqb x) (receivers s n).

(** What [n] gives to [x]: its score to its parent, half of it to its
    grandparent. *)
Definition gift (s : store) (x n : ref) : Q :=
  match getparent s n with
  | None => 0
  | Some p =>
      let text := s_inner_text s n true in
      if Str.len text <? 25 then 0
      else
        ((if Nat.eqb x p then inject_Z (para_score text) else 0) +
         (match getparent s p with
          | Some g => if Nat.eqb x g then inject_Z (para_score text) / 2 else 0
          | None => 0
          end))%Q
  end.

(** What the nodes of a list give to [x], and whether one of them gives
    it something. *)
Definition gifts (s : store) (x : ref) (nodes : list ref) : Q :=
  fold_right (fun n acc => (acc + gift s x n)%Q) 0%Q nodes.

Definition scored_by (s : store) (x : ref) (nodes : list ref) : bool :=
  existsb (receives s x) nodes.

(** [<body><div><p>AAA...</p><p>AAA...</p></div></body>]: two paragraphs
    of thirty characters in a division. *)
Definition store_two_paras : store :=
  snd (load None
    (Node "body" [] None None
       [Node "div" [] None None
          [Node "p" [] (Some text30) None [];
           Node "p" [] (Some text30) None []]]) []).

(** The scores when the loop of [score_paras] has gone through [done],
    from the store [s0]: an element that received something is annotated
    and has the score it had, or the score of [initialize_node], plus
    what it received; another element is as it was. *)
Definition scores_after (flags : Z) (s0 : store) (done : list ref)
  (s : store) : Prop :=
  forall x,
    if scored_by s0 x done
    then is_readable s x = true
         /\ (score_of s x == base_score flags s0 x + gifts s0 x done)%Q
    else rd s x = rd s0 x.

(** The candidates at that point: the elements that had no score and
    received something, each once. *)
Definition candidates_after (s0 : store) (done cands : list ref) : Prop :=
  List.NoDup cands
  /\ forall x, In x cands <->
               is_readable s0 x = false /\ scored_by s0 x done = true.

(** ** The choice of the top candidate *)




(** [<body><div><img><span>a</span></div><p>b</p></body>] *)
Definition store_nested : store :=
  snd (load None
    (Node "body" [] None None
       [Node "div" [] None None
          [Node "img" [] None None []; Node "span" [] (Some "a") None []];
        Node "p" [] (Some "b") None []]) []).

(** ** The traversal of [select_scorable] *)

(** The test of [is_unlikely] on an element of the store. *)
Definition unlikely (flags : Z) (s : store) (x : ref) : bool :=
  is_unlikely flags (shallow s x).




(** ** The siblings of the top candidate *)

(** [if n.tag not in ('div', 'p'): n.tag = 'div'] *)
Definition as_block (n : ref) (s : store) : store :=
  if in_tags (e_tag (rd s n)) ["div"; "p"] then s
  else upd n (with_tag "div") s.

(** [<body><div class='a'>AAA...</div><span class='a'>x</span><p>y</p>
    </body>] with the scores 30 for the division and 8 for the span. *)
Definition store_siblings : store :=
  map (fun e => with_readable
                  (if String.eqb (e_tag e) "div" then Some 30%Q
                   else if String.eqb (e_tag e) "span" then Some 8%Q
                   else None) e)
    (snd (load None
      (Node "body" [] None None
         [Node "div" [("class", "a")] (Some text30) None [];
          Node "span" [("class", "a")] (Some "x") None [];
          Node "p" [] (Some "y") None []]) []))
  ++ [Elem "div" [] None None [] None None].

(** ** Copies *)

(** [t] is [s] with more elements after it. *)
Definition extends (s t : store) : Prop :=
  (length s <= length t)%nat
  /\ forall x, (x < length s)%nat -> rd t x = rd s x.

(** [s'] is [s] followed by a copy of the subtree of [n] in [s0], the
    element [length s] being the copy of [n]: the elements of [s] are as
    they were, the children of the new elements are new elements, the
    copy has no parent and no new element has a score, and the copy and
    [n] are the same document. *)
Definition copy_of (s0 : store) (n : ref) (s s' : store) : Prop :=
  (length s < length s')%nat
  /\ (forall x, (x < length s)%nat -> rd s' x = rd s x)
  /\ (forall x c, (length s <= x < length s')%nat ->
                  In c (getchildren s' x) ->
                  (length s <= c < length s')%nat)
  /\ getparent s' (length s) = None
  /\ (forall x, (length s <= x)%nat -> e_readable (rd s' x) = None)
  /\ (forall g, extract_fuel g s' (length s) = extract_fuel g s0 n).

(** [<div id='d' style='s'>a<b>c</b>e</div>f] under a body, with a score
    on the division. *)
Definition store_copy : store :=
  map (fun e => with_readable
                  (if String.eqb (e_tag e) "div" then Some 7%Q else None) e)
    (snd (load None
      (Node "body" [] None None
         [Node "div" [("id", "d"); ("style", "s")] (Some "a") (Some "f")
            [Node "b" [] (Some "c") (Some "e") []]]) [])).

(** The fuel [f] is enough for the subtree of [c]: [c] lies at a depth
    [k] or more, and the store has no more than [k + f + 1] elements. *)
Definition deep_enough (s0 : store) (f : nat) (c : ref) : Prop :=
  exists k, rises k s0 c = false /\ (length s0 <= S (k + f))%nat.

(** * Part III: properties *)

(** ** Strings and patterns *)

Lemma split_aux_length (c : ascii) (s cur : string) :
  length (Str.split_aux c cur s) = S (Str.count c s).
Proof.
  revert cur. induction s as [|a s IH]; intros cur; [reflexivity|].
  cbn [Str.split_aux Str.count]. destruct (Ascii.eqb a c).
  - cbn [length]. rewrite IH. reflexivity.
  - rewrite IH. reflexivity.
Qed.

(** [len(text.split(c))] is the number of occurrences of [c] plus one. *)
Lemma split_length (c : ascii) (s : string) :
  length (Str.split c s) = S (Str.count c s).
Proof. apply split_aux_length. Qed.






(** ** [get_class_weight] *)

Lemma attr_contribution_empty : attr_contribution "" = 0.
Proof. reflexivity. Qed.

Lemma attr_contribution_range s : -25 <= attr_contribution s <= 25.
Proof.
  unfold attr_contribution.
  destruct (Re.search_i RE_NEGATIVE s), (Re.search_i RE_POSITIVE s); lia.
Qed.

(** C6: [get_class_weight] is 0 when the CLASS_WEIGHT flag is off;
    otherwise it is the sum of the contributions of the [class] and of the
    [id] attribute, each being -25 if NEGATIVE matches plus +25 if POSITIVE
    matches (one value can get both, as ["comment-body"] does), so the
    result lies in [-50, 50]. *)
Theorem get_class_weight_spec (flags : Z) (n : node) :
  get_class_weight flags n =
    (if flag_on flags FLAG_CLASS_WEIGHT
     then attr_contribution (attr_get "class" (attrib n) "") +
          attr_contribution (attr_get "id" (attrib n) "")
     else 0)
  /\ -50 <= get_class_weight flags n <= 50
  /\ (Re.search_i RE_NEGATIVE "comment-body" = true
      /\ Re.search_i RE_POSITIVE "comment-body" = true
      /\ attr_contribution "comment-body" = 0).
Proof.
  assert (E : get_class_weight flags n =
    if flag_on flags FLAG_CLASS_WEIGHT
    then attr_contribution (attr_get "class" (attrib n) "") +
         attr_contribution (attr_get "id" (attrib n) "")
    else 0).
  { unfold get_class_weight, get_clsid.
    destruct (flag_on flags FLAG_CLASS_WEIGHT); simpl; [|reflexivity].
    set (c := attr_get "class" (attrib n) "").
    set (i := attr_get "id" (attrib n) "").
    assert (H : forall s w,
      (if Str.truthy s
       then if Re.search_i RE_POSITIVE s
            then (if Re.search_i RE_NEGATIVE s then w - 25 else w) + 25
            else (if Re.search_i RE_NEGATIVE s then w - 25 else w)
       else w) = w + attr_contribution s).
    { intros s w. destruct s as [|a s].
      - simpl. rewrite attr_contribution_empty. lia.
      - unfold attr_contribution. cbn [Str.truthy].
        destruct (Re.search_i RE_NEGATIVE _), (Re.search_i RE_POSITIVE _);
          lia. }
    rewrite !H. lia. }
  split; [exact E|]. split.
  - rewrite E. destruct (flag_on flags FLAG_CLASS_WEIGHT); [|lia].
    pose proof (attr_contribution_range (attr_get "class" (attrib n) "")).
    pose proof (attr_contribution_range (attr_get "id" (attrib n) "")). lia.
  - repeat split; vm_compute; reflexivity.
Qed.

(** ** [get_link_density] *)

Lemma fold_left_add_len (f : node -> Z) (l : list node) (acc : Z) :
  fold_left (fun acc x => acc + f x) l acc = acc + fold_right Z.add 0 (map f l).
Proof.
  revert acc. induction l as [|x l IH]; intros acc; simpl; [lia|].
  rewrite IH. lia.
Qed.

Lemma links_length_nonneg (n : node) : 0 <= links_length n.
Proof.
  unfold links_length. induction (xpath n "a") as [|a l IH]; simpl; [lia|].
  unfold Str.len at 1. lia.
Qed.

Lemma Qdiv_nonneg (a b : Z) :
  0 <= a -> 0 <= b -> (0 <= inject_Z a / inject_Z b)%Q.
Proof.
  intros Ha Hb. destruct b as [|p|p]; [| |lia].
  - unfold Qdiv, Qinv, Qmult, Qle. simpl. lia.
  - unfold Qdiv, Qinv, Qmult, Qle. simpl. lia.
Qed.

(** Counterexample of C4: the text of the div normalizes to [" x y"], four
    characters, while its two links have three and two; the density is
    5/4. *)
Lemma link_density_above_one :
  get_inner_text doc_two_links true = " x y"
  /\ map (fun a => get_inner_text a true) (xpath doc_two_links "a")
     = [" x "; " y"]
  /\ (get_link_density doc_two_links == 5 # 4)%Q
  /\ ~ (0 <= get_link_density doc_two_links <= 1)%Q.
Proof.
  split; [reflexivity|]. split; [reflexivity|]. split; [reflexivity|].
  intros [_ H]. vm_compute in H. apply H. reflexivity.
Qed.

(** C4, amended: [get_link_density] is 0 when the normalized inner text of
    the node is empty; otherwise it is the sum of the lengths of the
    normalized inner texts of the [<a>] descendants divided by the length
    of the normalized inner text of the node.  The value is never
    negative; it is not bounded by 1. *)
Theorem get_link_density_spec (n : node) :
  let textlen := Str.len (get_inner_text n true) in
  get_link_density n =
    (if textlen =? 0 then 0 else inject_Z (links_length n) / inject_Z textlen)%Q
  /\ (0 <= get_link_density n)%Q
  /\ 0 <= links_length n
  /\ 0 <= textlen.
Proof.
  intros textlen.
  assert (E : get_link_density n =
    (if textlen =? 0 then 0
     else inject_Z (links_length n) / inject_Z textlen)%Q).
  { unfold get_link_density. fold textlen.
    destruct (textlen =? 0); [reflexivity|].
    rewrite fold_left_add_len. reflexivity. }
  assert (Ht : 0 <= textlen) by (unfold textlen, Str.len; lia).
  split; [exact E|]. split; [|split; [apply links_length_nonneg | exact Ht]].
  rewrite E. destruct (textlen =? 0); [apply Qle_refl|].
  apply Qdiv_nonneg; [apply links_length_nonneg | exact Ht].
Qed.

(** ** [convert_brs] *)

(** Induction on documents, with the hypothesis on every child. *)
Lemma node_induction (P : node -> Prop)
  (step : forall t a tx tl cs,
            (forall c, In c cs -> P c) -> P (Node t a tx tl cs)) :
  forall n, P n.
Proof.
  fix IH 1. intros [t a tx tl cs]. apply step.
  induction cs as [|c cs IHcs]; intros c' Hin.
  - destruct Hin.
  - destruct Hin as [<-|Hin]; [apply IH | apply IHcs, Hin].
Qed.

Lemma br_free_children (n : node) :
  br_free n =
  forallb (fun c => (negb (is_br c) && br_free c)%bool) (children n).
Proof.
  unfold br_free. destruct n as [t a tx tl cs]. cbn [iterdescendants children].
  induction cs as [|c cs IH]; [reflexivity|].
  cbn [flat_map forallb]. rewrite forallb_app. cbn [forallb].
  rewrite IH. reflexivity.
Qed.

Lemma convert_brs_at_tag (n : node) (tl : option string) :
  tag (convert_brs_at n tl) = tag n.
Proof.
  destruct n as [t a tx tl0 cs]. cbn [convert_brs_at].
  destruct (existsb _ cs); reflexivity.
Qed.

Lemma convert_brs_at_set_tail (n : node) (t tl : option string) :
  convert_brs_at (set_tail n t) tl = convert_brs_at n tl.
Proof. destruct n. reflexivity. Qed.

(** The two phases of the source: rebuild the node if it has a [<br>]
    child, then convert the children of the node that results. *)
Lemma convert_brs_unfold (n : node) :
  convert_brs n =
  set_children (convert_brs_step n)
    (map convert_brs (children (convert_brs_step n))).
Proof.
  unfold convert_brs, convert_brs_step, has_br.
  destruct n as [t a tx tl cs]. cbn [convert_brs_at tail children].
  destruct (existsb _ cs) eqn:E.
  - unfold rebuild, set_children. cbn [tag attrib text tail children].
    f_equal. rewrite !map_app. f_equal; [|f_equal].
    + destruct (Str.nonblank tx); reflexivity.
    + clear E. induction cs as [|c cs IH]; [reflexivity|].
      cbn [flat_map]. rewrite map_app, <- IH. f_equal.
      unfold rebuild_child.
      destruct (String.eqb (tag c) "br"), (Str.nonblank (tail c));
        cbn [map]; try reflexivity.
      rewrite convert_brs_at_set_tail. reflexivity.
    + destruct (Str.nonblank tl); reflexivity.
  - reflexivity.
Qed.

Lemma convert_brs_at_br_free (n : node) :
  forall tl, br_free n = true -> convert_brs_at n tl = set_tail n tl.
Proof.
  induction n as [t a tx tl0 cs IH] using node_induction. intros tl Hfree.
  rewrite br_free_children in Hfree. cbn [children] in Hfree.
  rewrite forallb_forall in Hfree.
  cbn [convert_brs_at].
  assert (E : existsb (fun c => String.eqb (tag c) "br") cs = false).
  { apply not_true_is_false. intros Hex.
    apply existsb_exists in Hex as (c & Hin & Hc).
    specialize (Hfree c Hin). apply andb_prop in Hfree as [Hnb _].
    unfold is_br in Hnb. rewrite Hc in Hnb. discriminate. }
  rewrite E. unfold set_tail. cbn [tag attrib text children]. f_equal.
  rewrite <- (map_id cs) at 2. apply map_ext_in. intros c Hin.
  rewrite IH; [destruct c; reflexivity | exact Hin |].
  specialize (Hfree c Hin). apply andb_prop in Hfree as [_ H]. exact H.
Qed.

Lemma convert_brs_at_no_br (n : node) :
  forall tl, br_free (convert_brs_at n tl) = true.
Proof.
  induction n as [t a tx tl0 cs IH] using node_induction. intros tl.
  rewrite br_free_children. cbn [convert_brs_at].
  assert (Hp : forall o, (negb (is_br (wrap_p o)) && br_free (wrap_p o))%bool
                         = true) by reflexivity.
  destruct (existsb (fun c => String.eqb (tag c) "br") cs) eqn:E;
    cbn [children]; apply forallb_forall; intros d Hd.
  - apply in_app_iff in Hd as [Hd|Hd];
      [destruct (Str.nonblank tx); [destruct Hd as [<-|[]]; apply Hp
                                   | destruct Hd]|].
    apply in_app_iff in Hd as [Hd|Hd];
      [|destruct (Str.nonblank tl); [destruct Hd as [<-|[]]; apply Hp
                                    | destruct Hd]].
    apply in_flat_map in Hd as (c & Hin & Hd).
    destruct (String.eqb (tag c) "br") eqn:Hbr.
    + destruct (Str.nonblank (tail c)); [|destruct Hd].
      destruct Hd as [<-|[]]. apply Hp.
    + assert (Hc : forall o,
        (negb (is_br (convert_brs_at c o)) && br_free (convert_brs_at c o))%bool
        = true).
      { intros o. unfold is_br.
        rewrite convert_brs_at_tag, Hbr, IH by exact Hin.
        reflexivity. }
      destruct (Str.nonblank (tail c)).
      * destruct Hd as [<-|[<-|[]]]; [apply Hc | apply Hp].
      * destruct Hd as [<-|[]]. apply Hc.
  - apply in_map_iff in Hd as (c & <- & Hin).
    unfold is_br. rewrite convert_brs_at_tag, IH by exact Hin.
    rewrite andb_true_r. apply negb_true_iff, not_true_is_false. intros Hbr.
    assert (Hex : existsb (fun c => String.eqb (tag c) "br") cs = true)
      by (apply existsb_exists; eauto).
    congruence.
Qed.

(** C8: [convert_brs] leaves a tree without [<br>] descendant as it is;
    its result has no [<br>] descendant, so a second application changes
    nothing. *)
Theorem convert_brs_idempotent (n : node) :
  (br_free n = true -> convert_brs n = n)
  /\ br_free (convert_brs n) = true
  /\ convert_brs (convert_brs n) = convert_brs n.
Proof.
  assert (H1 : forall m, br_free m = true -> convert_brs m = m).
  { intros m Hm. unfold convert_brs. rewrite convert_brs_at_br_free by exact Hm.
    destruct m; reflexivity. }
  assert (H2 : br_free (convert_brs n) = true)
    by apply convert_brs_at_no_br.
  split; [apply H1|]. split; [exact H2|]. apply H1, H2.
Qed.

(** Witness of C8, on scenario 1 of the specification:
    [<div>one<br>two<br><br>three</div>]. *)
Lemma convert_brs_idempotent_witness :
  let input :=
    Node "div" [] (Some "one") None
      [Node "br" [] None (Some "two") []; Node "br" [] None None [];
       Node "br" [] None (Some "three") []] in
  let output :=
    Node "div" [] None None
      [wrap_p (Some "one"); wrap_p (Some "two"); wrap_p (Some "three")] in
  convert_brs input = output
  /\ br_free output = true
  /\ convert_brs output = output.
Proof.
  cbv zeta. split; [reflexivity|]. split; [reflexivity|].
  refine (proj1 (convert_brs_idempotent
    (Node "div" [] None None
       [wrap_p (Some "one"); wrap_p (Some "two"); wrap_p (Some "three")])) _).
  reflexivity.
Defined.

(** ** The store *)

Lemma length_upd (r : ref) (f : elem -> elem) (s : store) :
  length (upd r f s) = length s.
Proof. unfold upd. apply length_alter. Qed.

Lemma rd_upd_eq (r : ref) (f : elem -> elem) (s : store) :
  (r < length s)%nat -> rd (upd r f s) r = f (rd s r).
Proof.
  intros H. unfold rd, upd. rewrite list_lookup_alter_eq.
  destruct (s !! r) eqn:E; [reflexivity|].
  apply lookup_ge_None in E. lia.
Qed.

Lemma rd_upd_ne (r x : ref) (f : elem -> elem) (s : store) :
  x <> r -> rd (upd r f s) x = rd s x.
Proof.
  intros H. unfold rd, upd. rewrite list_lookup_alter_ne by congruence.
  reflexivity.
Qed.

Lemma rd_upd_proj {B} (proj : elem -> B) (r x : ref) (f : elem -> elem)
  (s : store) :
  (forall e, proj (f e) = proj e) ->
  proj (rd (upd r f s) x) = proj (rd s x).
Proof.
  intros H. unfold rd, upd. rewrite list_lookup_alter.
  destruct (decide (r = x)) as [->|]; [|reflexivity].
  destruct (s !! x); [apply H | reflexivity].
Qed.

Lemma rd_out_of_range (s : store) (r : ref) :
  (length s <= r)%nat -> rd s r = void.
Proof.
  intros H. unfold rd. rewrite (proj2 (lookup_ge_None s r)) by exact H.
  reflexivity.
Qed.

Lemma getparent_in_range (s : store) (d p : ref) :
  getparent s d = Some p -> (d < length s)%nat.
Proof.
  intros H. destruct (le_lt_dec (length s) d) as [Hge|Hlt]; [|exact Hlt].
  unfold getparent in H. rewrite rd_out_of_range in H by exact Hge.
  discriminate.
Qed.

Lemma parents_ok_agree (s : store) : parents_ok s = true -> parents_agree s.
Proof.
  intros H p c Hc. unfold parents_ok in H. rewrite forallb_forall in H.
  destruct (le_lt_dec (length s) p) as [Hge|Hlt].
  - unfold getchildren in Hc. rewrite rd_out_of_range in Hc by exact Hge.
    destruct Hc.
  - assert (Hin : In p (seq 0 (length s))) by (apply in_seq; lia).
    specialize (H p Hin). rewrite forallb_forall in H. specialize (H c Hc).
    destruct (getparent s c) as [q|]; [|discriminate].
    apply Nat.eqb_eq in H. congruence.
Qed.

Lemma rises_mono (s : store) (n : nat) :
  forall r, rises n s r = true -> rises (S n) s r = true.
Proof.
  induction n as [|n IH]; intros r H; [discriminate|].
  cbn [rises] in *. destruct (getparent s r) as [p|]; [apply IH, H|reflexivity].
Qed.

Lemma rises_le (s : store) (n m : nat) (r : ref) :
  (n <= m)%nat -> rises n s r = true -> rises m s r = true.
Proof.
  induction 1 as [|m Hle IH]; intros H; [exact H|]. apply rises_mono, IH, H.
Qed.

Lemma flat_map_ext_on {A B} (f g : A -> list B) (l : list A) :
  (forall x, In x l -> f x = g x) -> flat_map f l = flat_map g l.
Proof.
  intros H. rewrite !flat_map_concat_map. f_equal. apply map_ext_in, H.
Qed.

(** More fuel than the size of the store finds no more descendants. *)
Lemma desc_fuel_stable (s : store) :
  parents_agree s -> acyclic s = true ->
  forall (f k : nat) (r : ref),
    rises k s r = false -> (length s <= S (k + f))%nat ->
    desc_fuel (S f) s r = desc_fuel f s r.
Proof.
  intros Hpa Hac. induction f as [|f IH]; intros k r Hk Hlen.
  - cbn [desc_fuel]. destruct (getchildren s r) as [|c cs] eqn:Hcs;
      [reflexivity|]. exfalso.
    assert (Hc : In c (getchildren s r)) by (rewrite Hcs; left; reflexivity).
    pose proof (Hpa r c Hc) as Hp.
    assert (Hr : rises (length s) s c = true).
    { unfold acyclic in Hac. rewrite forallb_forall in Hac. apply Hac, in_seq.
      pose proof (getparent_in_range s c r Hp). lia. }
    apply (rises_le s _ (S k)) in Hr; [|lia].
    cbn [rises] in Hr. rewrite Hp in Hr. congruence.
  - change (desc_fuel (S (S f)) s r)
      with (flat_map (fun c => c :: desc_fuel (S f) s c) (getchildren s r)).
    change (desc_fuel (S f) s r)
      with (flat_map (fun c => c :: desc_fuel f s c) (getchildren s r)).
    apply flat_map_ext_on. intros c Hc. f_equal.
    apply (IH (S k)); [|lia].
    cbn [rises]. rewrite (Hpa r c Hc). exact Hk.
Qed.

(** The fuel of [iterdescendants_s] is enough. *)
Lemma desc_fuel_adequate (s : store) :
  parents_agree s -> acyclic s = true ->
  forall (f : nat) (r : ref),
    desc_fuel (length s + f) s r = iterdescendants_s s r.
Proof.
  intros Hpa Hac f r. unfold iterdescendants_s.
  induction f as [|f IH]; [rewrite Nat.add_0_r; reflexivity|].
  rewrite Nat.add_succ_r, <- IH.
  apply (desc_fuel_stable s Hpa Hac _ 0%nat); [reflexivity | lia].
Qed.

Lemma desc_fuel_more (s : store) (f : nat) :
  forall (g : nat) (r d : ref),
    In d (desc_fuel f s r) -> In d (desc_fuel (f + g) s r).
Proof.
  induction f as [|f IH]; intros g r d Hd; [destruct Hd|].
  cbn [desc_fuel Nat.add] in *. apply in_flat_map in Hd as (c & Hc & Hd).
  apply in_flat_map. exists c. split; [exact Hc|].
  destruct Hd as [<-|Hd]; [left; reflexivity | right; apply IH, Hd].
Qed.

Lemma desc_fuel_descendant (s : store) (f : nat) :
  forall r d, In d (desc_fuel f s r) -> descendant s r d.
Proof.
  induction f as [|f IH]; intros r d Hd; [destruct Hd|].
  cbn [desc_fuel] in Hd. apply in_flat_map in Hd as (c & Hc & Hd).
  destruct Hd as [<-|Hd].
  - apply descendant_child, Hc.
  - eapply descendant_step; [exact Hc | apply IH, Hd].
Qed.

Lemma descendant_desc_fuel (s : store) (r d : ref) :
  descendant s r d -> exists f, In d (desc_fuel f s r).
Proof.
  induction 1 as [r d Hd | r c d Hc _ [f IH]].
  - exists 1%nat. cbn [desc_fuel]. apply in_flat_map. exists d.
    split; [exact Hd | left; reflexivity].
  - exists (S f). cbn [desc_fuel]. apply in_flat_map. exists c.
    split; [exact Hc | right; exact IH].
Qed.

(** On a store that is a forest, [iterdescendants_s] lists exactly the
    descendants. *)
Lemma iterdescendants_descendant (s : store) (r d : ref) :
  parents_agree s -> acyclic s = true ->
  In d (iterdescendants_s s r) <-> descendant s r d.
Proof.
  intros Hpa Hac. split; [apply desc_fuel_descendant|].
  intros H. apply descendant_desc_fuel in H as [f Hf].
  apply (desc_fuel_more s f (length s)) in Hf.
  rewrite Nat.add_comm, desc_fuel_adequate in Hf by assumption. exact Hf.
Qed.

(** ** [score_paras] *)

Lemma Qfloor_div_100 (a : Z) : Qfloor (inject_Z a / 100) = a / 100.
Proof.
  unfold Qdiv, Qinv, Qmult, inject_Z, Qfloor. cbn [Qnum Qden].
  rewrite Z.mul_1_r. reflexivity.
Qed.

Lemma para_score_eq (text : string) :
  para_score text =
  1 + (Z.of_nat (Str.count ","%char text) + 1) + Z.min (Str.len text / 100) 3.
Proof.
  unfold para_score. rewrite split_length, Qfloor_div_100. lia.
Qed.

Lemma score_of_upd_eq (r : ref) (q : option Q) (s : store) :
  (r < length s)%nat ->
  e_readable (rd (upd r (with_readable q) s) r) = q.
Proof. intros H. rewrite rd_upd_eq by exact H. reflexivity. Qed.

Lemma initial_score_upd (flags : Z) (r x : ref) (q : option Q) (s : store) :
  initial_score flags (upd r (with_readable q) s) x = initial_score flags s x.
Proof.
  unfold initial_score, shallow.
  rewrite (rd_upd_proj e_tag), (rd_upd_proj e_attrib), (rd_upd_proj e_text),
    (rd_upd_proj e_tail) by reflexivity.
  reflexivity.
Qed.

Lemma ensure_initialized_length flags x s :
  length (ensure_initialized flags x s) = length s.
Proof.
  unfold ensure_initialized. destruct (is_readable s x);
    [reflexivity | apply length_upd].
Qed.

Lemma ensure_initialized_score flags x s :
  (x < length s)%nat ->
  score_of (ensure_initialized flags x s) x = base_score flags s x.
Proof.
  intros H. unfold ensure_initialized, base_score.
  destruct (is_readable s x); [reflexivity|].
  unfold score_of. rewrite score_of_upd_eq by exact H. reflexivity.
Qed.

Lemma ensure_initialized_other flags x y s :
  y <> x -> rd (ensure_initialized flags x s) y = rd s y.
Proof.
  intros H. unfold ensure_initialized. destruct (is_readable s x);
    [reflexivity | apply rd_upd_ne, H].
Qed.

Lemma base_score_other flags x y s :
  y <> x ->
  base_score flags (ensure_initialized flags x s) y = base_score flags s y.
Proof.
  intros H. unfold base_score, is_readable, score_of.
  rewrite ensure_initialized_other by exact H.
  assert (E : initial_score flags (ensure_initialized flags x s) y
              = initial_score flags s y).
  { unfold ensure_initialized. destruct (is_readable s x); [reflexivity|].
    apply initial_score_upd. }
  rewrite E. reflexivity.
Qed.

Lemma score_para_scored (flags : Z) (s : store) (candidates : list ref)
  (n p : ref) :
  getparent s n = Some p ->
  (Str.len (s_inner_text s n true) <? 25) = false ->
  exists candidates',
    score_para flags candidates n s =
    Ok (candidates',
        scored flags p (getparent s p) (para_score (s_inner_text s n true)) s).
Proof.
  intros Hp Hlen.
  unfold score_para, bind_of, mbind, M_bind, gets, modify, mret, M_ret.
  rewrite Hp, Hlen.
  unfold scored, ensure_initialized, initialize_node, add_score, modify.
  destruct (is_readable s p); cbn [negb];
    destruct (getparent s p) as [x|];
    try (match goal with |- context [is_readable ?s' x] =>
           destruct (is_readable s' x) end);
    cbn [negb]; eexists; reflexivity.
Qed.

(** C3: a listed node whose normalized inner text has fewer than 25
    characters (or that has no parent) changes nothing in the store.  For
    any other listed node the score of the parent grows by
    [1 + (number of commas + 1) + min(len(text) div 100, 3)], the score of
    the grandparent, when there is one, by half of it, and no other
    element changes.  The store is one where a parent is an element of
    the store and no element is its own parent. *)
Theorem score_para_amount (flags : Z) (s : store) (candidates : list ref)
  (n : ref) :
  (forall x y, getparent s x = Some y -> (y < length s)%nat) ->
  (forall x, getparent s x <> Some x) ->
  let text := s_inner_text s n true in
  let amount :=
    1 + (Z.of_nat (Str.count ","%char text) + 1) +
    Z.min (Str.len text / 100) 3 in
  match getparent s n with
  | None => score_para flags candidates n s = Ok (candidates, s)
  | Some p =>
      if Str.len text <? 25
      then score_para flags candidates n s = Ok (candidates, s)
      else
        exists candidates' s',
          score_para flags candidates n s = Ok (candidates', s')
          /\ score_of s' p = (base_score flags s p + inject_Z amount)%Q
          /\ match getparent s p with
             | Some g =>
                 score_of s' g
                 = (base_score flags s g + inject_Z amount / 2)%Q
             | None => True
             end
          /\ (forall x, x <> p -> getparent s p <> Some x ->
                        rd s' x = rd s x)
  end.
Proof.
  intros Hrange Hself text amount.
  destruct (getparent s n) as [p|] eqn:Hp.
  2:{ unfold score_para, bind_of, mbind, M_bind, gets, mret, M_ret.
      rewrite Hp. reflexivity. }
  pose proof (Hrange n p Hp) as Hlt.
  destruct (Str.len text <? 25) eqn:Hlen.
  { unfold score_para, bind_of, mbind, M_bind, gets, mret, M_ret.
    rewrite Hp. fold text. rewrite Hlen. reflexivity. }
  destruct (score_para_scored flags s candidates n p Hp Hlen) as [c' Hrun].
  fold text in Hrun.
  exists c'. eexists. split; [exact Hrun|].
  unfold amount. rewrite <- para_score_eq. clear Hrun amount.
  set (a := para_score text). unfold scored.
  set (s1 := ensure_initialized flags p s).
  assert (L1 : length s1 = length s) by apply ensure_initialized_length.
  destruct (getparent s p) as [x|] eqn:Hg.
  - pose proof (Hrange p x Hg) as Hx.
    assert (Hne : x <> p) by (intros ->; exact (Hself p Hg)).
    set (s2 := ensure_initialized flags x s1).
    assert (L2 : length s2 = length s)
      by (unfold s2; rewrite ensure_initialized_length; exact L1).
    assert (P2 : score_of s2 p = base_score flags s p).
    { unfold s2, score_of. rewrite ensure_initialized_other by congruence.
      apply ensure_initialized_score, Hlt. }
    assert (X2 : score_of s2 x = base_score flags s x).
    { unfold s2. rewrite ensure_initialized_score by lia.
      apply base_score_other, Hne. }
    split; [|split].
    + unfold score_of at 1. rewrite rd_upd_ne by congruence.
      rewrite score_of_upd_eq by lia. rewrite P2. reflexivity.
    + unfold score_of at 1.
      rewrite score_of_upd_eq by (rewrite length_upd; lia).
      unfold score_of at 1. rewrite rd_upd_ne by exact Hne.
      fold (score_of s2 x). rewrite X2. reflexivity.
    + intros y Hy1 Hy2. rewrite !rd_upd_ne by congruence.
      unfold s2. rewrite ensure_initialized_other by congruence.
      apply ensure_initialized_other, Hy1.
  - split; [|split; [exact I|]].
    + unfold score_of at 1. rewrite score_of_upd_eq by lia.
      unfold s1. rewrite ensure_initialized_score by exact Hlt. reflexivity.
    + intros y Hy1 _. rewrite rd_upd_ne by exact Hy1.
      apply ensure_initialized_other, Hy1.
Qed.

(** Witness of C3: the paragraph of [src_short] scores 2; the body, which
    [initialize_node] starts at 25 for its id [readableBody], gets 27 and
    the root gets 1. *)
Lemma score_para_amount_witness :
  prepared src_short = Ok store_short
  /\ exists candidates' s',
       score_para init_flags [] 2%nat store_short = Ok (candidates', s')
       /\ (score_of s' 1%nat == 27)%Q
       /\ (score_of s' 0%nat == 1)%Q.
Proof.
  split; [reflexivity|].
  assert (Hcases : forall x : ref,
    x = 0%nat \/ x = 1%nat \/ x = 2%nat \/ (3 <= x)%nat) by (intros x; lia).
  assert (Hout : forall x, (3 <= x)%nat -> getparent store_short x = None).
  { intros x Hx. unfold getparent. rewrite rd_out_of_range; [reflexivity|].
    exact Hx. }
  pose proof (score_para_amount init_flags store_short [] 2%nat) as H.
  assert (H1 : forall x y, getparent store_short x = Some y ->
                           (y < length store_short)%nat).
  { intros x y. destruct (Hcases x) as [->|[->|[->|Hx]]];
      [| | |rewrite (Hout x Hx)]; vm_compute; intros [= <-] || discriminate;
      lia. }
  assert (H2 : forall x, getparent store_short x <> Some x).
  { intros x. destruct (Hcases x) as [->|[->|[->|Hx]]];
      [| | |rewrite (Hout x Hx)]; vm_compute; discriminate. }
  specialize (H H1 H2). cbv zeta in H.
  change (getparent store_short 2%nat) with (Some 1%nat) in H.
  cbv iota beta in H.
  change (Str.len (s_inner_text store_short 2%nat true) <? 25) with false in H.
  cbv iota in H.
  change (getparent store_short 1%nat) with (Some 0%nat) in H.
  destruct H as (c' & s' & Hrun & Hp & Hg & _).
  exists c', s'. split; [exact Hrun|].
  rewrite Hp, Hg. split; vm_compute; reflexivity.
Defined.

(** ** Removal from the tree *)

Section Detach.

Variables (s : store) (d p : ref).
Hypothesis Hparent : getparent s d = Some p.

Lemma detach_unfold :
  detach d s =
  upd d (with_parent None)
    (upd p
       (fun e =>
          with_children
            (List.filter (fun x => negb (Nat.eqb x d)) (e_children e)) e)
       s).
Proof. unfold detach. rewrite Hparent. reflexivity. Qed.

Lemma detach_length : length (detach d s) = length s.
Proof. rewrite detach_unfold, !length_upd. reflexivity. Qed.

Lemma detach_tag (x : ref) : e_tag (rd (detach d s) x) = e_tag (rd s x).
Proof.
  rewrite detach_unfold, !(rd_upd_proj e_tag) by reflexivity. reflexivity.
Qed.

Lemma detach_attrib (x : ref) :
  e_attrib (rd (detach d s) x) = e_attrib (rd s x).
Proof.
  rewrite detach_unfold, !(rd_upd_proj e_attrib) by reflexivity. reflexivity.
Qed.

Lemma detach_parent_self : getparent (detach d s) d = None.
Proof.
  unfold getparent. rewrite detach_unfold, rd_upd_eq; [reflexivity|].
  rewrite length_upd. eapply getparent_in_range, Hparent.
Qed.

Lemma detach_parent_other (x : ref) :
  x <> d -> getparent (detach d s) x = getparent s x.
Proof.
  intros H. unfold getparent.
  rewrite detach_unfold, rd_upd_ne by exact H.
  rewrite (rd_upd_proj e_parent) by reflexivity. reflexivity.
Qed.

Lemma detach_children (x c : ref) :
  parents_agree s ->
  In c (getchildren (detach d s) x) -> In c (getchildren s x) /\ c <> d.
Proof.
  intros Hpa Hc. unfold getchildren in Hc.
  rewrite detach_unfold, (rd_upd_proj e_children) in Hc by reflexivity.
  destruct (Nat.eq_dec x p) as [->|Hx].
  - destruct (le_lt_dec (length s) p) as [Hge|Hlt].
    + rewrite rd_out_of_range in Hc by (rewrite length_upd; exact Hge).
      destruct Hc.
    + rewrite rd_upd_eq in Hc by exact Hlt.
      cbn [with_children e_children] in Hc.
      apply filter_In in Hc as [Hc Hne]. split; [exact Hc|].
      apply negb_true_iff, Nat.eqb_neq in Hne. exact Hne.
  - rewrite rd_upd_ne in Hc by exact Hx. split; [exact Hc|].
    intros ->. apply Hpa in Hc. unfold getchildren in Hc. congruence.
Qed.

Lemma detach_parents_agree :
  parents_agree s -> parents_agree (detach d s).
Proof.
  intros Hpa x c Hc. apply detach_children in Hc as [Hc Hne]; [|exact Hpa].
  rewrite detach_parent_other by exact Hne. apply Hpa, Hc.
Qed.

End Detach.

(** ** [clean] *)

Lemma desc_fuel_child (fuel : nat) (s : store) (r d : ref) :
  In d (desc_fuel fuel s r) -> exists x, In d (getchildren s x).
Proof.
  revert r. induction fuel as [|fuel IH]; intros r Hd; [destruct Hd|].
  cbn [desc_fuel] in Hd. apply in_flat_map in Hd as (c & Hc & Hd).
  destruct Hd as [<-|Hd]; [eauto | eapply IH, Hd].
Qed.

Lemma desc_fuel_incl (fuel : nat) (s s' : store) (r d : ref) :
  (forall x c, In c (getchildren s' x) -> In c (getchildren s x)) ->
  In d (desc_fuel fuel s' r) -> In d (desc_fuel fuel s r).
Proof.
  intros Hsub. revert r. induction fuel as [|fuel IH]; intros r Hd;
    [destruct Hd|].
  cbn [desc_fuel] in *. apply in_flat_map in Hd as (c & Hc & Hd).
  apply in_flat_map. exists c. split; [apply Hsub, Hc|].
  destruct Hd as [<-|Hd]; [left; reflexivity | right; apply IH, Hd].
Qed.

(** The loop of [clean]: what it leaves of a store where every element of
    the list still has its parent. *)
Lemma clean_loop (t : string) (l : list ref) :
  forall s : store,
    List.NoDup l ->
    parents_agree s ->
    (forall d, In d l -> exists p, getparent s d = Some p) ->
    exists s' : store,
      for_each l (fun n =>
        let* video := gets (fun s => is_video s n) in
        if (in_tags t ["object"; "embed"] && video)%bool then mret tt
        else remove_from_parent n) s = Ok (tt, s')
      /\ parents_agree s'
      /\ length s' = length s
      /\ (forall x, e_tag (rd s' x) = e_tag (rd s x)
                    /\ e_attrib (rd s' x) = e_attrib (rd s x))
      /\ (forall x c, In c (getchildren s' x) -> In c (getchildren s x))
      /\ (forall d, In d l -> exempt t s d = false -> getparent s' d = None)
      /\ (forall d, ~ In d l \/ exempt t s d = true ->
                    getparent s' d = getparent s d).
Proof.
  induction l as [|n l IH]; intros s Hnd Hpa Hpar.
  - exists s. repeat split; auto. intros d [].
  - apply List.NoDup_cons_iff in Hnd as [Hn Hnd].
    cbn [for_each]. unfold bind_of, mbind, M_bind, gets.
    fold (exempt t s n). destruct (exempt t s n) eqn:Ex.
    + destruct (IH s Hnd Hpa)
        as (s' & Hrun & Hpa' & Hlen & Hta & Hch & Hrm & Hkeep).
      { intros d Hd. apply Hpar. right. exact Hd. }
      exists s'. unfold mret, M_ret. split; [exact Hrun|].
      repeat (split; [assumption|]). split.
      * intros d [<-|Hd] Hex; [congruence | apply Hrm; assumption].
      * intros d [Hd|Hex].
        -- apply Hkeep. left. intros Hin. apply Hd. right. exact Hin.
        -- destruct (in_dec Nat.eq_dec d l) as [Hin|Hin];
             apply Hkeep; [right | left]; assumption.
    + destruct (Hpar n (or_introl eq_refl)) as [p Hp].
      unfold remove_from_parent, bind_of, mbind, M_bind, gets, modify.
      rewrite Hp.
      assert (Hex' : forall d, exempt t (detach n s) d = exempt t s d).
      { intros d. unfold exempt, is_video.
        rewrite (detach_attrib s n p Hp). reflexivity. }
      destruct (IH (detach n s) Hnd (detach_parents_agree s n p Hp Hpa))
        as (s' & Hrun & Hpa' & Hlen & Hta & Hch & Hrm & Hkeep).
      { intros d Hd. rewrite (detach_parent_other s n p Hp).
        - apply Hpar. right. exact Hd.
        - intros ->. contradiction. }
      exists s'. split; [exact Hrun|]. split; [exact Hpa'|].
      split; [rewrite Hlen; apply (detach_length s n p Hp)|].
      split.
      { intros x. destruct (Hta x) as [H1 H2].
        rewrite H1, H2, (detach_tag s n p Hp), (detach_attrib s n p Hp).
        split; reflexivity. }
      split.
      { intros x c Hc. apply Hch in Hc.
        apply (detach_children s n p Hp x c Hpa) in Hc as [Hc _]. exact Hc. }
      split.
      * intros d [<-|Hd] Hex.
        -- rewrite Hkeep by (left; exact Hn).
           apply (detach_parent_self s n p Hp).
        -- apply Hrm; [exact Hd | rewrite Hex'; exact Hex].
      * intros d Hd.
        assert (Hne : d <> n).
        { intros ->. destruct Hd as [Hd|Hd]; [apply Hd; left; reflexivity|].
          congruence. }
        rewrite Hkeep.
        -- apply (detach_parent_other s n p Hp), Hne.
        -- destruct Hd as [Hd|Hd].
           ++ left. intros Hin. apply Hd. right. exact Hin.
           ++ right. rewrite Hex'. exact Hd.
Qed.






(** ** The last loop of [prep_article] *)

Lemma for_each_noop {A} (l : list A) (body : A -> M unit) :
  (forall x s, body x s = Ok (tt, s)) ->
  forall s, for_each l body s = Ok (tt, s).
Proof.
  intros H. induction l as [|x l IH]; intros s; [reflexivity|].
  cbn [for_each]. unfold bind_of, mbind, M_bind. rewrite H. apply IH.
Qed.

(** C2: the loop "remove extra paragraphs" compares the lists returned by
    the XPath queries with the integer 0; a list never equals an integer,
    the condition is false for every paragraph and the loop leaves the
    store as it is.  In [doc_paragraph] the paragraph has no img, embed or
    object and its text is not empty; it is still in the content after
    [prep_article]. *)
Theorem remove_extra_paragraphs_noop (content : ref) (s : store) :
  remove_extra_paragraphs content s = Ok (tt, s)
  /\ (let s0 := snd (load None doc_paragraph []) in
      (xpath_s s0 0%nat "p" = [1%nat]
       /\ xpath_s s0 1%nat "img" ++ xpath_s s0 1%nat "embed" ++
          xpath_s s0 1%nat "object" = []
       /\ s_inner_text s0 1%nat false = " hello")
      /\ prep_article init_flags 0%nat s0 = Ok (tt, s0)).
Proof.
  split.
  - unfold remove_extra_paragraphs, bind_of, mbind, M_bind, gets.
    apply for_each_noop. intros x s1. reflexivity.
  - split; [repeat split|]; vm_compute; reflexivity.
Qed.

(** ** [NodeIter.remove] on a list that is up to date *)

Section Forest.

Variable s : store.
Hypothesis Hpa : parents_agree s.
Hypothesis Hac : acyclic s = true.

Lemma iterdescendants_unfold (r : ref) :
  iterdescendants_s s r =
  flat_map (fun c => c :: iterdescendants_s s c) (getchildren s r).
Proof.
  rewrite <- (desc_fuel_adequate s Hpa Hac 1 r), Nat.add_1_r. reflexivity.
Qed.

Lemma descendant_rises (r d : ref) :
  descendant s r d ->
  forall n, rises n s d = true -> exists m, (m < n)%nat /\ rises m s r = true.
Proof.
  induction 1 as [r d Hd | r c d Hc _ IH]; intros n Hn.
  - destruct n as [|n]; [discriminate|]. cbn [rises] in Hn.
    rewrite (Hpa r d Hd) in Hn. exists n. split; [lia | exact Hn].
  - destruct (IH n Hn) as (m & Hm & Hr).
    destruct m as [|m]; [discriminate|]. cbn [rises] in Hr.
    rewrite (Hpa r c Hc) in Hr. exists m. split; [lia | exact Hr].
Qed.

Lemma descendant_in_range (r d : ref) :
  descendant s r d -> (r < length s)%nat.
Proof.
  intros H. assert (Hc : exists c, In c (getchildren s r))
    by (destruct H; eauto).
  destruct Hc as [c Hc]. destruct (le_lt_dec (length s) r) as [Hge|]; [|lia].
  unfold getchildren in Hc. rewrite rd_out_of_range in Hc by exact Hge.
  destruct Hc.
Qed.

(** No element is below itself. *)
Lemma descendant_irrefl (r : ref) : ~ descendant s r r.
Proof.
  intros H.
  assert (Hr : rises (length s) s r = true).
  { unfold acyclic in Hac. rewrite forallb_forall in Hac.
    apply Hac, in_seq. pose proof (descendant_in_range r r H). lia. }
  revert Hr. generalize (length s). intros n.
  induction n as [n IH] using lt_wf_ind. intros Hn.
  destruct (descendant_rises r r H n Hn) as (m & Hm & Hr).
  exact (IH m Hm Hr).
Qed.

Lemma descendant_trans (a b c : ref) :
  descendant s a b -> descendant s b c -> descendant s a c.
Proof.
  induction 1 as [a b Hb | a x b Hx _ IH]; intros Hc.
  - eapply descendant_step; eassumption.
  - eapply descendant_step; [exact Hx | apply IH, Hc].
Qed.

(** The parent of a descendant of [d] is [d] or a descendant of [d]. *)
Lemma descendant_parent (d c r : ref) :
  descendant s d c -> getparent s c = Some r -> r = d \/ descendant s d r.
Proof.
  induction 1 as [d c Hc | d x c Hx Hxc IH]; intros Hp.
  - left. rewrite (Hpa d c Hc) in Hp. congruence.
  - right. destruct (IH Hp) as [->|Hr].
    + apply descendant_child, Hx.
    + eapply descendant_step; eassumption.
Qed.

(** The descendants of [d] are a segment of the descendants of any
    element above it. *)
Lemma descendant_segment (r d : ref) :
  descendant s r d ->
  exists pre post,
    iterdescendants_s s r = pre ++ d :: iterdescendants_s s d ++ post.
Proof.
  induction 1 as [r d Hd | r c d Hc _ (pre & post & IH)];
    rewrite (iterdescendants_unfold r).
  - apply in_split in Hd as (l1 & l2 & ->).
    rewrite flat_map_app. cbn [flat_map].
    exists (flat_map (fun c => c :: iterdescendants_s s c) l1).
    exists (flat_map (fun c => c :: iterdescendants_s s c) l2).
    rewrite <- app_comm_cons. reflexivity.
  - apply in_split in Hc as (l1 & l2 & ->).
    rewrite flat_map_app. cbn [flat_map]. rewrite IH.
    exists (flat_map (fun c => c :: iterdescendants_s s c) l1 ++ c :: pre).
    exists (post ++ flat_map (fun c => c :: iterdescendants_s s c) l2).
    repeat (rewrite <- ?app_assoc, <- ?app_comm_cons). reflexivity.
Qed.

End Forest.

Lemma filter_all {A} (f : A -> bool) (l : list A) :
  (forall x, In x l -> f x = true) -> List.filter f l = l.
Proof.
  induction l as [|x l IH]; intros H; [reflexivity|]. cbn [List.filter].
  rewrite (H x (or_introl eq_refl)), IH; [reflexivity|].
  intros y Hy. apply H. right. exact Hy.
Qed.

Lemma filter_none {A} (f : A -> bool) (l : list A) :
  (forall x, In x l -> f x = false) -> List.filter f l = [].
Proof.
  induction l as [|x l IH]; intros H; [reflexivity|]. cbn [List.filter].
  rewrite (H x (or_introl eq_refl)). apply IH.
  intros y Hy. apply H. right. exact Hy.
Qed.

Section DetachDescendants.

Variable s : store.
Hypothesis Hpa : parents_agree s.
Hypothesis Hac : acyclic s = true.
Variables d p : ref.
Hypothesis Hparent : getparent s d = Some p.

Lemma in_subtree_spec (x : ref) :
  in_subtree s d x = true <-> x = d \/ descendant s d x.
Proof.
  unfold in_subtree. rewrite orb_true_iff, Nat.eqb_eq, existsb_exists.
  rewrite <- (iterdescendants_descendant s d x Hpa Hac).
  split; (intros [H|H]; [left; exact H | right]).
  - destruct H as (y & Hy & Hxy). apply Nat.eqb_eq in Hxy. subst. exact Hy.
  - exists x. split; [exact H | apply Nat.eqb_refl].
Qed.

Lemma detach_getchildren (x : ref) :
  getchildren (detach d s) x =
  List.filter (fun c => negb (Nat.eqb c d)) (getchildren s x).
Proof.
  unfold getchildren.
  rewrite (detach_unfold s d p Hparent), (rd_upd_proj e_children)
    by reflexivity.
  destruct (Nat.eq_dec x p) as [->|Hx].
  - destruct (le_lt_dec (length s) p) as [Hge|Hlt].
    + rewrite !rd_out_of_range by (rewrite ?length_upd; exact Hge).
      reflexivity.
    + rewrite rd_upd_eq by exact Hlt. reflexivity.
  - rewrite rd_upd_ne by exact Hx. symmetry. apply filter_all.
    intros c Hc. apply negb_true_iff, Nat.eqb_neq. intros ->.
    apply Hpa in Hc. congruence.
Qed.

Lemma desc_fuel_detach (f : nat) :
  forall r, in_subtree s d r = false ->
    desc_fuel f (detach d s) r
    = List.filter (fun x => negb (in_subtree s d x)) (desc_fuel f s r).
Proof.
  induction f as [|f IH]; intros r Hr; [reflexivity|].
  cbn [desc_fuel]. rewrite detach_getchildren.
  assert (Hch : forall c, In c (getchildren s r) -> In c (getchildren s r))
    by auto.
  revert Hch. generalize (getchildren s r) at 1 3 4. intros l.
  induction l as [|c l IHl]; intros Hch; [reflexivity|].
  cbn [List.filter flat_map]. rewrite List.filter_app.
  assert (Hc : In c (getchildren s r)) by (apply Hch; left; reflexivity).
  assert (Hl : forall c', In c' l -> In c' (getchildren s r))
    by (intros c' Hc'; apply Hch; right; exact Hc').
  destruct (Nat.eqb c d) eqn:Hcd; cbn [negb].
  - apply Nat.eqb_eq in Hcd. subst c.
    rewrite (filter_none _ (d :: desc_fuel f s d)); [apply IHl, Hl|].
    intros x Hx. apply negb_false_iff, in_subtree_spec.
    destruct Hx as [<-|Hx]; [left; reflexivity | right].
    eapply desc_fuel_descendant, Hx.
  - assert (Hkeep : in_subtree s d c = false).
    { apply not_true_is_false. intros Hin. apply in_subtree_spec in Hin.
      destruct Hin as [->|Hin]; [rewrite Nat.eqb_refl in Hcd; discriminate|].
      destruct (descendant_parent s Hpa d c r Hin (Hpa r c Hc)) as [->|Hdr].
      - assert (in_subtree s d d = true) by (apply in_subtree_spec; auto).
        congruence.
      - assert (in_subtree s d r = true) by (apply in_subtree_spec; auto).
        congruence. }
    cbn [flat_map List.filter]. rewrite Hkeep. cbn [negb app].
    rewrite (IH c Hkeep), (IHl Hl). reflexivity.
Qed.

Lemma iterdescendants_detach (r : ref) :
  in_subtree s d r = false ->
  iterdescendants_s (detach d s) r
  = List.filter (fun x => negb (in_subtree s d x)) (iterdescendants_s s r).
Proof.
  intros Hr. unfold iterdescendants_s.
  rewrite (detach_length s d p Hparent). apply desc_fuel_detach, Hr.
Qed.

End DetachDescendants.

(** When the list of the iterator is the list of the descendants of the
    root as the tree stands, [remove] drops the current node and its
    descendants from the list and steps back onto the position of the
    node that followed them: [next] yields that node, or stops. *)
Lemma NodeIter_remove_up_to_date (s : store) (root d : ref) (k : nat) :
  parents_agree s ->
  acyclic s = true ->
  let nodes := iterdescendants_s s root in
  List.NoDup nodes ->
  nodes !! k = Some d ->
  let it := MkNodeIter root nodes (Z.of_nat k + 1) (Some d) in
  let after := (k + 1 + length (iterdescendants_s s d))%nat in
  exists it',
    NodeIter_remove it s = Ok (it', detach d s)
    /\ it_nodes it' = iterdescendants_s (detach d s) root
    /\ it_nodes it' = take k nodes ++ drop after nodes
    /\ it_idx it' = Z.of_nat k
    /\ NodeIter_next it' (detach d s)
       = Ok (match nodes !! after with
             | Some x =>
                 Some (MkNodeIter root (it_nodes it') (Z.of_nat k + 1)
                         (Some x), (Z.of_nat k + 1, x))
             | None => None
             end, detach d s).
Proof.
  intros Hpa Hac nodes Hnd Hk it after.
  apply NoDup_ListNoDup in Hnd.
  assert (Hin : In d nodes).
  { apply list_elem_of_In, list_elem_of_lookup. eauto. }
  pose proof (proj1 (iterdescendants_descendant s root d Hpa Hac) Hin)
    as Hdesc.
  destruct (desc_fuel_child _ _ _ _ Hin) as [p Hp]. apply Hpa in Hp.
  assert (Hroot : in_subtree s d root = false).
  { apply not_true_is_false. intros H.
    apply (in_subtree_spec s Hpa Hac) in H. destruct H as [->|H].
    - exact (descendant_irrefl s Hpa Hac d Hdesc).
    - exact (descendant_irrefl s Hpa Hac root
               (descendant_trans s root d root Hdesc H)). }
  destruct (descendant_segment s Hpa Hac root d Hdesc) as (pre & post & Hseg).
  fold nodes in Hseg.
  assert (Hlen : length pre = k).
  { eapply (NoDup_lookup nodes); [exact Hnd | | exact Hk].
    rewrite Hseg. apply list_lookup_middle. reflexivity. }
  assert (Hnew : iterdescendants_s (detach d s) root = pre ++ post).
  { rewrite (iterdescendants_detach s Hpa Hac d p Hp root Hroot).
    fold nodes. rewrite Hseg in Hnd |- *.
    apply NoDup_app in Hnd as (_ & Hpre & Hnd).
    apply NoDup_cons in Hnd as (Hd & Hnd).
    apply NoDup_app in Hnd as (_ & Hdd & _).
    rewrite List.filter_app. cbn [List.filter].
    assert (Hself : in_subtree s d d = true)
      by (apply (in_subtree_spec s Hpa Hac); auto).
    rewrite Hself. cbn [negb]. rewrite List.filter_app.
    assert (Hsub : forall x, In x (iterdescendants_s s d) ->
                             in_subtree s d x = true).
    { intros x Hx. apply (in_subtree_spec s Hpa Hac). right.
      apply (iterdescendants_descendant s d x Hpa Hac), Hx. }
    assert (Hout : forall x, in_subtree s d x = true ->
                             x = d \/ In x (iterdescendants_s s d)).
    { intros x Hx. apply (in_subtree_spec s Hpa Hac) in Hx.
      destruct Hx as [->|Hx]; [left; reflexivity | right].
      apply (iterdescendants_descendant s d x Hpa Hac), Hx. }
    rewrite (filter_none _ (iterdescendants_s s d)), (filter_all _ pre),
      (filter_all _ post); [reflexivity | | |].
    - intros x Hx. apply negb_true_iff, not_true_is_false. intros Hs.
      destruct (Hout x Hs) as [->|Hx'].
      + apply Hd, list_elem_of_In, in_or_app. right. exact Hx.
      + apply list_elem_of_In in Hx'. apply (Hdd x Hx').
        apply list_elem_of_In. exact Hx.
    - intros x Hx. apply negb_true_iff, not_true_is_false. intros Hs.
      apply list_elem_of_In in Hx. apply (Hpre x Hx).
      apply list_elem_of_In. destruct (Hout x Hs) as [->|Hx'].
      + left. reflexivity.
      + right. apply in_or_app. left. exact Hx'.
    - intros x Hx. apply negb_false_iff, Hsub, Hx. }
  assert (Htake : take k nodes = pre).
  { rewrite Hseg, <- Hlen. apply take_app_length. }
  assert (Hdrop : drop after nodes = post).
  { unfold after. rewrite Hseg, <- Hlen.
    replace (length pre + 1 + length (iterdescendants_s s d))%nat
      with (length pre + S (length (iterdescendants_s s d)))%nat by lia.
    rewrite drop_app_add.
    change (d :: iterdescendants_s s d ++ post)
      with ((d :: iterdescendants_s s d) ++ post).
    change (S (length (iterdescendants_s s d)))
      with (length (d :: iterdescendants_s s d)).
    apply drop_app_length. }
  exists (MkNodeIter root (pre ++ post) (Z.of_nat k) (Some d)).
  split.
  { unfold NodeIter_remove, it, remove_from_parent, bind_of, mbind, M_bind,
      gets, modify, mret, M_ret. cbn [it_current it_root it_idx].
    rewrite Hp. rewrite Hnew. do 3 f_equal. lia. }
  cbn [it_nodes it_idx]. split; [symmetry; exact Hnew|].
  split; [rewrite Htake, Hdrop; reflexivity|]. split; [reflexivity|].
  unfold NodeIter_next, mret, M_ret. cbn [it_nodes it_idx it_root].
  assert (Hpost : nodes !! after = post !! 0%nat).
  { rewrite <- Hdrop, lookup_drop, Nat.add_0_r. reflexivity. }
  rewrite Hpost, length_app, Hlen.
  destruct post as [|x post]; cbn [length lookup].
  - rewrite Nat.add_0_r, Z.leb_refl. reflexivity.
  - destruct (Z.of_nat (k + S (length post)) <=? Z.of_nat k) eqn:E;
      [apply Z.leb_le in E; lia|].
    unfold py_index. destruct (Z.of_nat k <? 0) eqn:E2;
      [apply Z.ltb_lt in E2; lia|].
    rewrite Nat2Z.id, list_lookup_middle by (symmetry; exact Hlen).
    reflexivity.
Qed.

(** ** The traversal of [select_scorable] *)

(** C5: in the body of [src_revisit] the [<div>] is rewritten by
    [_paragraphize_text] before the [<span class='comment'>] is removed.
    The iterator yields the div, the img, the span, then the img again and
    the new paragraph of the text [bb]: the img is visited twice, and the
    paragraph, already listed by [_paragraphize_text], is listed again. *)
Theorem select_scorable_revisits :
  exists s0,
    prepared src_revisit = Ok s0
    /\ map (fun r => e_tag (rd s0 r)) [1; 2; 3; 4]%nat
       = ["body"; "div"; "img"; "span"]
    /\ run (select_traversal init_flags 1%nat) s0
       = Ok ([6; 7; 7]%nat, [2; 3; 4; 3; 7]%nat)
    /\ ~ List.NoDup [2; 3; 4; 3; 7]%nat.
Proof.
  eexists. split; [vm_compute; reflexivity|].
  split; [vm_compute; reflexivity|].
  split; [vm_compute; reflexivity|].
  intros H. apply NoDup_ListNoDup in H.
  apply NoDup_cons in H as [_ H]. apply NoDup_cons in H as [H _].
  apply H. apply list_elem_of_In. simpl. tauto.
Qed.

(** ** The controller *)

Section ControllerFacts.

Variable fromstring : string -> result node.
Variable cleaner : node -> node.

Lemma py_pop_rev_cons {A} (x : A) (l : list A) :
  py_pop (rev (x :: l)) = Some (x, rev l).
Proof. unfold py_pop. rewrite rev_involutive. reflexivity. Qed.

Lemma long_enough_ltb (c : node) :
  (Str.len (get_inner_text c false) <? 250) = negb (long_enough c).
Proof. unfold long_enough. rewrite Z.ltb_antisym. reflexivity. Qed.

(** The loop of [grab_article] follows the relaxation schedule. *)
Lemma grab_loop_relax (data : string) (queue : list Z) :
  forall (budget : nat) (flags : Z) (content : option node) (text : string),
    (length queue < budget)%nat ->
    (Str.len text <? 250) = true ->
    grab_loop fromstring cleaner budget data (rev queue) flags content text =
    relax (fun g => _grab_article fromstring cleaner g data) flags queue.
Proof.
  induction queue as [|flag queue IH]; intros budget flags content text Hb Ht.
  - destruct budget; [simpl in Hb; lia|]. simpl. rewrite Ht. reflexivity.
  - destruct budget as [|budget]; [simpl in Hb; lia|].
    cbn [grab_loop relax]. rewrite Ht, py_pop_rev_cons.
    destruct (_grab_article fromstring cleaner (clear_flag flags flag) data)
      as [c|e]; [|reflexivity].
    destruct queue as [|flag' queue]; [reflexivity|].
    assert (Hne : exists y l, rev (flag' :: queue) = y :: l).
    { destruct (rev (flag' :: queue)) as [|y l] eqn:E; [|eauto].
      apply (f_equal (@length Z)) in E. rewrite length_rev in E.
      simpl in E. lia. }
    destruct Hne as (y & l & E). rewrite E, <- E.
    destruct (long_enough c) eqn:Hl.
    + simpl in Hb. destruct budget; [lia|].
      cbn [grab_loop]. rewrite long_enough_ltb, Hl. reflexivity.
    + apply IH; [simpl in *; lia|]. rewrite long_enough_ltb, Hl. reflexivity.
Qed.

Lemma grab_article_relax (flags : Z) (data : string) :
  grab_article fromstring cleaner flags data =
  relax (fun g => _grab_article fromstring cleaner g data) flags FLAGS.
Proof.
  unfold grab_article. apply grab_loop_relax.
  - rewrite length_rev. lia.
  - reflexivity.
Qed.

(** C1: from the all-on flags of a new instance ([0xFFFF]),
    [grab_article] clears NONE, STRIP_UNLIKELY, CLASS_WEIGHT and
    CLEAN_CONDITIONALLY in this order, one value before each pass, so that
    the first pass has the three flags on; after each of the first three
    passes it returns the content of the pass when its unnormalized inner
    text has 250 characters or more; the content of the fourth pass is
    returned whatever its length.  Each pass is [_grab_article] applied to
    the original [data], which it parses anew: no pass sees the tree of
    another, and there are at most four. *)
Theorem grab_article_relaxation (data : string) :
  let pass := fun flags => _grab_article fromstring cleaner flags data in
  grab_article fromstring cleaner init_flags data =
    match pass 0xFFFF with
    | Raise e => (Raise e, 0xFFFF)
    | Ok c1 =>
        if long_enough c1 then (Ok (Some c1), 0xFFFF)
        else
          match pass 0xFFFE with
          | Raise e => (Raise e, 0xFFFE)
          | Ok c2 =>
              if long_enough c2 then (Ok (Some c2), 0xFFFE)
              else
                match pass 0xFFFC with
                | Raise e => (Raise e, 0xFFFC)
                | Ok c3 =>
                    if long_enough c3 then (Ok (Some c3), 0xFFFC)
                    else
                      match pass 0xFFF8 with
                      | Raise e => (Raise e, 0xFFF8)
                      | Ok c4 => (Ok (Some c4), 0xFFF8)
                      end
                end
          end
    end
  /\ map (fun g => (flag_on g FLAG_STRIP_UNLIKELY, flag_on g FLAG_CLASS_WEIGHT,
                    flag_on g FLAG_CLEAN_CONDITIONALLY))
       [0xFFFF; 0xFFFE; 0xFFFC; 0xFFF8]
     = [(true, true, true); (false, true, true); (false, false, true);
        (false, false, false)]
  /\ pass_flags init_flags = [0xFFFF; 0xFFFE; 0xFFFC; 0xFFF8].
Proof.
  intros pass. split; [|split; reflexivity].
  rewrite grab_article_relax. fold pass.
  cbv [relax FLAGS].
  change (clear_flag init_flags FLAG_NONE) with 0xFFFF.
  change (clear_flag 0xFFFF FLAG_STRIP_UNLIKELY) with 0xFFFE.
  change (clear_flag 0xFFFE FLAG_CLASS_WEIGHT) with 0xFFFC.
  change (clear_flag 0xFFFC FLAG_CLEAN_CONDITIONALLY) with 0xFFF8.
  reflexivity.
Qed.

(** An invocation that returns after its first pass leaves the flags as
    they were. *)
Lemma first_pass_keeps_flags (flags : Z) (data : string) (c : node) :
  _grab_article fromstring cleaner flags data = Ok c ->
  long_enough c = true ->
  grab_article fromstring cleaner flags data = (Ok (Some c), flags).
Proof.
  intros Hc Hl. rewrite grab_article_relax. cbv [relax FLAGS].
  assert (E : clear_flag flags FLAG_NONE = flags)
    by (unfold clear_flag, FLAG_NONE; apply Z.land_m1_r).
  rewrite E, Hc, Hl. reflexivity.
Qed.











End ControllerFacts.


(** C9: on a document whose [<html>] element carries a positive class and
    a positive id, the root outscores the body (50 + 1 against 25 + 2), it
    is taken for [top], and [top.getparent()] is [None]: the first pass of
    [grab_article] ends with an [AttributeError] instead of a subtree. *)
Theorem grab_article_raises :
  parser_of samples src_scored_root = Ok doc_scored_root
  /\ grab_article (parser_of samples) no_cleaning init_flags src_scored_root
     = (Raise AttributeError, 0xFFFF).
Proof. split; vm_compute; reflexivity. Qed.

(** * Part IV: further properties of the program *)

(** ** [get_inner_text] and [get_char_count] *)

Lemma fold_left_append_ext (f g : node -> string) (l : list node) :
  (forall c, In c l -> f c = g c) ->
  forall acc,
    fold_left (fun acc c => (acc ++ f c)%string) l acc
    = fold_left (fun acc c => (acc ++ g c)%string) l acc.
Proof.
  induction l as [|c l IH]; intros H acc; [reflexivity|].
  cbn [fold_left]. rewrite (H c (or_introl eq_refl)). apply IH.
  intros c' Hc'. apply H. right. exact Hc'.
Qed.

(** Below the outermost call the flag [normalize_spaces] has no effect. *)
Lemma get_inner_text_at_deep (n : node) :
  forall d b, get_inner_text_at (S d) b n = get_inner_text_at 1 false n.
Proof.
  induction n as [t a tx tl cs IH] using node_induction. intros d b.
  cbn [get_inner_text_at text tail children Nat.eqb].
  rewrite andb_false_r. cbn [andb].
  rewrite (fold_left_append_ext
             (get_inner_text_at (S (S d)) b) (get_inner_text_at 2 false)).
  - reflexivity.
  - intros c Hc. rewrite (IH c Hc (S d) b), (IH c Hc 1%nat false).
    reflexivity.
Qed.

Lemma get_inner_text_raw (n : node) (b : bool) :
  get_inner_text n b =
  (if b then Str.normalize (get_inner_text n false)
   else get_inner_text n false).
Proof.
  unfold get_inner_text. destruct n as [t a tx tl cs].
  cbn [get_inner_text_at text tail children Nat.eqb].
  rewrite andb_true_r. cbn [andb].
  rewrite (fold_left_append_ext
             (get_inner_text_at 1 b) (get_inner_text_at 1 false)).
  - destruct b; reflexivity.
  - intros c _. apply get_inner_text_at_deep.
Qed.

Lemma squeezed_cons_solid (w : ascii) (rest : string) :
  starts_solid rest = true -> squeezed rest = true ->
  squeezed (String w rest) = true.
Proof.
  intros Hs Hq. destruct rest as [|b rest]; [reflexivity|].
  cbn [squeezed starts_solid] in *. rewrite Hq.
  apply negb_true_iff in Hs. rewrite Hs, andb_false_r. reflexivity.
Qed.

Lemma squeezed_cons_nonspace (a : ascii) (rest : string) :
  Str.is_space a = false -> squeezed rest = true ->
  squeezed (String a rest) = true.
Proof.
  intros Ha Hq. destruct rest as [|b rest]; [reflexivity|].
  cbn [squeezed] in *. rewrite Hq, Ha. reflexivity.
Qed.

Lemma normalize_aux_shape (s : string) :
  squeezed (Str.normalize_aux None false s) = true
  /\ forall c m, Str.is_space c = true ->
       exists w rest,
         Str.normalize_aux (Some c) m s = String w rest
         /\ Str.is_space w = true
         /\ squeezed rest = true
         /\ starts_solid rest = true.
Proof.
  induction s as [|a s [IH1 IH2]].
  - split; [reflexivity|]. intros c m Hc.
    exists (if m then " "%char else c), EmptyString.
    repeat split. destruct m; [reflexivity | exact Hc].
  - cbn [Str.normalize_aux]. destruct (Str.is_space a) eqn:Ha.
    + split.
      * destruct (IH2 a false Ha) as (w & rest & -> & _ & Hq & Hs).
        apply squeezed_cons_solid; assumption.
      * intros c m Hc. apply IH2, Hc.
    + split.
      * change (Str.flush None false ++
                String a (Str.normalize_aux None false s))%string
          with (String a (Str.normalize_aux None false s)).
        apply squeezed_cons_nonspace; assumption.
      * intros c m Hc.
        exists (if m then " "%char else c),
               (String a (Str.normalize_aux None false s)).
        split; [reflexivity|]. split; [destruct m; [reflexivity | exact Hc]|].
        split; [apply squeezed_cons_nonspace; assumption|].
        cbn [starts_solid]. rewrite Ha. reflexivity.
Qed.

Lemma normalize_aux_length (s : string) :
  forall run m,
    (String.length (Str.normalize_aux run m s)
     <= (match run with Some _ => 1 | None => 0 end) + String.length s)%nat.
Proof.
  induction s as [|a s IH]; intros run m.
  - destruct run; cbn; lia.
  - cbn [Str.normalize_aux String.length]. destruct (Str.is_space a).
    + destruct run as [c|].
      * specialize (IH (Some c) true). cbn in IH. lia.
      * specialize (IH (Some a) false). cbn in IH. lia.
    + specialize (IH None false). destruct run as [c|].
      * change (Str.flush (Some c) m ++
                String a (Str.normalize_aux None false s))%string
          with (String (if m then " "%char else c)
                  (String a (Str.normalize_aux None false s))).
        cbn [String.length] in *. lia.
      * change (Str.flush None m ++
                String a (Str.normalize_aux None false s))%string
          with (String a (Str.normalize_aux None false s)).
        cbn [String.length] in *. lia.
Qed.

Lemma normalize_aux_squeezed (t : string) :
  squeezed t = true ->
  Str.normalize_aux None false t = t
  /\ (starts_solid t = true ->
      forall c, Str.normalize_aux (Some c) false t = String c t).
Proof.
  induction t as [|a t IH]; intros Hq; [split; reflexivity|].
  assert (Hq' : squeezed t = true).
  { destruct t as [|b t]; [reflexivity|]. cbn [squeezed] in Hq.
    apply andb_prop in Hq as [_ Hq]. exact Hq. }
  destruct (IH Hq') as [IH1 IH2]. cbn [Str.normalize_aux starts_solid].
  destruct (Str.is_space a) eqn:Ha.
  - split; [|discriminate]. apply IH2.
    destruct t as [|b t]; [reflexivity|]. cbn [squeezed starts_solid] in *.
    apply andb_prop in Hq as [Hq _]. rewrite Ha in Hq.
    destruct (Str.is_space b); [discriminate | reflexivity].
  - split.
    + change (Str.flush None false ++
              String a (Str.normalize_aux None false t))%string
        with (String a (Str.normalize_aux None false t)).
      rewrite IH1. reflexivity.
    + intros _ c.
      change (Str.flush (Some c) false ++
              String a (Str.normalize_aux None false t))%string
        with (String c (String a (Str.normalize_aux None false t))).
      rewrite IH1. reflexivity.
Qed.

Lemma count_space_char (c w : ascii) :
  Str.is_space c = false -> Str.is_space w = true -> Ascii.eqb w c = false.
Proof.
  intros Hc Hw. destruct (Ascii.eqb w c) eqn:E; [|reflexivity].
  apply Ascii.eqb_eq in E. congruence.
Qed.

Lemma normalize_aux_count (c : ascii) (s : string) :
  Str.is_space c = false ->
  forall run m,
    match run with Some w => Str.is_space w = true | None => True end ->
    Str.count c (Str.normalize_aux run m s) = Str.count c s.
Proof.
  intros Hc. induction s as [|a s IH]; intros run m Hrun.
  - destruct run as [w|]; [|reflexivity]. cbn [Str.normalize_aux Str.flush
      Str.count].
    rewrite (count_space_char c (if m then " "%char else w) Hc);
      [reflexivity|]. destruct m; [reflexivity | exact Hrun].
  - cbn [Str.normalize_aux Str.count]. destruct (Str.is_space a) eqn:Ha.
    + rewrite (count_space_char c a Hc Ha).
      destruct run as [w|]; apply IH; assumption.
    + destruct run as [w|].
      * change (Str.flush (Some w) m ++
                String a (Str.normalize_aux None false s))%string
          with (String (if m then " "%char else w)
                  (String a (Str.normalize_aux None false s))).
        cbn [Str.count].
        rewrite (count_space_char c (if m then " "%char else w) Hc),
          (IH None false I); [reflexivity|].
        destruct m; [reflexivity | exact Hrun].
      * change (Str.flush None m ++
                String a (Str.normalize_aux None false s))%string
          with (String a (Str.normalize_aux None false s)).
        cbn [Str.count]. rewrite (IH None false I). reflexivity.
Qed.

(** X1: the normalized inner text is the unnormalized one with every run
    of two or more whitespace characters replaced by one space: it has no
    two whitespace characters in a row, it is not longer than the
    unnormalized text, and normalizing it again changes nothing. *)
Theorem get_inner_text_normalized (n : node) :
  get_inner_text n true = Str.normalize (get_inner_text n false)
  /\ squeezed (get_inner_text n true) = true
  /\ Str.len (get_inner_text n true) <= Str.len (get_inner_text n false)
  /\ Str.normalize (get_inner_text n true) = get_inner_text n true.
Proof.
  assert (E : get_inner_text n true = Str.normalize (get_inner_text n false))
    by apply (get_inner_text_raw n true).
  assert (Q : squeezed (get_inner_text n true) = true)
    by (rewrite E; apply normalize_aux_shape).
  split; [exact E|]. split; [exact Q|]. split.
  - rewrite E. unfold Str.len, Str.normalize.
    pose proof (normalize_aux_length (get_inner_text n false) None false).
    cbn in H. lia.
  - apply (normalize_aux_squeezed _ Q).
Qed.

(** X2: [get_char_count] is the number of occurrences of the character in
    the normalized inner text, so it is never negative; for a character
    that is not whitespace, such as the comma, it is also the number of
    occurrences in the unnormalized text. *)
Theorem get_char_count_occurrences (n : node) (c : ascii) :
  get_char_count n c = Z.of_nat (Str.count c (get_inner_text n true))
  /\ 0 <= get_char_count n c
  /\ (if Str.is_space c then True
      else get_char_count n c
           = Z.of_nat (Str.count c (get_inner_text n false))).
Proof.
  assert (E : get_char_count n c
              = Z.of_nat (Str.count c (get_inner_text n true))).
  { unfold get_char_count. rewrite split_length. lia. }
  split; [exact E|]. split; [rewrite E; lia|].
  destruct (Str.is_space c) eqn:Hc; [exact I|].
  rewrite E, (get_inner_text_raw n true). unfold Str.normalize.
  rewrite (normalize_aux_count c _ Hc None false I). reflexivity.
Qed.

(** ** The text of a document *)
















Lemma convert_brs_at_attrib (n : node) (tl : option string) :
  attrib (convert_brs_at n tl) = attrib n.
Proof.
  destruct n as [t a tx tl0 cs]. cbn [convert_brs_at].
  destruct (existsb _ cs); reflexivity.
Qed.






(** ** [prep_document] *)

Lemma attr_get_set (key v dflt : string) (d : list (string * string)) :
  attr_get key (attr_set key v d) dflt = v.
Proof.
  induction d as [|[k w] d IH]; cbn [attr_set attr_get].
  - rewrite String.eqb_refl. reflexivity.
  - destruct (String.eqb k key) eqn:E; cbn [attr_get]; rewrite E;
      [reflexivity | exact IH].
Qed.

Lemma filter_is_body (cs : list node) :
  Forall (fun n => is_body n = true) (List.filter (fun n => is_body n) cs).
Proof.
  apply Forall_forall. intros n Hn. apply list_elem_of_In in Hn.
  apply filter_In in Hn as [_ Hn]. exact Hn.
Qed.

Section PrepDocument.

Variable fromstring : string -> result node.
Variable cleaner : node -> node.

(** X5: [prep_document] fails only when the parser fails, with the
    parser's exception.  Otherwise the document it leaves has the tag and
    the attributes of the cleaned root, all the children of the root are
    [<body>] elements and there is at least one; the first of them is the
    body that is returned: its [id] is [readableBody] and no [<br>] is
    left below it. *)
Theorem prep_document_body (data : string) :
  match fromstring data with
  | Raise e => prep_document fromstring cleaner data = Raise e
  | Ok tree =>
      exists root body rest,
        prep_document fromstring cleaner data = Ok root
        /\ tag root = tag (cleaner tree)
        /\ attrib root = attrib (cleaner tree)
        /\ children root = body :: rest
        /\ Forall (fun n => tag n = "body") (body :: rest)
        /\ attr_get "id" (attrib body) "" = "readableBody"
        /\ br_free body = true
        /\ (existsb is_body (children (cleaner tree)) = true ->
            rest = List.tl (List.filter (fun n => is_body n)
                              (children (cleaner tree))))
  end.
Proof.
  unfold prep_document, bind_of. destruct (fromstring data) as [tree|e];
    [|reflexivity].
  cbn [mbind result_bind]. set (root := cleaner tree).
  assert (Hprep : forall b bs,
    is_body b = true -> Forall (fun n => is_body n = true) bs ->
    exists body,
      prep_first_body (b :: bs) = body :: bs
      /\ Forall (fun n => tag n = "body") (body :: bs)
      /\ attr_get "id" (attrib body) "" = "readableBody"
      /\ br_free body = true).
  { intros b bs Hb Hbs. cbn [prep_first_body]. rewrite Hb.
    eexists. split; [reflexivity|]. split; [|split].
    - constructor.
      + unfold convert_brs. rewrite convert_brs_at_tag. cbn [tag].
        apply String.eqb_eq, Hb.
      + eapply Forall_impl; [exact Hbs|]. intros n Hn.
        apply String.eqb_eq, Hn.
    - unfold convert_brs. rewrite convert_brs_at_attrib. cbn [attrib].
      apply attr_get_set.
    - apply convert_brs_at_no_br. }
  destruct (existsb is_body (children root)) eqn:E.
  - pose proof (filter_is_body (children root)) as Hall.
    destruct (List.filter (fun n => is_body n) (children root))
      as [|b bs] eqn:Hf.
    + exfalso. apply existsb_exists in E as (n & Hn & Hb).
      assert (Hin : In n (List.filter (fun n => is_body n) (children root)))
        by (apply filter_In; split; assumption).
      rewrite Hf in Hin. destruct Hin.
    + apply Forall_cons in Hall as [Hb Hbs].
      destruct (Hprep b bs Hb Hbs) as (body & Hp & Htags & Hid & Hbr).
      exists (set_children root (body :: bs)), body, bs.
      unfold mret, result_ret. rewrite Hp.
      repeat (split; [first [reflexivity | assumption]|]).
      intros _. reflexivity.
  - set (b := set_children (Element "body" []) (children root)).
    change (List.filter (fun n => is_body n)
              (children (set_children root [b]))) with [b].
    destruct (Hprep b [] eq_refl (List.Forall_nil _))
      as (body & Hp & Htags & Hid & Hbr).
    exists (set_children (set_children root [b]) [body]), body, [].
    unfold mret, result_ret. rewrite Hp.
    repeat (split; [first [reflexivity | assumption]|]).
    discriminate.
Qed.

End PrepDocument.

(** ** [grab_article] on an instance in any state *)

Lemma clear_flag_high (g flag : Z) :
  In flag FLAGS ->
  Z.land (clear_flag g flag) (Z.lnot 7) = Z.land g (Z.lnot 7).
Proof.
  intros H. unfold clear_flag. rewrite <- Z.land_assoc. f_equal.
  cbv [FLAGS FLAG_NONE FLAG_STRIP_UNLIKELY FLAG_CLASS_WEIGHT
         FLAG_CLEAN_CONDITIONALLY] in H.
  destruct H as [<-|[<-|[<-|[<-|[]]]]]; reflexivity.
Qed.

Lemma pass_flags_high (flags : Z) :
  Forall (fun g => Z.land g (Z.lnot 7) = Z.land flags (Z.lnot 7))
    (pass_flags flags).
Proof.
  unfold pass_flags.
  repeat constructor;
    rewrite ?clear_flag_high; try reflexivity;
    cbv [FLAGS FLAG_NONE FLAG_STRIP_UNLIKELY FLAG_CLASS_WEIGHT
           FLAG_CLEAN_CONDITIONALLY]; simpl; tauto.
Qed.

Section ControllerOutcome.

Variable fromstring : string -> result node.
Variable cleaner : node -> node.

Local Ltac outcome_at k Hhigh :=
  cbn [fst snd]; repeat split; auto; try discriminate;
  try (apply (Hhigh k); reflexivity).

(** X6: whatever the flags of the instance, [grab_article] ends with the
    outcome of one of its four passes, the passes before it having
    returned contents of less than 250 characters: either the exception
    of that pass, or its content, whose unnormalized text has 250
    characters or more unless the pass is the fourth.  It never returns
    [None], and the exceptions of the loop itself (an empty queue) never
    come up.  [self.flags] is left as that pass had it: only the bits of
    the three flags can differ from what they were before the call. *)
Theorem grab_article_outcome (flags : Z) (data : string) :
  let pass := fun g => _grab_article fromstring cleaner g data in
  let r := grab_article fromstring cleaner flags data in
  exists (k : nat) (g : Z),
    pass_flags flags !! k = Some g
    /\ snd r = g
    /\ (forall j h, (j < k)%nat -> pass_flags flags !! j = Some h ->
          exists c, pass h = Ok c /\ long_enough c = false)
    /\ match pass g with
       | Raise e => fst r = Raise e
       | Ok c => fst r = Ok (Some c) /\ (long_enough c = true \/ k = 3%nat)
       end
    /\ fst r <> Ok None
    /\ Z.land (snd r) (Z.lnot 7) = Z.land flags (Z.lnot 7).
Proof.
  intros pass r.
  assert (Hhigh : forall k g, pass_flags flags !! k = Some g ->
            Z.land g (Z.lnot 7) = Z.land flags (Z.lnot 7)).
  { intros k g Hk. pose proof (pass_flags_high flags) as H.
    rewrite Forall_forall in H. apply H.
    apply list_elem_of_lookup. eauto. }
  assert (Hr : r = relax pass flags FLAGS) by apply grab_article_relax.
  set (g1 := clear_flag flags FLAG_NONE).
  set (g2 := clear_flag g1 FLAG_STRIP_UNLIKELY).
  set (g3 := clear_flag g2 FLAG_CLASS_WEIGHT).
  set (g4 := clear_flag g3 FLAG_CLEAN_CONDITIONALLY).
  assert (Hpf : pass_flags flags = [g1; g2; g3; g4]) by reflexivity.
  cbv [relax FLAGS] in Hr. fold g1 g2 g3 g4 in Hr.
  assert (Hbefore : forall k,
    (forall j h, (j < k)%nat -> [g1; g2; g3; g4] !! j = Some h ->
       exists c, pass h = Ok c /\ long_enough c = false) ->
    forall g, [g1; g2; g3; g4] !! k = Some g ->
    forall c, pass g = Ok c -> long_enough c = false ->
    forall j h, (j < S k)%nat -> [g1; g2; g3; g4] !! j = Some h ->
       exists c, pass h = Ok c /\ long_enough c = false).
  { intros k Hk g Hg c Hc Hl j h Hj Hh.
    destruct (Nat.eq_dec j k) as [->|Hne].
    - rewrite Hg in Hh. injection Hh as <-. eauto.
    - apply (Hk j h); [lia | exact Hh]. }
  assert (H0 : forall j h, (j < 0)%nat -> [g1; g2; g3; g4] !! j = Some h ->
            exists c, pass h = Ok c /\ long_enough c = false)
    by (intros; lia).
  rewrite Hpf in *.
  destruct (pass g1) as [c1|e1] eqn:E1;
    [|exists 0%nat, g1; rewrite Hr, E1; outcome_at 0%nat Hhigh].
  destruct (long_enough c1) eqn:L1;
    [exists 0%nat, g1; rewrite Hr, E1; outcome_at 0%nat Hhigh|].
  pose proof (Hbefore 0%nat H0 g1 eq_refl c1 E1 L1) as H1.
  destruct (pass g2) as [c2|e2] eqn:E2;
    [|exists 1%nat, g2; rewrite Hr, E2; outcome_at 1%nat Hhigh].
  destruct (long_enough c2) eqn:L2;
    [exists 1%nat, g2; rewrite Hr, E2; outcome_at 1%nat Hhigh|].
  pose proof (Hbefore 1%nat H1 g2 eq_refl c2 E2 L2) as H2.
  destruct (pass g3) as [c3|e3] eqn:E3;
    [|exists 2%nat, g3; rewrite Hr, E3; outcome_at 2%nat Hhigh].
  destruct (long_enough c3) eqn:L3;
    [exists 2%nat, g3; rewrite Hr, E3; outcome_at 2%nat Hhigh|].
  pose proof (Hbefore 2%nat H2 g3 eq_refl c3 E3 L3) as H3.
  exists 3%nat, g4. rewrite Hr.
  destruct (pass g4) as [c4|e4] eqn:E4; outcome_at 3%nat Hhigh.
Qed.

End ControllerOutcome.

(** ** Passes that remove elements *)

Lemma bind_gets {A B} (f : store -> A) (k : A -> M B) (s : store) :
  bind_of (gets f) k s = k (f s) s.
Proof. reflexivity. Qed.

Lemma remove_from_parent_detach (s : store) (n p : ref) :
  getparent s n = Some p -> remove_from_parent n s = Ok (tt, detach n s).
Proof.
  intros Hp. unfold remove_from_parent. rewrite bind_gets, Hp. reflexivity.
Qed.

Lemma filter_ext_on {A} (f g : A -> bool) (l : list A) :
  (forall x, In x l -> f x = g x) -> List.filter f l = List.filter g l.
Proof.
  induction l as [|x l IH]; intros H; [reflexivity|]. cbn [List.filter].
  rewrite (H x (or_introl eq_refl)), IH; [reflexivity|].
  intros y Hy. apply H. right. exact Hy.
Qed.

Lemma filter_filter_and {A} (f g : A -> bool) (l : list A) :
  List.filter f (List.filter g l) = List.filter (fun x => (g x && f x)%bool) l.
Proof.
  induction l as [|x l IH]; [reflexivity|]. cbn [List.filter].
  destruct (g x); cbn [List.filter andb]; rewrite IH; reflexivity.
Qed.

Lemma filter_sublist {A} (f : A -> bool) (l : list A) :
  sublist (List.filter f l) l.
Proof.
  induction l as [|x l IH]; [constructor|]. cbn [List.filter].
  destruct (f x); [apply sublist_skip | apply sublist_cons]; exact IH.
Qed.

Lemma has_parent_agree (s : store) (x c : ref) :
  parents_agree s -> In c (getchildren s x) -> has_parent s c = true.
Proof. intros Hpa Hc. unfold has_parent. rewrite (Hpa x c Hc). reflexivity. Qed.

Lemma pruned_refl (s : store) : parents_agree s -> pruned s s.
Proof.
  intros Hpa. split; [reflexivity|]. split; [repeat split|].
  split; [left; reflexivity|]. intros x. symmetry. apply filter_all.
  intros c Hc. eapply has_parent_agree; eassumption.
Qed.

Lemma pruned_detach (s : store) (d p : ref) :
  parents_agree s -> getparent s d = Some p -> pruned s (detach d s).
Proof.
  intros Hpa Hp. split; [apply (detach_length s d p Hp)|]. split.
  { intros x. rewrite (detach_unfold s d p Hp).
    repeat split; rewrite !rd_upd_proj; reflexivity. }
  split.
  { intros x. destruct (Nat.eq_dec x d) as [->|Hx].
    - right. apply (detach_parent_self s d p Hp).
    - left. apply (detach_parent_other s d p Hp), Hx. }
  intros x. rewrite (detach_getchildren s Hpa d p Hp).
  apply filter_ext_on. intros c Hc. unfold has_parent.
  destruct (Nat.eqb c d) eqn:E.
  - apply Nat.eqb_eq in E. subst c.
    rewrite (detach_parent_self s d p Hp). reflexivity.
  - apply Nat.eqb_neq in E.
    rewrite (detach_parent_other s d p Hp c E), (Hpa x c Hc). reflexivity.
Qed.

Lemma pruned_has_parent (s s' : store) (c : ref) :
  pruned s s' -> has_parent s' c = true -> has_parent s c = true.
Proof.
  intros (_ & _ & Hp & _) H. unfold has_parent in *.
  destruct (Hp c) as [E|E]; rewrite E in H; [exact H | discriminate].
Qed.

Lemma pruned_trans (s s' s'' : store) :
  pruned s s' -> pruned s' s'' -> pruned s s''.
Proof.
  intros H1 H2. pose proof (pruned_has_parent s' s'') as Hhp.
  specialize (fun c => Hhp c H2).
  destruct H1 as (L1 & D1 & P1 & C1), H2 as (L2 & D2 & P2 & C2).
  split; [congruence|]. split.
  { intros x. destruct (D1 x) as (a1 & a2 & a3 & a4 & a5).
    destruct (D2 x) as (b1 & b2 & b3 & b4 & b5).
    repeat split; congruence. }
  split.
  { intros x. destruct (P2 x) as [E|E]; [|right; exact E].
    rewrite E. apply P1. }
  intros x. rewrite C2, C1, filter_filter_and. apply filter_ext_on.
  intros c _. destruct (has_parent s'' c) eqn:E; [|apply andb_false_r].
  rewrite (Hhp c E). reflexivity.
Qed.

Lemma pruned_parents_agree (s s' : store) :
  pruned s s' -> parents_agree s -> parents_agree s'.
Proof.
  intros (_ & _ & Hp & Hc) Hpa x c Hin. rewrite Hc in Hin.
  apply filter_In in Hin as [Hin Hhas]. unfold has_parent in Hhas.
  destruct (Hp c) as [E|E]; rewrite E in Hhas |- *; [|discriminate].
  apply Hpa, Hin.
Qed.

Lemma pruned_children_sublist (s s' : store) (x : ref) :
  pruned s s' -> sublist (getchildren s' x) (getchildren s x).
Proof. intros (_ & _ & _ & Hc). rewrite Hc. apply filter_sublist. Qed.

Lemma desc_fuel_sublist (s s' : store) :
  (forall x, sublist (getchildren s' x) (getchildren s x)) ->
  forall f r, sublist (desc_fuel f s' r) (desc_fuel f s r).
Proof.
  intros Hsub. induction f as [|f IH]; intros r; [constructor|].
  cbn [desc_fuel]. specialize (Hsub r).
  induction Hsub as [|c l1 l2 _ IHl|c l1 l2 _ IHl]; cbn [flat_map].
  - constructor.
  - apply sublist_skip, sublist_app; [apply IH | exact IHl].
  - apply sublist_cons, sublist_inserts_l, IHl.
Qed.

Lemma pruned_descendants (s s' : store) (r : ref) :
  pruned s s' ->
  sublist (iterdescendants_s s' r) (iterdescendants_s s r).
Proof.
  intros H. unfold iterdescendants_s. rewrite (proj1 H).
  apply desc_fuel_sublist. intros x. apply pruned_children_sublist, H.
Qed.

Lemma pruned_forest_at (s s' : store) (node : ref) :
  pruned s s' -> forest_at s node -> forest_at s' node.
Proof.
  intros H [Hpa Hnd]. split; [eapply pruned_parents_agree; eassumption|].
  apply NoDup_ListNoDup. eapply sublist_NoDup.
  - apply NoDup_ListNoDup, Hnd.
  - apply pruned_descendants, H.
Qed.

Lemma pruned_xpath (s s' : store) (node : ref) (t : string) (x : ref) :
  pruned s s' -> In x (xpath_s s' node t) -> In x (xpath_s s node t).
Proof.
  intros H Hx. unfold xpath_s in *. apply filter_In in Hx as [Hx Ht].
  apply filter_In. split.
  - apply list_elem_of_In. eapply elem_of_sublist;
      [apply list_elem_of_In, Hx | apply pruned_descendants, H].
  - destruct H as (_ & D & _). destruct (D x) as [<- _]. exact Ht.
Qed.

(** A loop over distinct elements that have a parent, each round of which
    removes the element from its parent or does nothing. *)
Lemma prune_loop (body : ref -> M unit) (Q : ref -> Prop) :
  (forall n s, body n s = Ok (tt, s)
               \/ (Q n /\ body n s = remove_from_parent n s)) ->
  forall (l : list ref) (s : store),
    List.NoDup l ->
    parents_agree s ->
    (forall d, In d l -> has_parent s d = true) ->
    exists s',
      for_each l body s = Ok (tt, s')
      /\ pruned s s'
      /\ (forall x, getparent s' x <> getparent s x -> In x l /\ Q x).
Proof.
  intros Hbody. induction l as [|n l IH]; intros s Hnd Hpa Hpar.
  - exists s. split; [reflexivity|]. split; [apply pruned_refl, Hpa|].
    intros x Hx. congruence.
  - apply List.NoDup_cons_iff in Hnd as [Hn Hnd].
    cbn [for_each]. unfold bind_of, mbind, M_bind.
    destruct (Hbody n s) as [E|[Hq E]]; rewrite E.
    + destruct (IH s Hnd Hpa) as (s' & Hrun & Hpr & Hch).
      { intros d Hd. apply Hpar. right. exact Hd. }
      exists s'. split; [exact Hrun|]. split; [exact Hpr|].
      intros x Hx. destruct (Hch x Hx) as [Hin Hqx].
      split; [right; exact Hin | exact Hqx].
    + pose proof (Hpar n (or_introl eq_refl)) as Hhas.
      unfold has_parent in Hhas.
      destruct (getparent s n) as [p|] eqn:Hp; [|discriminate].
      rewrite (remove_from_parent_detach s n p Hp).
      destruct (IH (detach n s) Hnd (detach_parents_agree s n p Hp Hpa))
        as (s' & Hrun & Hpr & Hch).
      { intros d Hd. unfold has_parent.
        rewrite (detach_parent_other s n p Hp).
        - apply (Hpar d). right. exact Hd.
        - intros ->. contradiction. }
      exists s'. split; [exact Hrun|]. split.
      { eapply pruned_trans; [apply (pruned_detach s n p Hpa Hp) | exact Hpr]. }
      intros x Hx.
      destruct (decide (getparent s' x = getparent (detach n s) x)) as [E'|E'].
      * destruct (Nat.eq_dec x n) as [->|Hne];
          [split; [left; reflexivity | exact Hq]|].
        rewrite E', (detach_parent_other s n p Hp x Hne) in Hx. congruence.
      * destruct (Hch x E') as [Hin Hqx]. split; [right; exact Hin | exact Hqx].
Qed.

(** The same loop over the result of an XPath query. *)
Lemma prune_pass (body : ref -> M unit) (Q : ref -> Prop) (node : ref)
  (t : string) (s : store) :
  (forall n s, body n s = Ok (tt, s)
               \/ (Q n /\ body n s = remove_from_parent n s)) ->
  forest_at s node ->
  exists s',
    for_each (xpath_s s node t) body s = Ok (tt, s')
    /\ pruned s s'
    /\ forest_at s' node
    /\ (forall x, getparent s' x <> getparent s x ->
                  In x (xpath_s s node t) /\ Q x).
Proof.
  intros Hbody [Hpa Hnd].
  destruct (prune_loop body Q Hbody (xpath_s s node t) s)
    as (s' & Hrun & Hpr & Hch).
  - unfold xpath_s. apply List.NoDup_filter, Hnd.
  - exact Hpa.
  - intros d Hd. unfold xpath_s in Hd. apply filter_In in Hd as [Hd _].
    apply desc_fuel_child in Hd as [x Hx].
    eapply has_parent_agree; eassumption.
  - exists s'. split; [exact Hrun|]. split; [exact Hpr|].
    split; [|exact Hch]. eapply pruned_forest_at; [exact Hpr|].
    split; assumption.
Qed.

Lemma clean_conditionally_pass (flags : Z) (s : store) (node : ref)
  (t : string) :
  forest_at s node ->
  exists s',
    clean_conditionally flags node t s = Ok (tt, s')
    /\ pruned s s'
    /\ forest_at s' node
    /\ (forall x, getparent s' x <> getparent s x ->
          In x (xpath_s s node t) /\ x <> node
          /\ flag_on flags FLAG_CLEAN_CONDITIONALLY = true).
Proof.
  intros Hfo. unfold clean_conditionally.
  destruct (flag_on flags FLAG_CLEAN_CONDITIONALLY) eqn:Hflag; cbn [negb].
  2:{ exists s. split; [reflexivity|]. split; [apply pruned_refl, Hfo|].
      split; [exact Hfo | congruence]. }
  rewrite bind_gets.
  match goal with
  | |- context [for_each _ ?b] =>
      destruct (prune_pass b (fun x => x <> node) node t s)
        as (s' & Hrun & Hpr & Hfo' & Hch)
  end.
  - intros n s0. cbv beta. destruct (Nat.eqb n node) eqn:En;
      [left; reflexivity|].
    apply Nat.eqb_neq in En. rewrite !bind_gets.
    destruct (Qltb _ 0); [right; split; [exact En | reflexivity]|].
    rewrite bind_gets. destruct (_ <? 10); [|left; reflexivity].
    rewrite bind_gets.
    destruct (conditionally_removed _ _ _ _ _ _ _ _ _);
      [right; split; [exact En | reflexivity] | left; reflexivity].
  - exact Hfo.
  - exists s'. split; [exact Hrun|]. split; [exact Hpr|].
    split; [exact Hfo'|]. intros x Hx. destruct (Hch x Hx) as [Hin Hne].
    repeat split; assumption.
Qed.

(** X7: [clean_conditionally(node, t)] raises no exception on a store made
    of trees, and all it does is remove elements from their parents: the
    only elements that can lose their parent are those [node.xpath] finds
    for the tag [t], [node] itself never, and none when the flag
    CLEAN_CONDITIONALLY is off; no tag, attribute, text or score changes,
    no element is added or moved. *)
Theorem clean_conditionally_prunes (flags : Z) (s : store) (node : ref)
  (t : string) :
  parents_ok s = true ->
  List.NoDup (iterdescendants_s s node) ->
  exists s',
    clean_conditionally flags node t s = Ok (tt, s')
    /\ pruned s s'
    /\ (forall x, getparent s' x <> getparent s x ->
          In x (xpath_s s node t) /\ x <> node
          /\ flag_on flags FLAG_CLEAN_CONDITIONALLY = true).
Proof.
  intros Hok Hnd.
  destruct (clean_conditionally_pass flags s node t)
    as (s' & Hrun & Hpr & _ & Hch).
  - split; [apply parents_ok_agree, Hok | exact Hnd].
  - exists s'. auto.
Qed.

(** Of the two forms of [doc_forms], the one of class [comment] is
    removed, the one with thirty characters of text is kept. *)
Lemma clean_conditionally_prunes_witness :
  let s0 := snd (load None doc_forms []) in
  exists s',
    clean_conditionally init_flags 0%nat "form" s0 = Ok (tt, s')
    /\ pruned s0 s'
    /\ getparent s' 1%nat = None
    /\ getparent s' 2%nat = Some 0%nat.
Proof.
  cbv zeta. set (s0 := snd (load None doc_forms [])).
  destruct (clean_conditionally_prunes init_flags s0 0%nat "form")
    as (s' & Hrun & Hpr & _).
  - vm_compute. reflexivity.
  - vm_compute. repeat constructor; simpl; intuition discriminate.
  - exists s'. split; [exact Hrun|]. split; [exact Hpr|].
    pose proof Hrun as H. vm_compute in H. injection H as <-.
    split; reflexivity.
Defined.

(** Several XPath queries in a row, each followed by such a loop. *)
Lemma prune_passes (body : string -> ref -> M unit) (node : ref) :
  (forall t n s, body t n s = Ok (tt, s)
                 \/ body t n s = remove_from_parent n s) ->
  forall (tags : list string) (s : store),
    forest_at s node ->
    exists s',
      for_each tags (fun t =>
        let* hs := gets (fun s => xpath_s s node t) in
        for_each hs (body t)) s = Ok (tt, s')
      /\ pruned s s'
      /\ forest_at s' node
      /\ (forall x, getparent s' x <> getparent s x ->
            exists t, In t tags /\ In x (xpath_s s node t)).
Proof.
  intros Hbody. induction tags as [|t tags IH]; intros s Hfo.
  - exists s. split; [reflexivity|]. split; [apply pruned_refl, Hfo|].
    split; [exact Hfo | congruence].
  - cbn [for_each]. unfold bind_of at 1. unfold mbind, M_bind.
    rewrite bind_gets.
    destruct (prune_pass (body t) (fun _ => True) node t s)
      as (s1 & Hrun1 & Hpr1 & Hfo1 & Hch1); [|exact Hfo|].
    { intros n s0. destruct (Hbody t n s0) as [E|E]; auto. }
    rewrite Hrun1.
    destruct (IH s1 Hfo1) as (s' & Hrun & Hpr & Hfo' & Hch).
    exists s'. split; [exact Hrun|].
    split; [eapply pruned_trans; eassumption|]. split; [exact Hfo'|].
    intros x Hx.
    destruct (decide (getparent s' x = getparent s1 x)) as [E|E].
    + rewrite E in Hx. destruct (Hch1 x Hx) as [Hin _].
      exists t. split; [left; reflexivity | exact Hin].
    + destruct (Hch x E) as (t' & Ht' & Hin). exists t'.
      split; [right; exact Ht' | eapply pruned_xpath; eassumption].
Qed.

Lemma clean_headers_pass (flags : Z) (s : store) (node : ref) :
  forest_at s node ->
  exists s',
    clean_headers flags node s = Ok (tt, s')
    /\ pruned s s'
    /\ forest_at s' node
    /\ (forall x, getparent s' x <> getparent s x ->
          exists t, In t ["h0"; "h1"; "h2"] /\ In x (xpath_s s node t)).
Proof.
  intros Hfo. unfold clean_headers.
  apply (prune_passes
    (fun _ n =>
       let* cw := gets (fun s => get_class_weight flags (shallow s n)) in
       let* ld := gets (fun s => s_link_density s n) in
       if ((cw <? 0) || Qltb (33 # 100) ld)%bool then remove_from_parent n
       else mret tt) node); [|exact Hfo].
  intros _ n s0. rewrite !bind_gets.
  destruct (_ || _)%bool; [right | left]; reflexivity.
Qed.

(** X8: [clean_headers] asks for the tags [h0], [h1] and [h2]
    ([range(0, 3)]): it raises no exception on a store made of trees, and
    the only elements that can lose their parent are elements below
    [node] with one of these three tags, so a heading [h3] to [h6] is
    never removed by it; nothing else changes. *)
Theorem clean_headers_prunes (flags : Z) (s : store) (node : ref) :
  parents_ok s = true ->
  List.NoDup (iterdescendants_s s node) ->
  exists s',
    clean_headers flags node s = Ok (tt, s')
    /\ pruned s s'
    /\ (forall x, getparent s' x <> getparent s x ->
          In x (iterdescendants_s s node)
          /\ In (e_tag (rd s x)) ["h0"; "h1"; "h2"])
    /\ (forall x, In (e_tag (rd s x)) ["h3"; "h4"; "h5"; "h6"] ->
          getparent s' x = getparent s x).
Proof.
  intros Hok Hnd.
  destruct (clean_headers_pass flags s node)
    as (s' & Hrun & Hpr & _ & Hch).
  { split; [apply parents_ok_agree, Hok | exact Hnd]. }
  assert (Hch' : forall x, getparent s' x <> getparent s x ->
            In x (iterdescendants_s s node)
            /\ In (e_tag (rd s x)) ["h0"; "h1"; "h2"]).
  { intros x Hx. destruct (Hch x Hx) as (t & Ht & Hin).
    unfold xpath_s in Hin. apply filter_In in Hin as [Hin Htag].
    apply String.eqb_eq in Htag. rewrite Htag. split; assumption. }
  exists s'. split; [exact Hrun|]. split; [exact Hpr|].
  split; [exact Hch'|]. intros x Hx.
  destruct (decide (getparent s' x = getparent s x)) as [E|E]; [exact E|].
  destruct (Hch' x E) as [_ Hin]. exfalso.
  cbn [In] in Hx, Hin.
  destruct Hin as [H|[H|[H|[]]]]; rewrite <- H in Hx;
    destruct Hx as [H'|[H'|[H'|[H'|[]]]]]; discriminate.
Qed.

(** Of the two headings of class [comment] in [doc_headers], the [h1] is
    removed and the [h3] is kept. *)
Lemma clean_headers_prunes_witness :
  let s0 := snd (load None doc_headers []) in
  exists s',
    clean_headers init_flags 0%nat s0 = Ok (tt, s')
    /\ getparent s' 1%nat = None
    /\ getparent s' 2%nat = Some 0%nat.
Proof.
  cbv zeta. set (s0 := snd (load None doc_headers [])).
  destruct (clean_headers_prunes init_flags s0 0%nat)
    as (s' & Hrun & _ & _ & Hkeep).
  - vm_compute. reflexivity.
  - vm_compute. repeat constructor; simpl; intuition discriminate.
  - exists s'. split; [exact Hrun|]. split.
    + pose proof Hrun as H. vm_compute in H. injection H as <-. reflexivity.
    + rewrite (Hkeep 2%nat); [reflexivity|]. vm_compute. tauto.
Defined.

Lemma prunes_ret (tags : list string) (node : ref) :
  prunes tags node (mret tt).
Proof.
  intros s Hfo. exists s. split; [reflexivity|].
  split; [apply pruned_refl, Hfo|]. split; [exact Hfo | congruence].
Qed.

Lemma prunes_sub (tags tags' : list string) (node : ref) (m : M unit) :
  incl tags tags' -> prunes tags node m -> prunes tags' node m.
Proof.
  intros Hincl Hm s Hfo. destruct (Hm s Hfo) as (s' & Hrun & Hpr & Hfo' & Hch).
  exists s'. repeat (split; [assumption|]). intros x Hx.
  destruct (Hch x Hx) as (t & Ht & Hin). exists t. split; [apply Hincl, Ht|].
  exact Hin.
Qed.

Lemma prunes_seq (tags : list string) (node : ref) (m1 m2 : M unit) :
  prunes tags node m1 -> prunes tags node m2 -> prunes tags node (m1 ;; m2).
Proof.
  intros H1 H2 s Hfo.
  destruct (H1 s Hfo) as (s1 & Hrun1 & Hpr1 & Hfo1 & Hch1).
  destruct (H2 s1 Hfo1) as (s' & Hrun2 & Hpr2 & Hfo2 & Hch2).
  exists s'. split.
  { unfold bind_of, mbind, M_bind. rewrite Hrun1. exact Hrun2. }
  split; [eapply pruned_trans; eassumption|]. split; [exact Hfo2|].
  intros x Hx.
  destruct (decide (getparent s' x = getparent s1 x)) as [E|E].
  - rewrite E in Hx. apply Hch1, Hx.
  - destruct (Hch2 x E) as (t & Ht & Hin). exists t.
    split; [exact Ht | eapply pruned_xpath; eassumption].
Qed.

Lemma prunes_gets {A} (tags : list string) (node : ref) (f : store -> A)
  (k : A -> M unit) :
  (forall a, prunes tags node (k a)) ->
  prunes tags node (let* a := gets f in k a).
Proof. intros H s Hfo. rewrite bind_gets. apply H, Hfo. Qed.

Lemma prunes_clean (node : ref) (t : string) :
  prunes [t] node (clean node t).
Proof.
  intros s Hfo. unfold clean. rewrite bind_gets.
  match goal with
  | |- context [for_each _ ?b] =>
      destruct (prune_pass b (fun _ => True) node t s)
        as (s' & Hrun & Hpr & Hfo' & Hch)
  end.
  - intros n s0. cbv beta. rewrite bind_gets.
    destruct (_ && _)%bool; [left | right]; auto.
  - exact Hfo.
  - exists s'. repeat (split; [assumption|]). intros x Hx.
    exists t. split; [left; reflexivity | apply Hch, Hx].
Qed.

Lemma prunes_clean_conditionally (flags : Z) (node : ref) (t : string) :
  prunes [t] node (clean_conditionally flags node t).
Proof.
  intros s Hfo.
  destruct (clean_conditionally_pass flags s node t Hfo)
    as (s' & Hrun & Hpr & Hfo' & Hch).
  exists s'. repeat (split; [assumption|]). intros x Hx.
  exists t. split; [left; reflexivity | apply Hch, Hx].
Qed.

Lemma prunes_clean_headers (flags : Z) (node : ref) :
  prunes ["h0"; "h1"; "h2"] node (clean_headers flags node).
Proof. intros s Hfo. apply clean_headers_pass, Hfo. Qed.

Lemma remove_extra_paragraphs_skip (content : ref) (s : store) :
  remove_extra_paragraphs content s = Ok (tt, s).
Proof.
  unfold remove_extra_paragraphs. rewrite bind_gets.
  apply for_each_noop. intros n s0. reflexivity.
Qed.

Lemma prunes_remove_extra_paragraphs (tags : list string) (content : ref) :
  prunes tags content (remove_extra_paragraphs content).
Proof.
  intros s Hfo. rewrite remove_extra_paragraphs_skip.
  apply (prunes_ret tags content s Hfo).
Qed.

(** ** [clean]: a second call changes nothing *)

Lemma for_each_skip {A} (l : list A) (body : A -> M unit) (s : store) :
  (forall x, In x l -> body x s = Ok (tt, s)) ->
  for_each l body s = Ok (tt, s).
Proof.
  induction l as [|x l IH]; intros H; [reflexivity|].
  cbn [for_each]. unfold bind_of, mbind, M_bind.
  rewrite (H x (or_introl eq_refl)). apply IH.
  intros y Hy. apply H. right. exact Hy.
Qed.

(** X9: [clean(node, t)] is idempotent: on a store made of trees the
    call succeeds, the elements of tag [t] that are left below [node]
    are exempted ones, and a second call with the same arguments
    succeeds and changes nothing. *)
Theorem clean_idempotent (s : store) (node : ref) (t : string) :
  parents_ok s = true ->
  List.NoDup (iterdescendants_s s node) ->
  exists s',
    clean node t s = Ok (tt, s')
    /\ (forall x, In x (xpath_s s' node t) -> exempt t s' x = true)
    /\ clean node t s' = Ok (tt, s')
    /\ (clean node t;; clean node t) s = clean node t s.
Proof.
  intros Hok Hnd. pose proof (parents_ok_agree s Hok) as Hpa.
  assert (Hnd' : List.NoDup (xpath_s s node t)).
  { unfold xpath_s. apply List.NoDup_filter, Hnd. }
  destruct (clean_loop t (xpath_s s node t) s Hnd' Hpa)
    as (s' & Hrun & Hpa' & Hlen & Hta & Hch & Hrm & Hkeep).
  { intros d Hd. unfold xpath_s in Hd. apply filter_In in Hd as [Hd _].
    apply desc_fuel_child in Hd as [x Hx]. exists x. apply Hpa, Hx. }
  assert (Hex : forall x, In x (xpath_s s' node t) -> exempt t s' x = true).
  { intros x Hx. unfold xpath_s in Hx. apply filter_In in Hx as [Hx Htag].
    assert (Hin : In x (xpath_s s node t)).
    { unfold xpath_s. apply filter_In. split.
      - unfold iterdescendants_s in *. rewrite Hlen in Hx.
        eapply desc_fuel_incl; [exact Hch | exact Hx].
      - destruct (Hta x) as [<- _]. exact Htag. }
    assert (E : exempt t s' x = exempt t s x).
    { unfold exempt, is_video. destruct (Hta x) as [_ ->]. reflexivity. }
    rewrite E. destruct (exempt t s x) eqn:Ex; [reflexivity|]. exfalso.
    apply desc_fuel_child in Hx as [p Hp]. apply Hpa' in Hp.
    rewrite (Hrm x Hin Ex) in Hp. discriminate. }
  assert (Hrun1 : clean node t s = Ok (tt, s')).
  { unfold clean. rewrite bind_gets. exact Hrun. }
  assert (Hrun2 : clean node t s' = Ok (tt, s')).
  { unfold clean. rewrite bind_gets. apply for_each_skip.
    intros x Hx. rewrite bind_gets. specialize (Hex x Hx).
    unfold exempt in Hex. rewrite Hex. reflexivity. }
  exists s'. split; [exact Hrun1|]. split; [exact Hex|].
  split; [exact Hrun2|].
  unfold bind_of at 1. unfold mbind, M_bind. rewrite Hrun1. exact Hrun2.
Qed.

Lemma clean_idempotent_witness :
  let s0 := snd (load None doc_embeds []) in
  exists s',
    clean 0%nat "embed" s0 = Ok (tt, s')
    /\ xpath_s s' 0%nat "embed" = [1%nat]
    /\ clean 0%nat "embed" s' = Ok (tt, s').
Proof.
  cbv zeta. set (s0 := snd (load None doc_embeds [])).
  destruct (clean_idempotent s0 0%nat "embed")
    as (s' & Hrun & _ & Hrun2 & _).
  - vm_compute. reflexivity.
  - vm_compute. repeat constructor; simpl; intuition discriminate.
  - exists s'. split; [exact Hrun|]. split; [|exact Hrun2].
    pose proof Hrun as H. vm_compute in H. injection H as <-. reflexivity.
Defined.

(** ** [clean_styles] *)

Lemma attr_del_absent (key : string) (a : list (string * string)) :
  attr_has key a = false -> attr_del key a = a.
Proof.
  unfold attr_has, attr_del. intros H. apply filter_all. intros kv Hkv.
  apply negb_true_iff, not_true_is_false. intros E.
  assert (Hex : existsb (fun kv => String.eqb (fst kv) key) a = true)
    by (apply existsb_exists; eauto).
  congruence.
Qed.

Lemma attr_has_del (key : string) (a : list (string * string)) :
  attr_has key (attr_del key a) = false.
Proof.
  unfold attr_has, attr_del. apply not_true_is_false. intros H.
  apply existsb_exists in H as (kv & Hin & E).
  apply filter_In in Hin as [_ Hne]. rewrite E in Hne. discriminate.
Qed.

Lemma attr_get_del (key k dflt : string) (a : list (string * string)) :
  k <> key -> attr_get k (attr_del key a) dflt = attr_get k a dflt.
Proof.
  intros Hne. unfold attr_del.
  induction a as [|[k' v] a IH]; [reflexivity|].
  cbn [List.filter fst attr_get].
  destruct (String.eqb k' key) eqn:E; cbn [negb attr_get].
  - apply String.eqb_eq in E. subst k'.
    destruct (String.eqb key k) eqn:E'; [|exact IH].
    apply String.eqb_eq in E'. congruence.
  - rewrite IH. reflexivity.
Qed.

Lemma strip_unstyled (e : elem) :
  (if attr_has "style" (e_attrib e)
   then with_attrib (attr_del "style" (e_attrib e)) e else e)
  = unstyled e.
Proof.
  unfold unstyled. destruct (attr_has "style" (e_attrib e)) eqn:E;
    [reflexivity|].
  rewrite (attr_del_absent _ _ E). destruct e. reflexivity.
Qed.

Lemma unstyled_idem (e : elem) : unstyled (unstyled e) = unstyled e.
Proof.
  unfold unstyled. cbn [with_attrib e_attrib e_tag e_text e_tail e_children
                          e_parent e_readable].
  rewrite (attr_del_absent "style" (attr_del "style" (e_attrib e)))
    by apply attr_has_del.
  reflexivity.
Qed.

Lemma rd_upd_unstyled (s : store) (x y : ref) :
  rd (upd x unstyled s) y
  = if Nat.eqb y x then unstyled (rd s y) else rd s y.
Proof.
  destruct (Nat.eqb y x) eqn:E.
  - apply Nat.eqb_eq in E. subst y.
    destruct (le_lt_dec (length s) x) as [Hge|Hlt].
    + rewrite !rd_out_of_range by (rewrite ?length_upd; exact Hge).
      reflexivity.
    + apply rd_upd_eq, Hlt.
  - apply Nat.eqb_neq in E. apply rd_upd_ne, E.
Qed.

Lemma length_unstyled_all (l : list ref) :
  forall s, length (unstyled_all l s) = length s.
Proof.
  induction l as [|a l IH]; intros s; [reflexivity|].
  cbn [unstyled_all fold_left]. fold (unstyled_all l (upd a unstyled s)).
  rewrite IH. apply length_upd.
Qed.

Lemma rd_unstyled_all (l : list ref) (x : ref) :
  forall s,
    rd (unstyled_all l s) x
    = if existsb (Nat.eqb x) l then unstyled (rd s x) else rd s x.
Proof.
  induction l as [|a l IH]; intros s; [reflexivity|].
  cbn [unstyled_all fold_left existsb].
  fold (unstyled_all l (upd a unstyled s)).
  rewrite IH, rd_upd_unstyled.
  destruct (Nat.eqb x a), (existsb (Nat.eqb x) l); cbn [orb];
    rewrite ?unstyled_idem; reflexivity.
Qed.

Lemma unstyled_all_app (l1 l2 : list ref) (s : store) :
  unstyled_all (l1 ++ l2) s = unstyled_all l2 (unstyled_all l1 s).
Proof. unfold unstyled_all. apply fold_left_app. Qed.

Lemma getchildren_unstyled_all (l : list ref) (s : store) (x : ref) :
  getchildren (unstyled_all l s) x = getchildren s x.
Proof.
  unfold getchildren. rewrite rd_unstyled_all.
  destruct (existsb _ l); reflexivity.
Qed.

Lemma getparent_unstyled_all (l : list ref) (s : store) (x : ref) :
  getparent (unstyled_all l s) x = getparent s x.
Proof.
  unfold getparent. rewrite rd_unstyled_all.
  destruct (existsb _ l); reflexivity.
Qed.

Lemma desc_fuel_same_children (s s' : store) :
  (forall x, getchildren s' x = getchildren s x) ->
  forall f r, desc_fuel f s' r = desc_fuel f s r.
Proof.
  intros H. induction f as [|f IH]; intros r; [reflexivity|].
  cbn [desc_fuel]. rewrite H. apply flat_map_ext_on. intros c _.
  rewrite IH. reflexivity.
Qed.

Lemma clean_styles_step (f : nat) (n : ref) (s : store) :
  clean_styles_fuel (S f) n s
  = for_each (getchildren s n) (clean_styles_fuel f) (upd n unstyled s).
Proof.
  cbn [clean_styles_fuel]. unfold bind_of at 1. unfold mbind, M_bind, modify.
  rewrite bind_gets. f_equal.
  - unfold getchildren. apply rd_upd_proj.
    intros e. destruct (attr_has "style" (e_attrib e)); reflexivity.
  - unfold upd. apply list_alter_ext; [|reflexivity].
    intros e _. apply strip_unstyled.
Qed.

(** The traversal of [clean_styles] reaches the element and its
    descendants; the size of the store is fuel enough. *)
Lemma clean_styles_fuel_run (s0 : store) :
  parents_agree s0 -> acyclic s0 = true ->
  forall (f k : nat) (n : ref) (s : store),
    (forall x, getchildren s x = getchildren s0 x) ->
    rises k s0 n = false -> (length s0 <= S (k + f))%nat ->
    clean_styles_fuel f n s
    = Ok (tt, unstyled_all (n :: desc_fuel f s0 n) s).
Proof.
  intros Hpa Hac. induction f as [|f IH]; intros k n s Hsh Hk Hlen.
  - assert (Hcs : getchildren s0 n = []).
    { destruct (getchildren s0 n) as [|c cs] eqn:Hcs; [reflexivity|].
      exfalso.
      assert (Hc : In c (getchildren s0 n))
        by (rewrite Hcs; left; reflexivity).
      pose proof (Hpa n c Hc) as Hp.
      assert (Hr : rises (length s0) s0 c = true).
      { unfold acyclic in Hac. rewrite forallb_forall in Hac.
        apply Hac, in_seq.
        pose proof (getparent_in_range s0 c n Hp). lia. }
      apply (rises_le s0 _ (S k)) in Hr; [|lia].
      cbn [rises] in Hr. rewrite Hp in Hr. congruence. }
    cbn [clean_styles_fuel desc_fuel unstyled_all fold_left].
    unfold bind_of at 1. unfold mbind, M_bind, modify. rewrite bind_gets.
    assert (E : getchildren
                  (upd n (fun e =>
                     if attr_has "style" (e_attrib e)
                     then with_attrib (attr_del "style" (e_attrib e)) e
                     else e) s) n = []).
    { rewrite <- Hcs, <- Hsh. unfold getchildren. apply rd_upd_proj.
      intros e. destruct (attr_has "style" (e_attrib e)); reflexivity. }
    rewrite E. unfold mret, M_ret. do 2 f_equal.
    unfold upd. apply list_alter_ext; [|reflexivity].
    intros e _. apply strip_unstyled.
  - rewrite clean_styles_step, Hsh.
    cbn [unstyled_all fold_left desc_fuel].
    fold (unstyled_all
            (flat_map (fun c => c :: desc_fuel f s0 c) (getchildren s0 n))
            (upd n unstyled s)).
    assert (Hsh1 : forall x,
      getchildren (upd n unstyled s) x = getchildren s0 x).
    { intros x. rewrite <- Hsh. unfold getchildren. apply rd_upd_proj.
      reflexivity. }
    assert (Hcs : forall c, In c (getchildren s0 n) ->
                            In c (getchildren s0 n)) by auto.
    revert Hcs Hsh1. generalize (upd n unstyled s).
    generalize (getchildren s0 n) at 1 3 4. intros cs.
    induction cs as [|c cs IHcs]; intros s1 Hcs Hsh1; [reflexivity|].
    cbn [for_each flat_map]. unfold bind_of, mbind, M_bind.
    rewrite (IH (S k) c s1 Hsh1);
      [|cbn [rises]; rewrite (Hpa n c (Hcs c (or_introl eq_refl))); exact Hk
       |lia].
    change (c :: desc_fuel f s0 c ++
              flat_map (fun c => c :: desc_fuel f s0 c) cs)
      with ((c :: desc_fuel f s0 c) ++
              flat_map (fun c => c :: desc_fuel f s0 c) cs).
    rewrite unstyled_all_app. apply IHcs.
    + intros c' Hc'. apply Hcs. right. exact Hc'.
    + intros x. rewrite getchildren_unstyled_all. apply Hsh1.
Qed.

Lemma clean_styles_run (s : store) (n : ref) :
  parents_agree s -> acyclic s = true ->
  clean_styles n s = Ok (tt, unstyled_all (n :: iterdescendants_s s n) s).
Proof.
  intros Hpa Hac. unfold clean_styles, iterdescendants_s.
  apply (clean_styles_fuel_run s Hpa Hac (length s) 0%nat);
    [reflexivity | reflexivity | lia].
Qed.

(** X10: on a store made of trees, [clean_styles(node)] raises no
    exception and deletes the [style] attribute of [node] and of every
    element below it: these elements have no [style] attribute
    afterwards, their other attributes keep their values, and an element
    that is not in the subtree of [node] is left as it was.  Nothing but
    attributes changes. *)
Theorem clean_styles_spec (s : store) (node : ref) :
  parents_ok s = true ->
  acyclic s = true ->
  exists s',
    clean_styles node s = Ok (tt, s')
    /\ length s' = length s
    /\ (forall x, rd s' x
                  = if in_subtree s node x then unstyled (rd s x) else rd s x)
    /\ (forall x, in_subtree s node x = true ->
          attr_has "style" (e_attrib (rd s' x)) = false
          /\ forall k dflt, k <> "style" ->
               attr_get k (e_attrib (rd s' x)) dflt
               = attr_get k (e_attrib (rd s x)) dflt).
Proof.
  intros Hok Hac. pose proof (parents_ok_agree s Hok) as Hpa.
  exists (unstyled_all (node :: iterdescendants_s s node) s).
  split; [apply clean_styles_run; assumption|].
  split; [apply length_unstyled_all|].
  assert (Hrd : forall x,
    rd (unstyled_all (node :: iterdescendants_s s node) s) x
    = if in_subtree s node x then unstyled (rd s x) else rd s x).
  { intros x. rewrite rd_unstyled_all. reflexivity. }
  split; [exact Hrd|]. intros x Hx. rewrite Hrd, Hx.
  unfold unstyled. cbn [with_attrib e_attrib].
  split; [apply attr_has_del|]. intros k dflt Hk. apply attr_get_del, Hk.
Qed.

Lemma clean_styles_spec_witness :
  exists s',
    clean_styles 0%nat store_styled = Ok (tt, s')
    /\ map (fun x => e_attrib (rd s' x)) [0; 1; 2]%nat
       = [[]; [("class", "c")]; [("style", "d")]].
Proof.
  destruct (clean_styles_spec store_styled 0%nat)
    as (s' & Hrun & _ & Hrd & _).
  - vm_compute. reflexivity.
  - vm_compute. reflexivity.
  - exists s'. split; [exact Hrun|].
    cbn [map]. rewrite !Hrd. vm_compute. reflexivity.
Defined.

(** ** [prep_article] *)

Lemma forest_at_unstyled_all (l : list ref) (s : store) (node : ref) :
  forest_at s node -> forest_at (unstyled_all l s) node.
Proof.
  intros [Hpa Hnd]. split.
  - intros p c Hc. rewrite getchildren_unstyled_all in Hc.
    rewrite getparent_unstyled_all. apply Hpa, Hc.
  - unfold iterdescendants_s. rewrite length_unstyled_all.
    rewrite (desc_fuel_same_children s (unstyled_all l s));
      [exact Hnd|].
    intros x. apply getchildren_unstyled_all.
Qed.

Local Ltac one_of_tags :=
  intros ? [<-|[]]; unfold prep_article_tags; simpl; tauto.

(** What follows [clean_styles] in [prep_article] only removes elements. *)
Lemma prep_article_passes (flags : Z) (content : ref) :
  prunes prep_article_tags content
    (clean_conditionally flags content "form";;
     clean content "object";;
     clean content "h1";;
     let* h2s := gets (fun s => xpath_s s content "h2") in
     (if Nat.eqb (length h2s) 1 then clean content "h2" else mret tt);;
     clean content "iframe";;
     clean_headers flags content;;
     clean_conditionally flags content "table";;
     clean_conditionally flags content "ul";;
     clean_conditionally flags content "div";;
     remove_extra_paragraphs content).
Proof.
  apply prunes_seq;
    [eapply prunes_sub; [|apply prunes_clean_conditionally]; one_of_tags|].
  apply prunes_seq; [eapply prunes_sub; [|apply prunes_clean]; one_of_tags|].
  apply prunes_seq; [eapply prunes_sub; [|apply prunes_clean]; one_of_tags|].
  apply prunes_gets. intros h2s.
  apply prunes_seq.
  { destruct (Nat.eqb (length h2s) 1); [|apply prunes_ret].
    eapply prunes_sub; [|apply prunes_clean]. one_of_tags. }
  apply prunes_seq; [eapply prunes_sub; [|apply prunes_clean]; one_of_tags|].
  apply prunes_seq.
  { eapply prunes_sub; [|apply prunes_clean_headers].
    intros t [<-|[<-|[<-|[]]]]; unfold prep_article_tags; simpl; tauto. }
  apply prunes_seq;
    [eapply prunes_sub; [|apply prunes_clean_conditionally]; one_of_tags|].
  apply prunes_seq;
    [eapply prunes_sub; [|apply prunes_clean_conditionally]; one_of_tags|].
  apply prunes_seq;
    [eapply prunes_sub; [|apply prunes_clean_conditionally]; one_of_tags|].
  apply prunes_remove_extra_paragraphs.
Qed.

(** X11: on a store made of trees, [prep_article(content)] raises no
    exception.  It adds and moves no element and changes no tag, text or
    score; the elements of the subtree of [content] lose their [style]
    attribute and no other attribute changes; an element has the parent
    it had or none, and the children of an element are those it had, in
    the same order, less the removed ones.  The elements removed from
    their parents were below [content] and have one of the tags [form],
    [object], [h1], [h2], [iframe], [h0], [table], [ul], [div]: a
    paragraph or an image is never removed from its parent. *)
Theorem prep_article_prunes (flags : Z) (s : store) (content : ref) :
  parents_ok s = true ->
  acyclic s = true ->
  List.NoDup (iterdescendants_s s content) ->
  exists s',
    prep_article flags content s = Ok (tt, s')
    /\ length s' = length s
    /\ (forall x,
          e_tag (rd s' x) = e_tag (rd s x)
          /\ e_text (rd s' x) = e_text (rd s x)
          /\ e_tail (rd s' x) = e_tail (rd s x)
          /\ e_readable (rd s' x) = e_readable (rd s x)
          /\ e_attrib (rd s' x)
             = if in_subtree s content x
               then attr_del "style" (e_attrib (rd s x))
               else e_attrib (rd s x))
    /\ (forall x, getparent s' x = getparent s x \/ getparent s' x = None)
    /\ (forall x, getchildren s' x
                  = List.filter (has_parent s') (getchildren s x))
    /\ (forall x, getparent s' x <> getparent s x ->
          In x (iterdescendants_s s content)
          /\ In (e_tag (rd s x)) prep_article_tags).
Proof.
  intros Hok Hac Hnd. pose proof (parents_ok_agree s Hok) as Hpa.
  set (s1 := unstyled_all (content :: iterdescendants_s s content) s).
  assert (Hrd : forall x,
    rd s1 x = if in_subtree s content x then unstyled (rd s x) else rd s x).
  { intros x. unfold s1. rewrite rd_unstyled_all. reflexivity. }
  assert (Hfo1 : forest_at s1 content).
  { apply forest_at_unstyled_all. split; assumption. }
  destruct (prep_article_passes flags content s1 Hfo1)
    as (s' & Hrun & (Hlen & Hdata & Hpar & Hchi) & _ & Hch).
  exists s'. split.
  { unfold prep_article. unfold bind_of at 1. unfold mbind, M_bind.
    rewrite (clean_styles_run s content Hpa Hac). exact Hrun. }
  split; [rewrite Hlen; apply length_unstyled_all|]. split.
  { intros x. destruct (Hdata x) as (-> & -> & -> & -> & ->).
    rewrite Hrd. destruct (in_subtree s content x); repeat split. }
  split.
  { intros x. unfold s1 in Hpar. rewrite <- (getparent_unstyled_all
      (content :: iterdescendants_s s content) s x). apply Hpar. }
  split.
  { intros x. rewrite Hchi. unfold s1.
    rewrite getchildren_unstyled_all. reflexivity. }
  intros x Hx.
  rewrite <- (getparent_unstyled_all
    (content :: iterdescendants_s s content) s x) in Hx.
  destruct (Hch x Hx) as (t & Ht & Hin).
  unfold xpath_s in Hin. apply filter_In in Hin as [Hin Htag].
  apply String.eqb_eq in Htag. split.
  - unfold iterdescendants_s, s1 in Hin.
    rewrite length_unstyled_all in Hin.
    rewrite (desc_fuel_same_children s _) in Hin; [exact Hin|].
    intros y. apply getchildren_unstyled_all.
  - rewrite Hrd in Htag.
    assert (E : e_tag (rd s x) = t)
      by (destruct (in_subtree s content x); exact Htag).
    rewrite E. exact Ht.
Qed.

(** In [doc_article] the heading is removed; the paragraph stays and
    loses its style. *)
Lemma prep_article_prunes_witness :
  let s0 := snd (load None doc_article []) in
  exists s',
    prep_article init_flags 0%nat s0 = Ok (tt, s')
    /\ getchildren s' 0%nat = [1%nat]
    /\ e_attrib (rd s' 1%nat) = []
    /\ getparent s' 2%nat = None.
Proof.
  cbv zeta. set (s0 := snd (load None doc_article [])).
  destruct (prep_article_prunes init_flags s0 0%nat)
    as (s' & Hrun & _).
  - vm_compute. reflexivity.
  - vm_compute. reflexivity.
  - vm_compute. repeat constructor; simpl; intuition discriminate.
  - exists s'. split; [exact Hrun|].
    pose proof Hrun as H. vm_compute in H. injection H as <-.
    repeat split; reflexivity.
Defined.

(** ** The scoring loop of [score_paras] *)

Lemma same_tree_refl (s : store) : same_tree s s.
Proof. split; [reflexivity|]. intros x. repeat split. Qed.

Lemma same_tree_trans (s s' s'' : store) :
  same_tree s s' -> same_tree s' s'' -> same_tree s s''.
Proof.
  intros [L1 H1] [L2 H2]. split; [congruence|]. intros x.
  destruct (H1 x) as (a1 & a2 & a3 & a4 & a5 & a6).
  destruct (H2 x) as (b1 & b2 & b3 & b4 & b5 & b6).
  repeat split; congruence.
Qed.

Lemma same_tree_upd_readable (s : store) (x : ref) (q : option Q) :
  same_tree s (upd x (with_readable q) s).
Proof.
  split; [apply length_upd|]. intros y.
  repeat split; apply rd_upd_proj; reflexivity.
Qed.

Lemma same_tree_getparent (s s' : store) (x : ref) :
  same_tree s s' -> getparent s' x = getparent s x.
Proof. intros [_ H]. unfold getparent. apply (H x). Qed.

Lemma extract_fuel_same_tree (s s' : store) :
  same_tree s s' ->
  forall f n, extract_fuel f s' n = extract_fuel f s n.
Proof.
  intros [_ H]. induction f as [|f IH]; intros n; cbn [extract_fuel];
    destruct (H n) as (-> & -> & -> & -> & Hc & _); [reflexivity|].
  rewrite Hc. f_equal. apply map_ext. exact IH.
Qed.

Lemma s_inner_text_same_tree (s s' : store) (n : ref) (b : bool) :
  same_tree s s' -> s_inner_text s' n b = s_inner_text s n b.
Proof.
  intros H. unfold s_inner_text, extract. rewrite (proj1 H).
  rewrite (extract_fuel_same_tree s s' H). reflexivity.
Qed.

Lemma initial_score_same_tree (flags : Z) (s s' : store) (x : ref) :
  same_tree s s' -> initial_score flags s' x = initial_score flags s x.
Proof.
  intros [_ H]. unfold initial_score, shallow.
  destruct (H x) as (-> & -> & -> & -> & _). reflexivity.
Qed.

Lemma receivers_same_tree (s s' : store) (n : ref) :
  same_tree s s' -> receivers s' n = receivers s n.
Proof.
  intros H. unfold receivers.
  rewrite (same_tree_getparent s s' n H), (s_inner_text_same_tree s s' n _ H).
  destruct (getparent s n) as [p|]; [|reflexivity].
  rewrite (same_tree_getparent s s' p H). reflexivity.
Qed.

Lemma gift_same_tree (s s' : store) (x n : ref) :
  same_tree s s' -> gift s' x n = gift s x n.
Proof.
  intros H. unfold gift.
  rewrite (same_tree_getparent s s' n H), (s_inner_text_same_tree s s' n _ H).
  destruct (getparent s n) as [p|]; [|reflexivity].
  rewrite (same_tree_getparent s s' p H). reflexivity.
Qed.

Lemma parents_in_store_range (s : store) (x y : ref) :
  parents_in_store s = true -> getparent s x = Some y -> (y < length s)%nat.
Proof.
  intros H Hx. unfold parents_in_store in H. rewrite forallb_forall in H.
  pose proof (getparent_in_range s x y Hx) as Hlt.
  specialize (H x). rewrite Hx in H. apply Nat.ltb_lt, H, in_seq. lia.
Qed.

Lemma rises_self (s : store) (x : ref) :
  getparent s x = Some x -> forall n, rises n s x = false.
Proof.
  intros H. induction n as [|n IH]; [reflexivity|].
  cbn [rises]. rewrite H. exact IH.
Qed.

Lemma acyclic_no_self (s : store) (x : ref) :
  acyclic s = true -> getparent s x <> Some x.
Proof.
  intros Hac Hx. unfold acyclic in Hac. rewrite forallb_forall in Hac.
  pose proof (getparent_in_range s x x Hx) as Hlt.
  specialize (Hac x). rewrite (rises_self s x Hx) in Hac.
  assert (In x (seq 0 (length s))) by (apply in_seq; lia).
  specialize (Hac H). discriminate.
Qed.

Lemma is_readable_upd_ne (s : store) (x y : ref) (f : elem -> elem) :
  y <> x -> is_readable (upd x f s) y = is_readable s y.
Proof. intros H. unfold is_readable. rewrite rd_upd_ne by exact H. reflexivity. Qed.

Lemma same_tree_ensure_initialized (flags : Z) (x : ref) (s : store) :
  same_tree s (ensure_initialized flags x s).
Proof.
  unfold ensure_initialized. destruct (is_readable s x);
    [apply same_tree_refl | apply same_tree_upd_readable].
Qed.

Lemma same_tree_scored (flags : Z) (p : ref) (g : option ref) (a : Z)
  (s : store) :
  same_tree s (scored flags p g a s).
Proof.
  unfold scored.
  assert (H1 : same_tree s (ensure_initialized flags p s))
    by apply same_tree_ensure_initialized.
  destruct g as [g|].
  - eapply same_tree_trans; [|apply same_tree_upd_readable].
    eapply same_tree_trans; [|apply same_tree_upd_readable].
    eapply same_tree_trans; [exact H1|apply same_tree_ensure_initialized].
  - eapply same_tree_trans; [exact H1|apply same_tree_upd_readable].
Qed.

(** One round of the loop: the candidates it adds and the scores it
    changes. *)
Lemma score_para_step (flags : Z) (s : store) (cands : list ref) (n : ref) :
  parents_in_store s = true ->
  acyclic s = true ->
  exists s',
    score_para flags cands n s
    = Ok (cands ++ List.filter (fun x => negb (is_readable s x))
                     (receivers s n), s')
    /\ same_tree s s'
    /\ (forall x, receives s x n = false -> rd s' x = rd s x)
    /\ (forall x, receives s x n = true ->
          is_readable s' x = true
          /\ (score_of s' x == base_score flags s x + gift s x n)%Q).
Proof.
  intros Hrange Hac. unfold receives, receivers, gift.
  destruct (getparent s n) as [p|] eqn:Hp.
  2:{ exists s. split.
      { unfold score_para. rewrite bind_gets, Hp, app_nil_r. reflexivity. }
      split; [apply same_tree_refl|]. split; [reflexivity|]. discriminate. }
  cbv zeta. set (text := s_inner_text s n true).
  destruct (Str.len text <? 25) eqn:Hlen.
  { exists s. split.
    { unfold score_para. rewrite bind_gets, Hp, !bind_gets. fold text.
      rewrite Hlen, app_nil_r. reflexivity. }
    split; [apply same_tree_refl|]. split; [reflexivity|]. discriminate. }
  set (a := para_score text).
  pose proof (parents_in_store_range s n p Hrange Hp) as Hlt.
  exists (scored flags p (getparent s p) a s).
  split; [|split; [apply same_tree_scored|]].
  { unfold score_para, bind_of, mbind, M_bind, gets, modify, mret, M_ret.
    rewrite Hp. fold text. rewrite Hlen. fold a.
    unfold scored, ensure_initialized, initialize_node, add_score, modify.
    destruct (getparent s p) as [g|] eqn:Hg.
    - assert (Hne : g <> p) by (intros ->; exact (acyclic_no_self s p Hac Hg)).
      cbn [List.filter].
      destruct (is_readable s p) eqn:Rp; cbn [negb];
        rewrite ?(is_readable_upd_ne s p g _ Hne);
        destruct (is_readable s g) eqn:Rg; cbn [negb];
        rewrite <- ?app_assoc, ?app_nil_r; reflexivity.
    - cbn [List.filter].
      destruct (is_readable s p) eqn:Rp; cbn [negb];
        rewrite ?app_nil_r; reflexivity. }
  unfold scored. set (s1 := ensure_initialized flags p s).
  assert (L1 : length s1 = length s) by apply ensure_initialized_length.
  destruct (getparent s p) as [g|] eqn:Hg.
  - pose proof (parents_in_store_range s p g Hrange Hg) as Hx.
    assert (Hne : g <> p) by (intros ->; exact (acyclic_no_self s p Hac Hg)).
    set (s2 := ensure_initialized flags g s1).
    assert (L2 : length s2 = length s)
      by (unfold s2; rewrite ensure_initialized_length; exact L1).
    assert (P2 : score_of s2 p = base_score flags s p).
    { unfold s2, score_of. rewrite ensure_initialized_other by congruence.
      apply ensure_initialized_score, Hlt. }
    assert (X2 : score_of s2 g = base_score flags s g).
    { unfold s2. rewrite ensure_initialized_score by lia.
      apply base_score_other, Hne. }
    split.
    + intros x Hx'. cbn [existsb] in Hx'.
      apply orb_false_elim in Hx' as [Hxp Hx'].
      apply orb_false_elim in Hx' as [Hxg _].
      apply Nat.eqb_neq in Hxp, Hxg.
      rewrite !rd_upd_ne by congruence.
      unfold s2. rewrite ensure_initialized_other by congruence.
      apply ensure_initialized_other, Hxp.
    + intros x Hx'. cbn [existsb] in Hx'. rewrite orb_false_r in Hx'.
      destruct (Nat.eqb x p) eqn:Exp.
      * apply Nat.eqb_eq in Exp. subst x.
        assert (Epg : Nat.eqb p g = false) by (apply Nat.eqb_neq; congruence).
        rewrite Epg. split.
        -- unfold is_readable. rewrite rd_upd_ne by congruence.
           rewrite score_of_upd_eq by lia. reflexivity.
        -- unfold score_of at 1. rewrite rd_upd_ne by congruence.
           rewrite score_of_upd_eq by lia. rewrite P2. ring.
      * cbn [orb] in Hx'. rewrite Hx'. apply Nat.eqb_eq in Hx'. subst x.
        split.
        -- unfold is_readable.
           rewrite score_of_upd_eq by (rewrite length_upd; lia). reflexivity.
        -- unfold score_of at 1.
           rewrite score_of_upd_eq by (rewrite length_upd; lia).
           unfold score_of at 1. rewrite rd_upd_ne by exact Hne.
           fold (score_of s2 g). rewrite X2. ring.
  - split.
    + intros x Hx'. cbn [existsb] in Hx'. rewrite orb_false_r in Hx'.
      apply Nat.eqb_neq in Hx'. rewrite rd_upd_ne by exact Hx'.
      apply ensure_initialized_other, Hx'.
    + intros x Hx'. cbn [existsb] in Hx'. rewrite orb_false_r in Hx'.
      rewrite Hx'. apply Nat.eqb_eq in Hx'. subst x. split.
      * unfold is_readable. rewrite score_of_upd_eq by lia. reflexivity.
      * unfold score_of at 1. rewrite score_of_upd_eq by lia.
        unfold s1. rewrite ensure_initialized_score by exact Hlt. ring.
Qed.

Lemma gifts_app (s : store) (x : ref) (l1 l2 : list ref) :
  (gifts s x (l1 ++ l2) == gifts s x l1 + gifts s x l2)%Q.
Proof.
  induction l1 as [|n l1 IH]; cbn [app gifts fold_right].
  - fold (gifts s x l2). ring.
  - fold (gifts s x (l1 ++ l2)). fold (gifts s x l1). rewrite IH. ring.
Qed.

Lemma gifts_snoc (s : store) (x : ref) (l : list ref) (n : ref) :
  (gifts s x (l ++ [n]) == gifts s x l + gift s x n)%Q.
Proof. rewrite gifts_app. cbn [gifts fold_right]. ring. Qed.

Lemma scored_by_snoc (s : store) (x : ref) (l : list ref) (n : ref) :
  scored_by s x (l ++ [n]) = (scored_by s x l || receives s x n)%bool.
Proof.
  unfold scored_by. rewrite existsb_app. cbn [existsb].
  rewrite orb_false_r. reflexivity.
Qed.

Lemma gift_none (s : store) (x n : ref) :
  receives s x n = false -> (gift s x n == 0)%Q.
Proof.
  unfold receives, receivers, gift.
  destruct (getparent s n) as [p|]; [|reflexivity]. cbv zeta.
  destruct (Str.len (s_inner_text s n true) <? 25); [reflexivity|].
  cbn [existsb]. intros H. apply orb_false_elim in H as [-> H].
  destruct (getparent s p) as [g|]; [|ring].
  cbn [existsb] in H. apply orb_false_elim in H as [-> _]. ring.
Qed.

Lemma gifts_none (s : store) (x : ref) (l : list ref) :
  scored_by s x l = false -> (gifts s x l == 0)%Q.
Proof.
  induction l as [|n l IH]; [reflexivity|].
  cbn [scored_by existsb gifts fold_right]. intros H.
  apply orb_false_elim in H as [Hn Hl].
  fold (gifts s x l). rewrite (IH Hl), (gift_none s x n Hn). ring.
Qed.

Lemma receivers_NoDup (s : store) (n : ref) :
  acyclic s = true -> List.NoDup (receivers s n).
Proof.
  intros Hac. unfold receivers.
  destruct (getparent s n) as [p|]; [|constructor].
  destruct (_ <? 25); [constructor|].
  destruct (getparent s p) as [g|] eqn:Hg.
  - constructor; [|constructor; [intros []|constructor]].
    intros [->|[]]. exact (acyclic_no_self s p Hac Hg).
  - constructor; [intros []|constructor].
Qed.

Lemma forallb_ext_all {A} (f g : A -> bool) (l : list A) :
  (forall x, f x = g x) -> forallb f l = forallb g l.
Proof.
  intros H. induction l as [|x l IH]; [reflexivity|].
  cbn [forallb]. rewrite H, IH. reflexivity.
Qed.

Lemma rises_same_tree (s s' : store) :
  same_tree s s' -> forall n r, rises n s' r = rises n s r.
Proof.
  intros H. induction n as [|n IH]; intros r; [reflexivity|].
  cbn [rises]. rewrite (same_tree_getparent s s' r H).
  destruct (getparent s r); [apply IH | reflexivity].
Qed.

Lemma acyclic_same_tree (s s' : store) :
  same_tree s s' -> acyclic s' = acyclic s.
Proof.
  intros H. unfold acyclic. rewrite (proj1 H). apply forallb_ext_all.
  intros r. apply rises_same_tree, H.
Qed.

Lemma parents_in_store_same_tree (s s' : store) :
  same_tree s s' -> parents_in_store s' = parents_in_store s.
Proof.
  intros H. unfold parents_in_store. rewrite (proj1 H).
  apply forallb_ext_all. intros x. rewrite (same_tree_getparent s s' x H). reflexivity.
Qed.

Lemma base_score_same (flags : Z) (s s' : store) (x : ref) :
  same_tree s s' -> rd s' x = rd s x ->
  base_score flags s' x = base_score flags s x.
Proof.
  intros H E. unfold base_score, is_readable, score_of.
  rewrite E, (initial_score_same_tree flags s s' x H). reflexivity.
Qed.

Section ScoringLoop.

Variable flags : Z.
Variable s0 : store.
Hypothesis Hrange : parents_in_store s0 = true.
Hypothesis Hac : acyclic s0 = true.

Lemma score_all_from (nodes : list ref) :
  forall (done cands : list ref) (s : store),
    same_tree s0 s ->
    scores_after flags s0 done s ->
    candidates_after s0 done cands ->
    exists cands' s',
      fold_m (score_para flags) cands nodes s = Ok (cands', s')
      /\ same_tree s0 s'
      /\ scores_after flags s0 (done ++ nodes) s'
      /\ candidates_after s0 (done ++ nodes) cands'.
Proof.
  unfold scores_after, candidates_after.
  induction nodes as [|n nodes IH]; intros done cands s Hst Hsc Hca.
  - exists cands, s. rewrite app_nil_r. split; [reflexivity|].
    split; [exact Hst|]. split; [exact Hsc | exact Hca].
  - cbn [fold_m]. unfold bind_of, mbind, M_bind.
    destruct (score_para_step flags s cands n)
      as (s1 & Hrun & Hst1 & Hframe & Hgain).
    { rewrite (parents_in_store_same_tree s0 s Hst). exact Hrange. }
    { rewrite (acyclic_same_tree s0 s Hst). exact Hac. }
    rewrite Hrun. rewrite (receivers_same_tree s0 s n Hst) in *.
    assert (Hrec : forall x, receives s x n = receives s0 x n).
    { intros x. unfold receives. rewrite (receivers_same_tree s0 s n Hst).
      reflexivity. }
    replace (done ++ n :: nodes) with ((done ++ [n]) ++ nodes)
      by (rewrite <- app_assoc; reflexivity).
    apply IH.
    + eapply same_tree_trans; eassumption.
    + intros x. rewrite scored_by_snoc. specialize (Hsc x).
      destruct (receives s0 x n) eqn:Rx.
      * rewrite orb_true_r.
        destruct (Hgain x) as [Hr Hs]; [rewrite Hrec; exact Rx|].
        split; [exact Hr|]. rewrite Hs, gifts_snoc.
        rewrite (gift_same_tree s0 s x n Hst).
        destruct (scored_by s0 x done) eqn:Dx.
        -- destruct Hsc as [Hr0 Hs0]. unfold base_score at 1.
           rewrite Hr0, Hs0. ring.
        -- rewrite (base_score_same flags s0 s x Hst Hsc).
           rewrite (gifts_none s0 x done Dx). ring.
      * rewrite orb_false_r.
        assert (E : rd s1 x = rd s x) by (apply Hframe; rewrite Hrec; exact Rx).
        destruct (scored_by s0 x done) eqn:Dx.
        -- destruct Hsc as [Hr0 Hs0]. unfold is_readable, score_of in *.
           rewrite E. split; [exact Hr0|].
           rewrite Hs0, gifts_snoc, (gift_none s0 x n Rx). ring.
        -- congruence.
    + destruct Hca as [Hnd Hin]. split.
      * apply NoDup_ListNoDup, NoDup_app. split; [apply NoDup_ListNoDup, Hnd|].
        split.
        -- intros x Hx Hx'. apply list_elem_of_In in Hx, Hx'.
           apply Hin in Hx as [_ Dx]. apply filter_In in Hx' as [_ Hx'].
           specialize (Hsc x). rewrite Dx in Hsc. destruct Hsc as [Hr _].
           rewrite Hr in Hx'. discriminate.
        -- apply NoDup_ListNoDup, List.NoDup_filter, receivers_NoDup, Hac.
      * intros x. rewrite in_app_iff, filter_In, Hin, scored_by_snoc.
        specialize (Hsc x). split.
        -- intros [[H1 H2]|[H1 H2]].
           ++ split; [exact H1 | rewrite H2; reflexivity].
           ++ assert (Rx : receives s0 x n = true).
              { unfold receives. apply existsb_exists. exists x.
                split; [exact H1 | apply Nat.eqb_refl]. }
              rewrite Rx, orb_true_r. split; [|reflexivity].
              apply negb_true_iff in H2.
              destruct (scored_by s0 x done).
              ** destruct Hsc as [Hr _]. congruence.
              ** unfold is_readable in *. rewrite <- Hsc. exact H2.
        -- intros [H1 H2]. destruct (scored_by s0 x done) eqn:Dx.
           ++ left. split; [exact H1 | reflexivity].
           ++ right. cbn [orb] in H2. split.
              ** unfold receives in H2. apply existsb_exists in H2
                   as (y & Hy & Exy). apply Nat.eqb_eq in Exy. subst y.
                 exact Hy.
              ** apply negb_true_iff. unfold is_readable in *.
                 rewrite Hsc. exact H1.
Qed.

End ScoringLoop.

(** X12: the loop of [score_paras] raises no exception on a store where
    parents are elements and no element is its own ancestor, and changes
    nothing but scores.  An element that is the parent or the grandparent
    of a listed node with 25 characters of text or more is annotated, and
    its score is the score it had (the score of [initialize_node] if it
    had none) plus the score of each such node below it, halved for a
    grandchild; every other element is left as it was.  The candidates are
    the elements that this loop annotated and that had no score before,
    each listed once. *)
Theorem score_all_scores (flags : Z) (s : store) (nodes : list ref) :
  parents_in_store s = true ->
  acyclic s = true ->
  exists cands s',
    score_all flags nodes s = Ok (cands, s')
    /\ same_tree s s'
    /\ (forall x,
          if scored_by s x nodes
          then is_readable s' x = true
               /\ (score_of s' x == base_score flags s x + gifts s x nodes)%Q
          else rd s' x = rd s x)
    /\ List.NoDup cands
    /\ (forall x, In x cands <->
                  is_readable s x = false /\ scored_by s x nodes = true).
Proof.
  intros Hrange Hac.
  destruct (score_all_from flags s Hrange Hac nodes [] [] s)
    as (cands & s' & Hrun & Hst & Hsc & Hnd & Hin).
  - apply same_tree_refl.
  - intros x. reflexivity.
  - split; [constructor|]. intros x. split; [intros [] | intros [_ H]].
    discriminate.
  - exists cands, s'. auto.
Qed.

(** The two paragraphs of [store_two_paras] score 2 each: the division,
    which starts at 5, gets 9, and the body gets 2. *)
Lemma score_all_scores_witness :
  exists cands s',
    score_all init_flags [2; 3]%nat store_two_paras = Ok (cands, s')
    /\ (score_of s' 1%nat == 9)%Q
    /\ (score_of s' 0%nat == 2)%Q
    /\ rd s' 2%nat = rd store_two_paras 2%nat.
Proof.
  destruct (score_all_scores init_flags store_two_paras [2; 3]%nat)
    as (cands & s' & Hrun & _ & Hsc & _).
  - vm_compute. reflexivity.
  - vm_compute. reflexivity.
  - exists cands, s'. split; [exact Hrun|].
    pose proof (Hsc 1%nat) as H1. pose proof (Hsc 0%nat) as H0.
    pose proof (Hsc 2%nat) as H2.
    change (scored_by store_two_paras 1%nat [2; 3]%nat) with true in H1.
    change (scored_by store_two_paras 0%nat [2; 3]%nat) with true in H0.
    change (scored_by store_two_paras 2%nat [2; 3]%nat) with false in H2.
    cbv iota in H1, H0, H2.
    split; [rewrite (proj2 H1); vm_compute; reflexivity|].
    split; [rewrite (proj2 H0); vm_compute; reflexivity|]. exact H2.
Defined.

(** ** The first loop of [_select_top] *)








(** ** [NodeIter]: a removal between two calls of [next] *)

(** X14: when the node list of the iterator is the list of the
    descendants of the root as the tree stands, [next] yields the node at
    the index and its position counted from 1; [remove] then takes this
    node out of the tree and the list is rebuilt without the node and its
    descendants; the following [next] yields the first node that came
    after them in document order, at the same position, or stops when
    there is none.  No exception is raised. *)
Theorem NodeIter_next_remove_next (s : store) (root d : ref) (k : nat)
  (cur : option ref) :
  parents_ok s = true ->
  acyclic s = true ->
  let nodes := iterdescendants_s s root in
  List.NoDup nodes ->
  nodes !! k = Some d ->
  let after := (k + 1 + length (iterdescendants_s s d))%nat in
  exists it it',
    NodeIter_next (MkNodeIter root nodes (Z.of_nat k) cur) s
    = Ok (Some (it, (Z.of_nat k + 1, d)), s)
    /\ NodeIter_remove it s = Ok (it', detach d s)
    /\ it_nodes it' = iterdescendants_s (detach d s) root
    /\ it_nodes it' = take k nodes ++ drop after nodes
    /\ match nodes !! after with
       | Some x =>
           exists it'',
             NodeIter_next it' (detach d s)
             = Ok (Some (it'', (Z.of_nat k + 1, x)), detach d s)
             /\ in_subtree s d x = false
       | None => NodeIter_next it' (detach d s) = Ok (None, detach d s)
       end.
Proof.
  intros Hok Hac nodes Hnd Hk after.
  pose proof (parents_ok_agree s Hok) as Hpa.
  destruct (NodeIter_remove_up_to_date s root d k Hpa Hac Hnd Hk)
    as (it' & Hrm & Hnew & Hseg & Hidx & Hnext).
  fold nodes in Hseg, Hnext. fold after in Hseg, Hnext.
  exists (MkNodeIter root nodes (Z.of_nat k + 1) (Some d)), it'.
  split.
  { unfold NodeIter_next. cbn [it_nodes it_idx it_root].
    pose proof (lookup_lt_Some _ _ _ Hk) as Hlt.
    destruct (Z.of_nat (length nodes) <=? Z.of_nat k) eqn:E;
      [apply Z.leb_le in E; lia|].
    unfold py_index. destruct (Z.of_nat k <? 0) eqn:E2;
      [apply Z.ltb_lt in E2; lia|].
    rewrite Nat2Z.id, Hk. reflexivity. }
  split; [exact Hrm|]. split; [exact Hnew|]. split; [exact Hseg|].
  rewrite Hnext. destruct (nodes !! after) as [x|] eqn:Hx; [|reflexivity].
  eexists. split; [reflexivity|].
  apply not_true_is_false. intros Hsub.
  assert (Hin : In x (it_nodes it')).
  { rewrite Hseg. apply in_app_iff. right. apply list_elem_of_In.
    apply list_elem_of_lookup. exists 0%nat.
    rewrite lookup_drop, Nat.add_0_r. exact Hx. }
  rewrite Hnew in Hin.
  assert (Hp : exists p, getparent s d = Some p).
  { assert (Hd : In d nodes)
      by (apply list_elem_of_In, list_elem_of_lookup; eauto).
    apply desc_fuel_child in Hd as [p Hp]. exists p. apply Hpa, Hp. }
  destruct Hp as [p Hp].
  assert (Hroot : in_subtree s d root = false).
  { apply not_true_is_false. intros H.
    assert (Hdesc : descendant s root d).
    { apply (iterdescendants_descendant s root d Hpa Hac).
      apply list_elem_of_In, list_elem_of_lookup. eauto. }
    apply (in_subtree_spec s Hpa Hac) in H. destruct H as [->|H].
    - exact (descendant_irrefl s Hpa Hac d Hdesc).
    - exact (descendant_irrefl s Hpa Hac root
               (descendant_trans s root d root Hdesc H)). }
  rewrite (iterdescendants_detach s Hpa Hac d p Hp root Hroot) in Hin.
  apply filter_In in Hin as [_ Hin]. rewrite Hsub in Hin. discriminate.
Qed.

(** In [store_nested] the iterator over the body yields the division
    first; once it is removed, the next node is the paragraph: the image
    and the span are skipped. *)
Lemma NodeIter_next_remove_next_witness :
  iterdescendants_s store_nested 0%nat = [1; 2; 3; 4]%nat
  /\ exists it it' it'',
       NodeIter_next (MkNodeIter 0%nat [1; 2; 3; 4]%nat 0 None) store_nested
       = Ok (Some (it, (1, 1%nat)), store_nested)
       /\ NodeIter_remove it store_nested = Ok (it', detach 1%nat store_nested)
       /\ NodeIter_next it' (detach 1%nat store_nested)
          = Ok (Some (it'', (1, 4%nat)), detach 1%nat store_nested).
Proof.
  split; [reflexivity|].
  destruct (NodeIter_next_remove_next store_nested 0%nat 1%nat 0%nat None)
    as (it & it' & Hn & Hr & _ & _ & Hnext).
  - reflexivity.
  - reflexivity.
  - vm_compute. repeat constructor; simpl; intuition discriminate.
  - reflexivity.
  - change (iterdescendants_s store_nested 0%nat) with [1; 2; 3; 4]%nat in *.
    change ([1; 2; 3; 4]%nat
              !! (0 + 1 + length (iterdescendants_s store_nested 1%nat))%nat)
      with (Some 4%nat) in Hnext.
    destruct Hnext as (it'' & Hnext & _).
    exists it, it', it''. split; [exact Hn|]. split; [exact Hr | exact Hnext].
Defined.

(** ** [initialize_node] *)





(** ** [select_scorable] on a tree without [<div>] *)




Section DivFree.

Variable flags : Z.
Variable s0 : store.
Variable node : ref.


End DivFree.



(** ** The loop of [_select_top] over the siblings of [top] *)

Lemma detach_length_any (s : store) (c : ref) :
  length (detach c s) = length s.
Proof.
  unfold detach. destruct (getparent s c); [|reflexivity].
  rewrite !length_upd. reflexivity.
Qed.

Lemma detach_proj {B} (proj : elem -> B) (s : store) (c x : ref) :
  (forall e p, proj (with_parent p e) = proj e) ->
  (forall e cs, proj (with_children cs e) = proj e) ->
  proj (rd (detach c s) x) = proj (rd s x).
Proof.
  intros H1 H2. unfold detach. destruct (getparent s c); [|reflexivity].
  rewrite !rd_upd_proj; [reflexivity | |]; intros e; [apply H2 | apply H1].
Qed.

Lemma detach_parent_any (s : store) (c x : ref) :
  getparent (detach c s) x = if Nat.eqb x c then None else getparent s x.
Proof.
  destruct (Nat.eqb x c) eqn:E.
  - apply Nat.eqb_eq in E. subst x.
    destruct (getparent s c) as [p|] eqn:Hp.
    + apply (detach_parent_self s c p Hp).
    + unfold detach. rewrite Hp. exact Hp.
  - apply Nat.eqb_neq in E.
    destruct (getparent s c) as [p|] eqn:Hp.
    + apply (detach_parent_other s c p Hp x E).
    + unfold detach. rewrite Hp. reflexivity.
Qed.

Lemma detach_children_any (s : store) (c x : ref) :
  getchildren (detach c s) x = getchildren s x
  \/ getchildren (detach c s) x
     = List.filter (fun y => negb (Nat.eqb y c)) (getchildren s x).
Proof.
  unfold detach. destruct (getparent s c) as [p|]; [|left; reflexivity].
  unfold getchildren. rewrite (rd_upd_proj e_children) by reflexivity.
  destruct (Nat.eq_dec x p) as [->|Hx].
  - destruct (le_lt_dec (length s) p) as [Hge|Hlt].
    + left. rewrite !rd_out_of_range by (rewrite ?length_upd; exact Hge).
      reflexivity.
    + right. rewrite rd_upd_eq by exact Hlt. reflexivity.
  - left. rewrite rd_upd_ne by exact Hx. reflexivity.
Qed.

Lemma detach_children_sublist (s : store) (c x : ref) :
  sublist (getchildren (detach c s) x) (getchildren s x).
Proof.
  destruct (detach_children_any s c x) as [-> | ->];
    [reflexivity | apply filter_sublist].
Qed.

Lemma detach_children_keep (s : store) (c x y : ref) :
  In y (getchildren s x) -> y <> c -> In y (getchildren (detach c s) x).
Proof.
  intros Hy Hne. destruct (detach_children_any s c x) as [-> | ->];
    [exact Hy|].
  apply filter_In. split; [exact Hy|]. apply negb_true_iff, Nat.eqb_neq, Hne.
Qed.

Section AppendChild.

Variables (s : store) (p c : ref).
Hypothesis Hp : (p < length s)%nat.
Hypothesis Hc : (c < length s)%nat.
Hypothesis Hne : c <> p.

Lemma append_child_children :
  getchildren (append_child p c s) p = getchildren (detach c s) p ++ [c].
Proof.
  unfold append_child, getchildren.
  rewrite rd_upd_ne by congruence.
  rewrite rd_upd_eq by (rewrite detach_length_any; exact Hp). reflexivity.
Qed.

Lemma append_child_parent (x : ref) :
  getparent (append_child p c s) x
  = if Nat.eqb x c then Some p else getparent s x.
Proof.
  unfold append_child, getparent. destruct (Nat.eqb x c) eqn:E.
  - apply Nat.eqb_eq in E. subst x.
    rewrite rd_upd_eq by (rewrite length_upd, detach_length_any; exact Hc).
    reflexivity.
  - apply Nat.eqb_neq in E. rewrite rd_upd_ne by exact E.
    rewrite (rd_upd_proj e_parent) by reflexivity.
    fold (getparent (detach c s) x). rewrite detach_parent_any.
    apply Nat.eqb_neq in E. rewrite E. reflexivity.
Qed.

Lemma append_child_proj {B} (proj : elem -> B) (x : ref) :
  (forall e q, proj (with_parent q e) = proj e) ->
  (forall e cs, proj (with_children cs e) = proj e) ->
  proj (rd (append_child p c s) x) = proj (rd s x).
Proof.
  intros H1 H2. unfold append_child.
  rewrite !rd_upd_proj; [apply detach_proj; assumption | |];
    intros e; [apply H2 | apply H1].
Qed.

Lemma append_child_length : length (append_child p c s) = length s.
Proof.
  unfold append_child. rewrite !length_upd. apply detach_length_any.
Qed.

End AppendChild.

Lemma as_block_length (n : ref) (s : store) :
  length (as_block n s) = length s.
Proof.
  unfold as_block. destruct (in_tags _ _); [reflexivity | apply length_upd].
Qed.

Lemma as_block_proj {B} (proj : elem -> B) (n x : ref) (s : store) :
  (forall e t, proj (with_tag t e) = proj e) ->
  proj (rd (as_block n s) x) = proj (rd s x).
Proof.
  intros H. unfold as_block. destruct (in_tags _ _); [reflexivity|].
  apply rd_upd_proj. intros e. apply H.
Qed.

Lemma as_block_tag (n x : ref) (s : store) :
  (n < length s)%nat ->
  e_tag (rd (as_block n s) x)
  = if (Nat.eqb x n && negb (in_tags (e_tag (rd s n)) ["div"; "p"]))%bool
    then "div" else e_tag (rd s x).
Proof.
  intros Hn. unfold as_block.
  destruct (in_tags (e_tag (rd s n)) ["div"; "p"]) eqn:E;
    [rewrite andb_false_r; reflexivity|].
  rewrite andb_true_r. destruct (Nat.eqb x n) eqn:Ex.
  - apply Nat.eqb_eq in Ex. subst x. rewrite rd_upd_eq by exact Hn.
    reflexivity.
  - apply Nat.eqb_neq in Ex. rewrite rd_upd_ne by exact Ex. reflexivity.
Qed.

(** One sibling: it is left where it is, or it becomes the last child of
    [content], as a [div] if it is neither a [div] nor a [p]; [top] is
    always taken. *)
Lemma harvest_sibling_cases (top content : ref) (sib_thresh : Q) (n : ref)
  (s : store) :
  (harvest_sibling top content sib_thresh n s = Ok (tt, s) /\ n <> top)
  \/ harvest_sibling top content sib_thresh n s
     = Ok (tt, append_child content n (as_block n s)).
Proof.
  unfold harvest_sibling. rewrite !bind_gets.
  assert (Hdo :
    (let* t := gets (fun s0 => e_tag (rd s0 n)) in
     (if negb (in_tags t ["div"; "p"])
      then modify (upd n (with_tag "div")) else mret tt);;
     modify (append_child content n)) s
    = Ok (tt, append_child content n (as_block n s))).
  { rewrite bind_gets. unfold as_block.
    destruct (in_tags (e_tag (rd s n)) ["div"; "p"]); reflexivity. }
  destruct (Nat.eqb n top) eqn:E.
  - right.
    match goal with
    | |- (if ?b then _ else _) s = _ =>
        assert (Hb : b = true);
        [|rewrite Hb; exact Hdo]
    end.
    repeat match goal with
           | |- (if ?b then _ else _) = true => destruct b; try reflexivity
           end.
  - apply Nat.eqb_neq in E.
    match goal with
    | |- ((if ?b then _ else _) s = _ /\ _) \/ _ => destruct b
    end; [right; exact Hdo | left; split; [reflexivity | exact E]].
Qed.

Lemma harvest_from (top content : ref) (sib_thresh : Q) (s0 : store)
  (siblings : list ref) :
  (content < length s0)%nat ->
  forall (done : list ref) (s : store),
    (forall n, In n siblings -> (n < length s0)%nat /\ n <> content) ->
    length s = length s0 ->
    sublist (getchildren s content) done ->
    (forall c, In c (getchildren s content) ->
               getparent s c = Some content
               /\ in_tags (e_tag (rd s c)) ["div"; "p"] = true) ->
    (In top done -> In top (getchildren s content)) ->
    (forall x, e_attrib (rd s x) = e_attrib (rd s0 x)
               /\ e_text (rd s x) = e_text (rd s0 x)
               /\ e_tail (rd s x) = e_tail (rd s0 x)
               /\ e_readable (rd s x) = e_readable (rd s0 x)
               /\ (e_tag (rd s x) = e_tag (rd s0 x)
                   \/ (In x (getchildren s content)
                       /\ e_tag (rd s x) = "div"))) ->
    (forall x, ~ In x (getchildren s content) ->
               getparent s x = getparent s0 x) ->
    exists s',
      for_each siblings (harvest_sibling top content sib_thresh) s
      = Ok (tt, s')
      /\ length s' = length s0
      /\ sublist (getchildren s' content) (done ++ siblings)
      /\ (forall c, In c (getchildren s' content) ->
                    getparent s' c = Some content
                    /\ in_tags (e_tag (rd s' c)) ["div"; "p"] = true)
      /\ (In top (done ++ siblings) -> In top (getchildren s' content))
      /\ (forall x, e_attrib (rd s' x) = e_attrib (rd s0 x)
                    /\ e_text (rd s' x) = e_text (rd s0 x)
                    /\ e_tail (rd s' x) = e_tail (rd s0 x)
                    /\ e_readable (rd s' x) = e_readable (rd s0 x)
                    /\ (e_tag (rd s' x) = e_tag (rd s0 x)
                        \/ (In x (getchildren s' content)
                            /\ e_tag (rd s' x) = "div")))
      /\ (forall x, ~ In x (getchildren s' content) ->
                    getparent s' x = getparent s0 x).
Proof.
  intros Hcont. induction siblings as [|n siblings IH];
    intros done s Hsib Hlen Hsub Hkids Htop Hdata Hpar.
  - exists s. rewrite app_nil_r. split; [reflexivity|]. auto 10.
  - cbn [for_each]. unfold bind_of, mbind, M_bind.
    destruct (Hsib n (or_introl eq_refl)) as [Hn Hnc].
    assert (Hsib' : forall m, In m siblings ->
                      (m < length s0)%nat /\ m <> content)
      by (intros m Hm; apply Hsib; right; exact Hm).
    replace (done ++ n :: siblings) with ((done ++ [n]) ++ siblings)
      by (rewrite <- app_assoc; reflexivity).
    destruct (harvest_sibling_cases top content sib_thresh n s)
      as [[E Hnt]|E]; rewrite E.
    + apply IH; try assumption.
      * apply sublist_inserts_r, Hsub.
      * intros H. apply in_app_iff in H as [H|[H|[]]];
          [apply Htop, H | congruence].
    + set (s1 := as_block n s).
      assert (L1 : length s1 = length s0)
        by (unfold s1; rewrite as_block_length; exact Hlen).
      assert (Hn1 : (n < length s1)%nat) by lia.
      assert (Hc1 : (content < length s1)%nat) by lia.
      set (s2 := append_child content n s1).
      assert (Hch2 : getchildren s2 content
                     = getchildren (detach n s1) content ++ [n])
        by (apply append_child_children; assumption).
      assert (Hch1 : getchildren s1 content = getchildren s content)
        by (apply (as_block_proj e_children); reflexivity).
      assert (Hkeep : forall x, x <> n -> In x (getchildren s content) ->
                                In x (getchildren s2 content)).
      { intros x Hx Hin. rewrite Hch2. apply in_app_iff. left.
        apply detach_children_keep; [rewrite Hch1; exact Hin | exact Hx]. }
      assert (Hold : forall x, In x (getchildren s2 content) ->
                               x = n \/ In x (getchildren s content)).
      { intros x Hx. rewrite Hch2 in Hx.
        apply in_app_iff in Hx as [Hx|[<-|[]]]; [right | left; reflexivity].
        rewrite <- Hch1. apply list_elem_of_In.
        eapply elem_of_sublist;
          [apply list_elem_of_In, Hx | apply detach_children_sublist]. }
      assert (Htag2 : forall x, e_tag (rd s2 x) = e_tag (rd s1 x))
        by (intros x; apply append_child_proj; reflexivity).
      assert (Htag1 : forall x,
        e_tag (rd s1 x)
        = if (Nat.eqb x n &&
              negb (in_tags (e_tag (rd s n)) ["div"; "p"]))%bool
          then "div" else e_tag (rd s x))
        by (intros x; apply as_block_tag; lia).
      assert (Hpar2 : forall x,
        getparent s2 x = if Nat.eqb x n then Some content else getparent s x).
      { intros x. unfold s2.
        rewrite (append_child_parent s1 content n Hn1).
        destruct (Nat.eqb x n); [reflexivity|].
        apply (as_block_proj e_parent). reflexivity. }
      apply IH; try assumption.
      * unfold s2. rewrite append_child_length. exact L1.
      * fold s2. rewrite Hch2. apply sublist_app; [|reflexivity].
        etransitivity; [apply detach_children_sublist|].
        rewrite Hch1. exact Hsub.
      * fold s2. intros c Hc. rewrite Hpar2, Htag2, Htag1.
        destruct (Nat.eqb c n) eqn:Ecn.
        -- apply Nat.eqb_eq in Ecn. subst c. split; [reflexivity|].
           cbn [andb].
           destruct (in_tags (e_tag (rd s n)) ["div"; "p"]) eqn:Et;
             [exact Et | reflexivity].
        -- apply Nat.eqb_neq in Ecn. cbn [andb].
           destruct (Hold c Hc) as [->|Hin]; [congruence|].
           apply Hkids, Hin.
      * fold s2. intros H. destruct (Nat.eq_dec top n) as [->|Hne].
        -- rewrite Hch2. apply in_app_iff. right. left. reflexivity.
        -- apply Hkeep; [exact Hne|]. apply Htop.
           apply in_app_iff in H as [H|[H|[]]]; [exact H | congruence].
      * fold s2. intros x. destruct (Hdata x) as (a1 & a2 & a3 & a4 & a5).
        unfold s2 at 1 2 3 4.
        rewrite !(append_child_proj s1 content n) by reflexivity.
        unfold s1 at 1 2 3 4. rewrite !as_block_proj by reflexivity.
        repeat (split; [assumption|]).
        rewrite ?Htag2, Htag1. destruct (Nat.eqb x n) eqn:Exn.
        -- apply Nat.eqb_eq in Exn. subst x. cbn [andb].
           assert (Hin : In n (getchildren s2 content))
             by (rewrite Hch2; apply in_app_iff; right; left; reflexivity).
           destruct (in_tags (e_tag (rd s n)) ["div"; "p"]); cbn [negb].
           ++ destruct a5 as [a5|[_ a5]]; [left; exact a5 | right].
              split; assumption.
           ++ right. split; [exact Hin | reflexivity].
        -- apply Nat.eqb_neq in Exn. cbn [andb].
           destruct a5 as [a5|[Hin a5]]; [left; exact a5 | right].
           split; [apply Hkeep; assumption | exact a5].
      * fold s2. intros x Hx. rewrite Hpar2.
        destruct (Nat.eqb x n) eqn:Exn.
        -- apply Nat.eqb_eq in Exn. subst x. exfalso. apply Hx.
           rewrite Hch2. apply in_app_iff. right. left. reflexivity.
        -- apply Nat.eqb_neq in Exn. apply Hpar. intros Hin.
           apply Hx, Hkeep; assumption.
Qed.

(** X17: the loop of [_select_top] over the siblings of [top] raises no
    exception.  The children of [content] afterwards are siblings, in the
    order of the siblings; each of them is a [div] or a [p], the other
    tags having been changed to [div]; [top] is among them.  An element
    that was not taken keeps its parent and its tag, and no attribute,
    text or score changes. *)
Theorem harvest_siblings (top content : ref) (sib_thresh : Q) (s : store)
  (siblings : list ref) :
  (content < length s)%nat ->
  forallb (fun n => (Nat.ltb n (length s) && negb (Nat.eqb n content))%bool)
    siblings = true ->
  getchildren s content = [] ->
  exists s',
    for_each siblings (harvest_sibling top content sib_thresh) s = Ok (tt, s')
    /\ length s' = length s
    /\ sublist (getchildren s' content) siblings
    /\ (forall c, In c (getchildren s' content) ->
                  getparent s' c = Some content
                  /\ in_tags (e_tag (rd s' c)) ["div"; "p"] = true)
    /\ (In top siblings -> In top (getchildren s' content))
    /\ (forall x, e_attrib (rd s' x) = e_attrib (rd s x)
                  /\ e_text (rd s' x) = e_text (rd s x)
                  /\ e_tail (rd s' x) = e_tail (rd s x)
                  /\ e_readable (rd s' x) = e_readable (rd s x)
                  /\ (e_tag (rd s' x) = e_tag (rd s x)
                      \/ (In x (getchildren s' content)
                          /\ e_tag (rd s' x) = "div")))
    /\ (forall x, ~ In x (getchildren s' content) ->
                  getparent s' x = getparent s x).
Proof.
  intros Hcont Hsib Hempty. rewrite forallb_forall in Hsib.
  apply (harvest_from top content sib_thresh s siblings Hcont [] s).
  - intros n Hn. specialize (Hsib n Hn). apply andb_prop in Hsib as [H1 H2].
    split; [apply Nat.ltb_lt, H1 | apply Nat.eqb_neq, negb_true_iff, H2].
  - reflexivity.
  - rewrite Hempty. constructor.
  - rewrite Hempty. intros c [].
  - intros [].
  - intros x. repeat split. left. reflexivity.
  - reflexivity.
Qed.

(** In [store_siblings] the division is [top] (score 30, threshold 10);
    the span has its class and the score 8, which the bonus brings above
    the threshold: it is taken and becomes a [div]; the short paragraph
    without a full stop is left. *)
Lemma harvest_siblings_witness :
  exists s',
    for_each [1; 2; 3]%nat (harvest_sibling 1%nat 4%nat 10%Q) store_siblings
    = Ok (tt, s')
    /\ getchildren s' 4%nat = [1; 2]%nat
    /\ map (fun x => e_tag (rd store_siblings x)) [1; 2; 3]%nat
       = ["div"; "span"; "p"]
    /\ map (fun x => e_tag (rd s' x)) [1; 2; 3]%nat = ["div"; "div"; "p"]
    /\ getparent s' 3%nat = Some 0%nat.
Proof.
  destruct (harvest_siblings 1%nat 4%nat 10%Q store_siblings [1; 2; 3]%nat)
    as (s' & Hrun & _).
  - vm_compute. lia.
  - reflexivity.
  - reflexivity.
  - exists s'. split; [exact Hrun|].
    pose proof Hrun as H. vm_compute in H. injection H as <-.
    repeat split; reflexivity.
Defined.

(** ** Exceptions of the parser *)

Section ParserErrors.

Variable fromstring : string -> result node.
Variable cleaner : node -> node.

(** X18: an exception of the parser goes through [prep_document],
    [_grab_article] and [grab_article] as it is: [grab_article] raises it
    from its first pass, and [self.flags] is what it was before the
    call. *)
Theorem grab_article_parser_error (flags : Z) (data : string) (e : exn) :
  fromstring data = Raise e ->
  prep_document fromstring cleaner data = Raise e
  /\ (forall g, _grab_article fromstring cleaner g data = Raise e)
  /\ grab_article fromstring cleaner flags data = (Raise e, flags).
Proof.
  intros He.
  assert (H1 : prep_document fromstring cleaner data = Raise e).
  { unfold prep_document, bind_of. rewrite He. reflexivity. }
  assert (H2 : forall g, _grab_article fromstring cleaner g data = Raise e).
  { intros g. unfold _grab_article, bind_of. rewrite H1. reflexivity. }
  split; [exact H1|]. split; [exact H2|].
  rewrite grab_article_relax. cbv [relax FLAGS].
  assert (E : clear_flag flags FLAG_NONE = flags)
    by (unfold clear_flag, FLAG_NONE; apply Z.land_m1_r).
  rewrite E, H2. reflexivity.
Qed.

End ParserErrors.

Lemma grab_article_parser_error_witness :
  grab_article (parser_of samples) no_cleaning 0xFFF8 "<unknown>"
  = (Raise DomError, 0xFFF8).
Proof.
  apply (grab_article_parser_error (parser_of samples) no_cleaning 0xFFF8
           "<unknown>" DomError).
  reflexivity.
Defined.

(** ** [node_copy] *)

Lemma rd_app_l (s t : store) (x : ref) :
  (x < length s)%nat -> rd (s ++ t) x = rd s x.
Proof. intros H. unfold rd. rewrite lookup_app_l by exact H. reflexivity. Qed.

Lemma rd_snoc (s : store) (e : elem) : rd (s ++ [e]) (length s) = e.
Proof. unfold rd. rewrite list_lookup_middle by reflexivity. reflexivity. Qed.

(** The document below an element depends on the elements of a range of
    references that holds the element and is closed under children. *)
Lemma extract_fuel_local (s s' : store) (a b : nat) :
  (forall x, (a <= x < b)%nat ->
     e_tag (rd s' x) = e_tag (rd s x)
     /\ e_attrib (rd s' x) = e_attrib (rd s x)
     /\ e_text (rd s' x) = e_text (rd s x)
     /\ e_tail (rd s' x) = e_tail (rd s x)
     /\ e_children (rd s' x) = e_children (rd s x)) ->
  (forall x c, (a <= x < b)%nat -> In c (getchildren s x) ->
               (a <= c < b)%nat) ->
  forall g n, (a <= n < b)%nat ->
    extract_fuel g s' n = extract_fuel g s n.
Proof.
  intros Hsame Hclosed. induction g as [|g IH]; intros n Hn;
    cbn [extract_fuel];
    destruct (Hsame n Hn) as (-> & -> & -> & -> & Hc); [reflexivity|].
  rewrite Hc. f_equal. apply map_ext_in. intros c Hin.
  apply IH, (Hclosed n c Hn Hin).
Qed.

(** More fuel than the size of the store extracts the same document. *)
Lemma extract_fuel_stable (s : store) :
  parents_agree s -> acyclic s = true ->
  forall (f k : nat) (r : ref),
    rises k s r = false -> (length s <= S (k + f))%nat ->
    extract_fuel (S f) s r = extract_fuel f s r.
Proof.
  intros Hpa Hac. induction f as [|f IH]; intros k r Hk Hlen.
  - cbn [extract_fuel]. fold (getchildren s r).
    destruct (getchildren s r) as [|c cs] eqn:Hcs; [reflexivity|]. exfalso.
    assert (Hc : In c (getchildren s r)) by (rewrite Hcs; left; reflexivity).
    pose proof (Hpa r c Hc) as Hp.
    assert (Hr : rises (length s) s c = true).
    { unfold acyclic in Hac. rewrite forallb_forall in Hac. apply Hac, in_seq.
      pose proof (getparent_in_range s c r Hp). lia. }
    apply (rises_le s _ (S k)) in Hr; [|lia].
    cbn [rises] in Hr. rewrite Hp in Hr. congruence.
  - change (extract_fuel (S (S f)) s r)
      with (Node (e_tag (rd s r)) (e_attrib (rd s r)) (e_text (rd s r))
              (e_tail (rd s r))
              (map (extract_fuel (S f) s) (e_children (rd s r)))).
    change (extract_fuel (S f) s r)
      with (Node (e_tag (rd s r)) (e_attrib (rd s r)) (e_text (rd s r))
              (e_tail (rd s r))
              (map (extract_fuel f s) (e_children (rd s r)))).
    f_equal. apply map_ext_in. intros c Hc.
    apply (IH (S k)); [|lia].
    cbn [rises]. rewrite (Hpa r c Hc). exact Hk.
Qed.

Lemma extract_fuel_adequate (s : store) :
  parents_agree s -> acyclic s = true ->
  forall (f : nat) (r : ref),
    extract_fuel (length s + f) s r = extract s r.
Proof.
  intros Hpa Hac f r. unfold extract.
  induction f as [|f IH]; [rewrite Nat.add_0_r; reflexivity|].
  rewrite Nat.add_succ_r, <- IH.
  apply (extract_fuel_stable s Hpa Hac _ 0%nat); [reflexivity | lia].
Qed.

Lemma node_copy_fuel_unfold (f : nat) (n : ref) (s : store) :
  node_copy_fuel f n s
  = let e := rd s n in
    let a := length s in
    let s2 :=
      upd a (fun x => with_tail (e_tail e) (with_text (e_text e) x))
        (s ++ [Elem (e_tag e) (e_attrib e) None None [] None None]) in
    match
      match f with
      | O => match e_children e with
             | [] => mret tt
             | _ => raise OutOfBudget
             end
      | S f' =>
          for_each (e_children e) (fun c =>
            let* newc := node_copy_fuel f' c in
            modify (append_child a newc))
      end s2
    with
    | Ok (_, s') => Ok (a, s')
    | Raise x => Raise x
    end.
Proof. destruct f; reflexivity. Qed.

Lemma append_child_rd (s : store) (p c x : ref) :
  (p < length s)%nat -> (c < length s)%nat -> c <> p ->
  getparent s c = None ->
  rd (append_child p c s) x
  = if Nat.eqb x c then with_parent (Some p) (rd s c)
    else if Nat.eqb x p
         then with_children (e_children (rd s p) ++ [c]) (rd s p)
         else rd s x.
Proof.
  intros Hp Hc Hne Hnone. unfold append_child, detach. rewrite Hnone.
  destruct (Nat.eqb x c) eqn:Ec.
  - apply Nat.eqb_eq in Ec. subst x.
    rewrite rd_upd_eq by (rewrite length_upd; exact Hc).
    rewrite rd_upd_ne by exact Hne. reflexivity.
  - apply Nat.eqb_neq in Ec. rewrite rd_upd_ne by exact Ec.
    destruct (Nat.eqb x p) eqn:Ep.
    + apply Nat.eqb_eq in Ep. subst x. rewrite rd_upd_eq by exact Hp.
      reflexivity.
    + apply Nat.eqb_neq in Ep. apply rd_upd_ne, Ep.
Qed.

Section NodeCopy.

Variable s0 : store.
Hypothesis Hpa : parents_agree s0.
Hypothesis Hac : acyclic s0 = true.

Lemma childless_at_depth (n : ref) :
  deep_enough s0 0 n -> getchildren s0 n = [].
Proof.
  intros (k & Hk & Hlen).
  destruct (getchildren s0 n) as [|c cs] eqn:Hcs; [reflexivity|]. exfalso.
  assert (Hc : In c (getchildren s0 n)) by (rewrite Hcs; left; reflexivity).
  pose proof (Hpa n c Hc) as Hp.
  assert (Hr : rises (length s0) s0 c = true).
  { unfold acyclic in Hac. rewrite forallb_forall in Hac. apply Hac, in_seq.
    pose proof (getparent_in_range s0 c n Hp). lia. }
  apply (rises_le s0 _ (S k)) in Hr; [|lia].
  cbn [rises] in Hr. rewrite Hp in Hr. congruence.
Qed.

Lemma children_deep_enough (f : nat) (n c : ref) :
  deep_enough s0 (S f) n -> In c (getchildren s0 n) ->
  (c < length s0)%nat /\ deep_enough s0 f c.
Proof.
  intros (k & Hk & Hlen) Hc. pose proof (Hpa n c Hc) as Hp. split.
  - apply (getparent_in_range s0 c n Hp).
  - exists (S k). split; [|lia]. cbn [rises]. rewrite Hp. exact Hk.
Qed.

(** The loop of [node_copy] over the children, the copy [a] of the node
    being in place. *)
Lemma copy_children (f : nat) (a : ref) :
  (forall c s, (c < length s0)%nat -> extends s0 s -> deep_enough s0 f c ->
     exists s', node_copy_fuel f c s = Ok (length s, s')
                /\ copy_of s0 c s s') ->
  (length s0 <= a)%nat ->
  forall (cs done : list ref) (t : store),
    (forall c, In c cs -> (c < length s0)%nat /\ deep_enough s0 f c) ->
    (a < length t)%nat ->
    extends s0 t ->
    getparent t a = None ->
    (forall g, map (extract_fuel g t) (getchildren t a)
               = map (extract_fuel g s0) done) ->
    (forall x c, (a < x < length t)%nat -> In c (getchildren t x) ->
                 (a < c < length t)%nat) ->
    (forall c, In c (getchildren t a) -> (a < c < length t)%nat) ->
    (forall x, (a <= x)%nat -> e_readable (rd t x) = None) ->
    exists t',
      for_each cs (fun c =>
        let* newc := node_copy_fuel f c in
        modify (append_child a newc)) t = Ok (tt, t')
      /\ (length t <= length t')%nat
      /\ (forall x, (x < a)%nat -> rd t' x = rd t x)
      /\ (e_tag (rd t' a) = e_tag (rd t a)
          /\ e_attrib (rd t' a) = e_attrib (rd t a)
          /\ e_text (rd t' a) = e_text (rd t a)
          /\ e_tail (rd t' a) = e_tail (rd t a))
      /\ getparent t' a = None
      /\ (forall g, map (extract_fuel g t') (getchildren t' a)
                    = map (extract_fuel g s0) (done ++ cs))
      /\ (forall x c, (a < x < length t')%nat -> In c (getchildren t' x) ->
                      (a < c < length t')%nat)
      /\ (forall c, In c (getchildren t' a) -> (a < c < length t')%nat)
      /\ (forall x, (a <= x)%nat -> e_readable (rd t' x) = None).
Proof.
  intros IHf Ha. induction cs as [|c cs IH];
    intros done t Hcs Hlt Hext Hnone Hdone Hclosed Hkids Hread.
  - exists t. rewrite app_nil_r. split; [reflexivity|].
    split; [lia|]. split; [reflexivity|]. split; [repeat split|].
    auto 10.
  - cbn [for_each]. unfold bind_of at 1. unfold mbind, M_bind.
    destruct (Hcs c (or_introl eq_refl)) as [Hc Hdeep].
    destruct (IHf c t Hc Hext Hdeep)
      as (t1 & Hrun & L1 & P1 & C1 & N1 & R1 & X1).
    unfold bind_of at 1. unfold mbind, M_bind. rewrite Hrun.
    unfold modify. set (newc := length t) in *.
    set (t2 := append_child a newc t1).
    assert (Hrd2 : forall x,
      rd t2 x
      = if Nat.eqb x newc then with_parent (Some a) (rd t1 newc)
        else if Nat.eqb x a
             then with_children (e_children (rd t1 a) ++ [newc]) (rd t1 a)
             else rd t1 x).
    { intros x. apply append_child_rd; [lia | lia | unfold newc; lia|].
      exact N1. }
    assert (L2 : length t2 = length t1).
    { unfold t2. apply append_child_length. }
    assert (Hlow : forall x, (x < newc)%nat -> x <> a -> rd t2 x = rd t x).
    { intros x Hx Hxa. rewrite Hrd2.
      destruct (Nat.eqb x newc) eqn:E1; [apply Nat.eqb_eq in E1; lia|].
      destruct (Nat.eqb x a) eqn:E2; [apply Nat.eqb_eq in E2; lia|].
      apply P1, Hx. }
    assert (Ha2 : rd t2 a
                  = with_children (e_children (rd t a) ++ [newc]) (rd t a)).
    { rewrite Hrd2.
      destruct (Nat.eqb a newc) eqn:E1;
        [apply Nat.eqb_eq in E1; unfold newc in E1; lia|].
      rewrite Nat.eqb_refl, (P1 a Hlt). reflexivity. }
    assert (Hhigh : forall x, (newc <= x)%nat ->
      e_tag (rd t2 x) = e_tag (rd t1 x)
      /\ e_attrib (rd t2 x) = e_attrib (rd t1 x)
      /\ e_text (rd t2 x) = e_text (rd t1 x)
      /\ e_tail (rd t2 x) = e_tail (rd t1 x)
      /\ e_children (rd t2 x) = e_children (rd t1 x)
      /\ e_readable (rd t2 x) = e_readable (rd t1 x)).
    { intros x Hx. rewrite Hrd2.
      destruct (Nat.eqb x newc) eqn:E1.
      - apply Nat.eqb_eq in E1. subst x. repeat split.
      - destruct (Nat.eqb x a) eqn:E2;
          [apply Nat.eqb_eq in E2; unfold newc in Hx; lia|].
        repeat split. }
    assert (Hch2 : getchildren t2 a = getchildren t a ++ [newc]).
    { unfold getchildren. rewrite Ha2. reflexivity. }
    destruct (IH (done ++ [c]) t2) as
      (t' & Hrun' & L' & P' & D' & N' & X' & C' & K' & R').
    + intros c' Hc'. apply Hcs. right. exact Hc'.
    + lia.
    + destruct Hext as [He1 He2]. split; [lia|]. intros x Hx.
      rewrite Hlow by (unfold newc; lia). apply He2, Hx.
    + unfold getparent. rewrite Ha2. exact Hnone.
    + intros g. rewrite Hch2, !map_app. cbn [map]. f_equal.
      * rewrite <- Hdone. apply map_ext_in. intros x Hx.
        apply (extract_fuel_local t t2 (S a) newc).
        -- intros y Hy. rewrite Hlow by lia. repeat split.
        -- intros y z Hy Hz.
           assert (a < z < length t)%nat by (apply (Hclosed y z); [lia|exact Hz]).
           unfold newc. lia.
        -- specialize (Hkids x Hx). unfold newc. lia.
      * f_equal. rewrite <- X1.
        apply (extract_fuel_local t1 t2 newc (length t1)).
        -- intros y Hy. destruct (Hhigh y) as (h1 & h2 & h3 & h4 & h5 & _);
             [lia|]. repeat split; assumption.
        -- intros y z Hy Hz. apply (C1 y z); [exact Hy | exact Hz].
        -- unfold newc. lia.
    + intros x z Hx Hz. rewrite L2 in *.
      destruct (le_lt_dec newc x) as [Hge|Hlo].
      * unfold getchildren in Hz.
        destruct (Hhigh x Hge) as (_ & _ & _ & _ & h5 & _).
        rewrite h5 in Hz.
        assert (newc <= z < length t1)%nat
          by (apply (C1 x z); [lia | exact Hz]).
        unfold newc in *. lia.
      * unfold getchildren in Hz. rewrite Hlow in Hz by lia.
        assert (a < z < length t)%nat by (apply (Hclosed x z); [lia|exact Hz]).
        lia.
    + intros z Hz. rewrite Hch2, L2 in *.
      apply in_app_iff in Hz as [Hz|[<-|[]]].
      * specialize (Hkids z Hz). lia.
      * unfold newc. lia.
    + intros x Hx. destruct (le_lt_dec newc x) as [Hge|Hlo].
      * destruct (Hhigh x Hge) as (_ & _ & _ & _ & _ & h6).
        rewrite h6. apply R1, Hge.
      * destruct (Nat.eq_dec x a) as [->|Hxa].
        -- rewrite Ha2. apply (Hread a). lia.
        -- rewrite Hlow by assumption. apply Hread, Hx.
    + exists t'. split; [exact Hrun'|]. split; [lia|]. split.
      { intros x Hx. rewrite P' by exact Hx. apply Hlow; unfold newc; lia. }
      split.
      { destruct D' as (d1 & d2 & d3 & d4). rewrite d1, d2, d3, d4, Ha2.
        repeat split. }
      split; [exact N'|]. split.
      { intros g. rewrite X', <- app_assoc. reflexivity. }
      auto.
Qed.

Lemma node_copy_fuel_run (f : nat) :
  forall (n : ref) (s : store),
    (n < length s0)%nat -> extends s0 s -> deep_enough s0 f n ->
    exists s', node_copy_fuel f n s = Ok (length s, s')
               /\ copy_of s0 n s s'.
Proof.
  induction f as [|f IHf]; intros n s Hn Hext Hdeep;
    rewrite node_copy_fuel_unfold; cbv zeta;
    assert (He : rd s n = rd s0 n) by (apply Hext, Hn);
    rewrite He;
    set (e := rd s0 n); set (a := length s);
    set (s2 := upd a (fun x => with_tail (e_tail e) (with_text (e_text e) x))
                 (s ++ [Elem (e_tag e) (e_attrib e) None None [] None None]));
    assert (La : length s2 = S a)
      by (unfold s2; rewrite length_upd, length_app; cbn; lia);
    assert (Ha2 : rd s2 a
                  = Elem (e_tag e) (e_attrib e) (e_text e) (e_tail e) []
                      None None)
      by (unfold s2; rewrite rd_upd_eq by (rewrite length_app; cbn; lia);
          unfold a; rewrite rd_snoc; reflexivity);
    assert (Hlow : forall x, (x < a)%nat -> rd s2 x = rd s x)
      by (intros x Hx; unfold s2; rewrite rd_upd_ne by lia;
          apply rd_app_l; exact Hx);
    assert (Hout : forall x, (a < x)%nat -> rd s2 x = void)
      by (intros x Hx; apply rd_out_of_range; lia).
  - pose proof (childless_at_depth n Hdeep) as Hcs.
    unfold getchildren in Hcs. fold e in Hcs. rewrite Hcs.
    exists s2. split; [reflexivity|]. unfold copy_of. fold a.
    split; [lia|]. split; [exact Hlow|]. split.
    { intros x c Hx Hc. assert (x = a) by lia. subst x.
      unfold getchildren in Hc. rewrite Ha2 in Hc. destruct Hc. }
    split; [unfold getparent; rewrite Ha2; reflexivity|]. split.
    { intros x Hx. destruct (Nat.eq_dec x a) as [->|Hne].
      - rewrite Ha2. reflexivity.
      - rewrite Hout by lia. reflexivity. }
    intros g. destruct g; cbn [extract_fuel]; rewrite Ha2; fold e;
      cbn [e_tag e_attrib e_text e_tail e_children]; rewrite ?Hcs;
      reflexivity.
  - destruct (copy_children f a IHf) with
      (cs := e_children e) (done := @nil ref) (t := s2)
      as (t' & Hrun & L' & P' & D' & N' & X' & C' & K' & R').
    + destruct Hext. unfold a. lia.
    + intros c Hc. apply (children_deep_enough f n c Hdeep Hc).
    + lia.
    + destruct Hext as [He1 He2]. split; [lia|]. intros x Hx.
      rewrite Hlow by (unfold a; lia). apply He2, Hx.
    + unfold getparent. rewrite Ha2. reflexivity.
    + intros g. unfold getchildren. rewrite Ha2. reflexivity.
    + intros x c Hx. lia.
    + intros c Hc. unfold getchildren in Hc. rewrite Ha2 in Hc. destruct Hc.
    + intros x Hx. destruct (Nat.eq_dec x a) as [->|Hne].
      * rewrite Ha2. reflexivity.
      * rewrite Hout by lia. reflexivity.
    + rewrite Hrun. exists t'. split; [reflexivity|].
      unfold copy_of. fold a. split; [lia|]. split.
      { intros x Hx. rewrite P' by exact Hx. apply Hlow, Hx. }
      split.
      { intros x c Hx Hc. destruct (Nat.eq_dec x a) as [->|Hne].
        - specialize (K' c Hc). lia.
        - assert (a < c < length t')%nat
            by (apply (C' x c); [lia | exact Hc]).
          lia. }
      split; [exact N'|]. split; [exact R'|].
      destruct D' as (d1 & d2 & d3 & d4). rewrite Ha2 in d1, d2, d3, d4.
      cbn [e_tag e_attrib e_text e_tail] in d1, d2, d3, d4.
      intros g. destruct g; cbn [extract_fuel];
        rewrite d1, d2, d3, d4; fold e; [reflexivity|].
      f_equal. apply (X' g).
Qed.

End NodeCopy.

(** X19: on a store made of trees, [node_copy(node)] raises no exception
    (the bound on the depth of the recursion is not reached) and returns
    a new element that is, with its subtree, the same document as [node]:
    same tags, attributes, texts and tails, children in the same order.
    The copy has no parent, neither the copy nor any other new element
    has a score, and the elements that existed before the call are left
    as they were. *)
Theorem node_copy_spec (s : store) (n : ref) :
  parents_ok s = true ->
  acyclic s = true ->
  (n < length s)%nat ->
  exists s',
    node_copy n s = Ok (length s, s')
    /\ (length s < length s')%nat
    /\ extract s' (length s) = extract s n
    /\ (forall x, (x < length s)%nat -> rd s' x = rd s x)
    /\ getparent s' (length s) = None
    /\ (forall x, (length s <= x)%nat -> is_readable s' x = false).
Proof.
  intros Hok Hac Hn. pose proof (parents_ok_agree s Hok) as Hpa.
  destruct (node_copy_fuel_run s Hpa Hac (length s) n s Hn)
    as (s' & Hrun & L & P & _ & N & R & X).
  - split; [lia | reflexivity].
  - exists 0%nat. split; [reflexivity | lia].
  - exists s'. split; [exact Hrun|]. split; [exact L|]. split.
    { unfold extract at 1. rewrite X.
      replace (length s') with (length s + (length s' - length s))%nat by lia.
      apply extract_fuel_adequate; assumption. }
    split; [exact P|]. split; [exact N|].
    intros x Hx. unfold is_readable. rewrite (R x Hx). reflexivity.
Qed.

(** The division of [store_copy], which has a score, is copied with its
    child: the copy is the same document and has no score. *)
Lemma node_copy_spec_witness :
  exists s',
    node_copy 1%nat store_copy = Ok (3%nat, s')
    /\ extract s' 3%nat
       = Node "div" [("id", "d"); ("style", "s")] (Some "a") (Some "f")
           [Node "b" [] (Some "c") (Some "e") []]
    /\ is_readable store_copy 1%nat = true
    /\ is_readable s' 3%nat = false.
Proof.
  destruct (node_copy_spec store_copy 1%nat) as (s' & Hrun & _ & Hx & _ & _ & Hr).
  - reflexivity.
  - reflexivity.
  - vm_compute. lia.
  - change (length store_copy) with 3%nat in *.
    exists s'. split; [exact Hrun|]. split; [rewrite Hx; reflexivity|].
    split; [reflexivity|]. apply Hr. lia.
Defined.
